(** * Transcript pipeline: length planning, chunk rewriting, structure index
    parsing, segmentation and the generator adapter.

    A shallow embedding of
      - app/src/transcript_pipeline/processor/chunked_processor.py
      - app/src/transcript_pipeline/processor/custom_prompts.py
      - src/transcript_pipeline/processor/litellm_processing.py
      - src/transcript_pipeline/processor/segmenter.py

    Conventions.
    - A Python [str] is a [list ascii]; a character is a code point below 256.
    - A Python [int] is a [Z].
    - A Python [float] is an IEEE-754 binary64 value, [spec_float] of the
      standard library with [prec = 53] and [emax = 1024]; every float
      operation of the source is the correctly rounded one of [SpecFloat].
    - Code that can raise returns in [result]; code that calls the external
      text generator threads a call log and asks an oracle for the answer. *)

From Stdlib Require Import ZArith List Bool Lia Ascii String.
From Stdlib Require Import Floats.SpecFloat.
From Stdlib Require Import Sorting.Sorted.
From stdpp Require Import base list gmap strings pretty.
Import ListNotations.

Local Open Scope Z_scope.

(** ** Python strings *)

Abbreviation str := (list ascii).

Definition s (x : string) : str := list_ascii_of_string x.

Definition NL : ascii := ascii_of_nat 10.

(** The double quote *)
Definition DQ : ascii := ascii_of_nat 34.

Definition len (x : str) : Z := Z.of_nat (length x).

(** [len] of a list that is not a string *)
Definition len_list {A} (x : list A) : Z := Z.of_nat (length x).

(** ** Python floats (binary64) *)

Module PyFloat.

Definition prec : Z := 53.
Definition emax : Z := 1024.

Abbreviation float := spec_float.

(** [float(z)]; exact for [|z| < 2^53], correctly rounded above. *)
Definition of_int (z : Z) : float := binary_normalize prec emax z 0 false.

Definition mul : float -> float -> float := SFmul prec emax.
Definition div : float -> float -> float := SFdiv prec emax.
Definition ltb : float -> float -> bool := SFltb.

(** The literals of the source, as the nearest binary64 value. *)
Definition f0_7 : float := S754_finite false 6305039478318694 (-53).
Definition f0_8 : float := S754_finite false 7205759403792794 (-53).
Definition f0_9 : float := S754_finite false 8106479329266893 (-53).
Definition f1_0 : float := S754_finite false 4503599627370496 (-52).
Definition f1_1 : float := S754_finite false 4953959590107546 (-52).
Definition f1_2 : float := S754_finite false 5404319552844595 (-52).
Definition f1_3 : float := S754_finite false 5854679515581645 (-52).
Definition f1_7 : float := S754_finite false 7656119366529843 (-52).

(** [int(f)]: truncation toward zero; [None] where Python raises
    (infinities and NaN). *)
Definition to_int (f : float) : option Z :=
  match f with
  | S754_zero _ => Some 0
  | S754_finite sg m e => Some (cond_Zopp sg (Z.shiftl (Zpos m) e))
  | _ => None
  end.

(** [math.ceil(f)]. *)
Definition ceil (f : float) : option Z :=
  match f with
  | S754_zero _ => Some 0
  | S754_finite sg m e =>
      let q := Z.shiftl (Zpos m) e in
      let exact := Z.eqb (Z.shiftl q (- e)) (Zpos m) || (0 <=? e) in
      Some (if sg then - q else if exact then q else q + 1)
  | _ => None
  end.

(** [round(f)] with no digits: to the nearest integer, ties to even. *)
Definition round (f : float) : option Z :=
  match f with
  | S754_zero _ => Some 0
  | S754_finite sg m e =>
      if 0 <=? e then Some (cond_Zopp sg (Z.shiftl (Zpos m) e))
      else
        let q := Z.shiftl (Zpos m) e in
        let r := Zpos m - Z.shiftl q (- e) in
        let half := Z.shiftl 1 (- e - 1) in
        let up :=
          match Z.compare r half with
          | Lt => false
          | Gt => true
          | Eq => Z.odd q
          end in
        Some (cond_Zopp sg (if up then q + 1 else q))
  | _ => None
  end.

(** [a / b] on two ints.  Python rounds the exact quotient once; that is
    what [div] of the two conversions gives while both are below 2^53 in
    magnitude, the range of every length in this program. *)
Definition int_truediv (a b : Z) : option float :=
  if b =? 0 then None else Some (div (of_int a) (of_int b)).

(** [f < z] for a float and an int. *)
Definition lt_int (f : float) (z : Z) : bool := ltb f (of_int z).
Definition int_lt (z : Z) (f : float) : bool := ltb (of_int z) f.

End PyFloat.

(** ** Exceptions *)

Inductive exn :=
| ZeroDivisionError
| OverflowError
| IndexError
| ValueError (msg : str)
| RecursionError
| GenerationError
| AttributeError (name : str)
| KeyError (key : str).

Inductive result (A : Type) :=
| Ok (a : A)
| Raise (e : exn).
Arguments Ok {A} a.
Arguments Raise {A} e.

Definition rbind {A B} (r : result A) (f : A -> result B) : result B :=
  match r with
  | Ok a => f a
  | Raise e => Raise e
  end.

Definition of_option {A} (e : exn) (o : option A) : result A :=
  match o with
  | Some a => Ok a
  | None => Raise e
  end.

#[global] Instance result_ret : MRet result := @Ok.
#[global] Instance result_bind : MBind result := fun A B f r => rbind r f.

(** ** Slices: [x[a:b]] with Python's clamping of both indices *)

Definition norm_index (n i : Z) : Z :=
  if i <? 0 then Z.max 0 (i + n) else Z.min i n.

Definition slice (x : str) (a b : Z) : str :=
  let n := len x in
  let a' := norm_index n a in
  let b' := norm_index n b in
  take (Z.to_nat (b' - a')) (drop (Z.to_nat a') x).

(** [x[a:]] and [x[:b]] *)
Definition slice_from (x : str) (a : Z) : str := slice x a (len x).
Definition slice_to (x : str) (b : Z) : str := slice x 0 b.

(** ** ChunkedProcessor: the expansion segments
    ([_process_with_expansion_chapters], "Create segment boundaries") *)

Module Expansion.

Record segment := {
  chapter_num : Z;
  start_char : Z;
  end_char : Z;
  text : str;
}.

Definition max_chapter_size : Z := 15000.

(** [math.ceil(target_length / max_chapter_size)] *)
Definition required_chapters (target_length : Z) : result Z :=
  (q ← of_option ZeroDivisionError
               (PyFloat.int_truediv target_length max_chapter_size);
   of_option OverflowError (PyFloat.ceil q)).

(** [int(min(x, n))] for a float [x] and an int [n]: [min] keeps its first
    argument unless the second is strictly smaller. *)
Definition int_min_float_int (x : PyFloat.float) (n : Z) : result Z :=
  if PyFloat.int_lt n x then Ok n
  else of_option OverflowError (PyFloat.to_int x).

Definition make_segment (transcript_text : str) (segment_size : PyFloat.float)
    (original_length : Z) (i : Z) : result segment :=
  (start_char ←
     of_option OverflowError
       (PyFloat.to_int (PyFloat.mul (PyFloat.of_int i) segment_size));
   end_char ←
     int_min_float_int (PyFloat.mul (PyFloat.of_int (i + 1)) segment_size)
       original_length;
   Ok {| chapter_num := i + 1;
         start_char := start_char;
         end_char := end_char;
         text := slice transcript_text start_char end_char |}).

Fixpoint mapM {A B} (f : A -> result B) (l : list A) : result (list B) :=
  match l with
  | [] => Ok []
  | a :: l' =>
      (b ← f a;
       bs ← mapM f l';
       Ok (b :: bs))
  end.

(** [range(n)] *)
Definition range (n : Z) : list Z := map Z.of_nat (seq 0 (Z.to_nat n)).

Definition segments (transcript_text : str) (target_length : Z)
    : result (list segment) :=
  let original_length := len transcript_text in
  (required ← required_chapters target_length;
   segment_size ←
     of_option ZeroDivisionError
       (PyFloat.int_truediv original_length required);
   mapM (make_segment transcript_text segment_size original_length)
        (range required)).

(** The character ranges of a segment list, for inspection. *)
Definition ranges (l : list segment) : list (Z * Z * Z) :=
  map (fun g => (chapter_num g, start_char g, end_char g)) l.

Definition segment_ranges (transcript_text : str) (target_length : Z)
    : result (list (Z * Z * Z)) :=
  l ← segments transcript_text target_length;
  Ok (ranges l).

End Expansion.

(** ** LengthPlanner: the acceptance band around a per-chunk target
    ([_process_with_chapter_aligned_chunks] and
    [_process_chunks_with_continuity], "Set acceptable range") *)

Module LengthPlanner.

(** [int(t * f)] for an int [t] and a float literal [f]. *)
Definition int_mul (t : Z) (f : PyFloat.float) : result Z :=
  of_option OverflowError (PyFloat.to_int (PyFloat.mul (PyFloat.of_int t) f)).

Inductive scaling_class := Condensation | Expansion | Adjustment.

(** [scaling_factor < 0.7], [scaling_factor > 1.3], otherwise *)
Definition classify (scaling_factor : PyFloat.float) : scaling_class :=
  if PyFloat.ltb scaling_factor PyFloat.f0_7 then Condensation
  else if PyFloat.ltb PyFloat.f1_3 scaling_factor then Expansion
  else Adjustment.

Definition band (c : scaling_class) : PyFloat.float * PyFloat.float :=
  match c with
  | Condensation => (PyFloat.f0_7, PyFloat.f1_3)
  | Expansion => (PyFloat.f0_8, PyFloat.f1_2)
  | Adjustment => (PyFloat.f0_9, PyFloat.f1_1)
  end.

(** [(min_target_length, max_target_length)] *)
Definition target_range (scaling_factor : PyFloat.float)
    (target_chunk_length : Z) : result (Z * Z) :=
  let '(f_lo, f_hi) := band (classify scaling_factor) in
  min_target_length ← int_mul target_chunk_length f_lo;
  max_target_length ← int_mul target_chunk_length f_hi;
  Ok (min_target_length, max_target_length).

End LengthPlanner.

(** ** Text helpers: [str.lower], [x in y], [x.startswith(p)] *)

Definition is_upper (c : ascii) : bool :=
  let n := nat_of_ascii c in
  ((65 <=? n)%nat && (n <=? 90)%nat)
  || ((192 <=? n)%nat && (n <=? 222)%nat && negb (n =? 215)%nat).

Definition lower_char (c : ascii) : ascii :=
  if is_upper c then ascii_of_nat (nat_of_ascii c + 32) else c.

Definition lower (x : str) : str := map lower_char x.

Fixpoint starts_with (p x : str) : bool :=
  match p, x with
  | [], _ => true
  | a :: p', b :: x' => Ascii.eqb a b && starts_with p' x'
  | _ :: _, [] => false
  end.

(** [x == y] *)
Fixpoint str_eqb (x y : str) : bool :=
  match x, y with
  | [], [] => true
  | a :: x', b :: y' => Ascii.eqb a b && str_eqb x' y'
  | _, _ => false
  end.

(** [needle in hay] *)
Fixpoint contains (needle hay : str) : bool :=
  starts_with needle hay ||
  match hay with
  | [] => false
  | _ :: hay' => contains needle hay'
  end.

(** [x.strip()], [x.split(sep, 1)], [int(x)] on a run of digits, and
    [sep.join(l)] *)

Definition isspace (c : ascii) : bool :=
  let n := nat_of_ascii c in
  ((9 <=? n)%nat && (n <=? 13)%nat) || ((28 <=? n)%nat && (n <=? 32)%nat)
  || (n =? 133)%nat || (n =? 160)%nat.

Definition isdigit (c : ascii) : bool :=
  let n := nat_of_ascii c in (48 <=? n)%nat && (n <=? 57)%nat.

Fixpoint lstrip (x : str) : str :=
  match x with
  | c :: x' => if isspace c then lstrip x' else x
  | [] => []
  end.

Definition rstrip (x : str) : str := reverse (lstrip (reverse x)).
Definition strip (x : str) : str := rstrip (lstrip x).

(** [x.split("\n", 1)]: the text before the first newline, and the text
    after it when there is one. *)
Fixpoint split_first_line (x : str) : str * option str :=
  match x with
  | [] => ([], None)
  | c :: x' =>
      if Ascii.eqb c NL then ([], Some x')
      else let '(a, b) := split_first_line x' in (c :: a, b)
  end.

Definition digit_value (c : ascii) : Z := Z.of_nat (nat_of_ascii c) - 48.

Definition int_of_digits (x : str) : Z :=
  fold_left (fun acc c => 10 * acc + digit_value c) x 0.

Fixpoint join (sep : str) (l : list str) : str :=
  match l with
  | [] => []
  | [x] => x
  | x :: l' => x ++ sep ++ join sep l'
  end.

(** [sorted(l, key=key)]: Python's sort is stable, and so is insertion from
    the right with ties kept behind. *)
Fixpoint insert_by {A} (key : A -> Z) (x : A) (l : list A) : list A :=
  match l with
  | [] => [x]
  | y :: l' => if key x <=? key y then x :: y :: l' else y :: insert_by key x l'
  end.

Definition sort_by {A} (key : A -> Z) (l : list A) : list A :=
  foldr (insert_by key) [] l.

(** ** Regular expressions: the backtracking matcher of [re]

    The patterns of the source are kept as syntax and run by a matcher that
    tries the alternatives in the order Python's engine does: the left branch
    of [|] first, one more repetition first for a greedy quantifier, one
    fewer first for a lazy one.  The first way through is the match. *)

Module Re.

Inductive re :=
| Eps
| Chr (p : ascii -> bool)
| Seq (r1 r2 : re)
| Alt (r1 r2 : re)
| Star (greedy : bool) (r : re)
| Group (n : nat) (r : re)
| NotAhead (r : re)
| Bol
| Eos
| WordB.

(** [\w] on code points below 256; [\s] and [\d] are [isspace] and
    [isdigit]. *)
Definition isword (c : ascii) : bool :=
  let n := nat_of_ascii c in
  isdigit c
  || ((65 <=? n)%nat && (n <=? 90)%nat) || ((97 <=? n)%nat && (n <=? 122)%nat)
  || (n =? 95)%nat
  || (n =? 170)%nat || (n =? 178)%nat || (n =? 179)%nat || (n =? 181)%nat
  || (n =? 185)%nat || (n =? 186)%nat
  || ((188 <=? n)%nat && (n <=? 190)%nat)
  || ((192 <=? n)%nat && (n <=? 214)%nat)
  || ((216 <=? n)%nat && (n <=? 246)%nat)
  || (248 <=? n)%nat.

Definition is_char (c : ascii) : ascii -> bool := Ascii.eqb c.
Definition one_of (l : str) (c : ascii) : bool := existsb (Ascii.eqb c) l.
Definition none_of (l : str) (c : ascii) : bool := negb (one_of l c).
Definition any (c : ascii) : bool := true.

(** Derived forms: a literal, [r+], [r?] *)
Fixpoint Lit (w : str) : re :=
  match w with
  | [] => Eps
  | c :: w' => Seq (Chr (is_char c)) (Lit w')
  end.
Definition Plus (greedy : bool) (r : re) : re := Seq r (Star greedy r).
Definition Opt (r : re) : re := Alt r Eps.
Definition seqs (l : list re) : re := foldr Seq Eps l.

(** Where the matcher stands: the index in the text, the character before
    it, the text from it on, and the groups closed so far. *)
Record mstate := {
  pos : nat;
  prev : option ascii;
  rest : str;
  caps : list (nat * (nat * nat));
}.

Definition advance (c : ascii) (tl : str) (st : mstate) : mstate :=
  {| pos := S (pos st); prev := Some c; rest := tl; caps := caps st |}.

Definition set_cap (n : nat) (from to : nat) (st : mstate) : mstate :=
  {| pos := pos st; prev := prev st; rest := rest st;
     caps := (n, (from, to)) :: caps st |}.

Definition at_line_start (st : mstate) : bool :=
  match prev st with
  | None => true
  | Some c => Ascii.eqb c NL
  end.

Definition at_word_boundary (st : mstate) : bool :=
  let before := match prev st with Some c => isword c | None => false end in
  let after := match rest st with c :: _ => isword c | [] => false end in
  xorb before after.

Abbreviation cont := (mstate -> option mstate).

(** [r*] and [r*?] over a matcher [body] for [r].  A repetition that
    consumed nothing ends the loop. *)
Fixpoint star (greedy : bool) (body : cont -> cont) (k : cont) (fuel : nat)
    (st : mstate) : option mstate :=
  match fuel with
  | O => k st
  | S fuel' =>
      let again :=
        body (fun st' =>
                if (pos st <? pos st')%nat then star greedy body k fuel' st'
                else k st') in
      if greedy then
        match again st with
        | Some x => Some x
        | None => k st
        end
      else
        match k st with
        | Some x => Some x
        | None => again st
        end
  end.

Fixpoint m (r : re) (k : cont) (st : mstate) {struct r} : option mstate :=
  match r with
  | Eps => k st
  | Chr p =>
      match rest st with
      | c :: tl => if p c then k (advance c tl st) else None
      | [] => None
      end
  | Seq r1 r2 => m r1 (m r2 k) st
  | Alt r1 r2 =>
      match m r1 k st with
      | Some x => Some x
      | None => m r2 k st
      end
  | Star greedy r' => star greedy (m r') k (length (rest st)) st
  | Group n r' => m r' (fun st' => k (set_cap n (pos st) (pos st') st')) st
  | NotAhead r' =>
      match m r' Some st with
      | Some _ => None
      | None => k st
      end
  | Bol => if at_line_start st then k st else None
  | Eos => match rest st with [] => k st | _ => None end
  | WordB => if at_word_boundary st then k st else None
  end.

(** A match object: [start()], [end()], and the spans of its groups. *)
Record rmatch := {
  m_start : nat;
  m_end : nat;
  m_caps : list (nat * (nat * nat));
}.

Definition match_at (r : re) (st : mstate) : option rmatch :=
  match m r Some st with
  | Some st' => Some {| m_start := pos st; m_end := pos st'; m_caps := caps st' |}
  | None => None
  end.

Definition start_state (text : str) : mstate :=
  {| pos := 0; prev := None; rest := text; caps := [] |}.

Definition step_over (st : mstate) : option mstate :=
  match rest st with
  | c :: tl => Some {| pos := S (pos st); prev := Some c; rest := tl; caps := [] |}
  | [] => None
  end.

(** The state [n] characters further on. *)
Fixpoint skip (n : nat) (st : mstate) : mstate :=
  match n with
  | O => st
  | S n' => match step_over st with Some st' => skip n' st' | None => st end
  end.

(** [re.search]: the leftmost match from [st] on. *)
Fixpoint search_from (r : re) (fuel : nat) (st : mstate) : option rmatch :=
  match match_at r st with
  | Some x => Some x
  | None =>
      match fuel with
      | O => None
      | S fuel' =>
          match step_over st with
          | Some st' => search_from r fuel' st'
          | None => None
          end
      end
  end.

Definition search (r : re) (text : str) : option rmatch :=
  search_from r (length text) (start_state text).

(** [re.match]: a match at the start only. *)
Definition match_ (r : re) (text : str) : option rmatch :=
  match_at r (start_state text).

(** [re.finditer]: the matches from left to right, each search starting
    where the previous match ended (one further after an empty match). *)
Fixpoint finditer_from (r : re) (fuel : nat) (st : mstate) : list rmatch :=
  match fuel with
  | O => []
  | S fuel' =>
      match match_at r st with
      | Some x =>
          if (m_start x <? m_end x)%nat
          then x :: finditer_from r fuel' (skip (m_end x - m_start x) st)
          else x :: match step_over st with
                    | Some st' => finditer_from r fuel' st'
                    | None => []
                    end
      | None =>
          match step_over st with
          | Some st' => finditer_from r fuel' st'
          | None => []
          end
      end
  end.

Definition finditer (r : re) (text : str) : list rmatch :=
  finditer_from r (S (length text)) (start_state text).

(** [match.group(n)], the empty string for a group that did not take part
    (the source tests [group(3)] for truth and has no other optional
    group). *)
Definition group (text : str) (x : rmatch) (n : nat) : str :=
  match n with
  | O => take (m_end x - m_start x) (drop (m_start x) text)
  | _ =>
      match List.find (fun e => Nat.eqb (fst e) n) (m_caps x) with
      | Some (_, (from, to)) => take (to - from) (drop from text)
      | None => []
      end
  end.



End Re.

(** [st'] is further on in the same text than [st]. *)
Definition extends (st st' : Re.mstate) : Prop :=
  (Re.pos st <= Re.pos st')%nat /\
  (Re.pos st' + length (Re.rest st') = Re.pos st + length (Re.rest st))%nat.

(** Matches that follow one another from [from] on in a text of [n]
    characters. *)
Fixpoint in_order (from n : nat) (l : list Re.rmatch) : Prop :=
  match l with
  | [] => True
  | x :: l' =>
      (from <= Re.m_start x)%nat /\ (Re.m_start x <= Re.m_end x)%nat /\ (Re.m_end x <= n)%nat /\
      in_order (Re.m_end x) n l'
  end.

(** ** StructureIndex: [_parse_master_document] *)

Module StructureIndex.

Import Re.

Definition asterisk : re := Chr (is_char "*"%char).
Definition ws : re := Chr isspace.
Definition digits : re := Plus true (Chr isdigit).

(** The separator after the number: optional blanks, a colon or a dash,
    optional blanks; or else one blank or more. *)
Definition separator : re :=
  Alt (seqs [Star true ws; Chr (one_of (s ":-")); Star true ws]) (Plus true ws).

(** The text a description stops before: up to two asterisks, the word
    Chapter, blanks, a number, the separator. *)
Definition heading_start : re :=
  seqs [Opt asterisk; Opt asterisk; Lit (s "Chapter"); Plus true ws; digits;
        separator].

(** An optional range: blanks, a parenthesis, characters other than the
    closing parenthesis, the closing parenthesis. *)
Definition range_part : re :=
  seqs [Star true ws; Chr (is_char "("%char);
        Plus true (Chr (none_of (s ")"))); Chr (is_char ")"%char)].

(** Two newlines, or one, or the end of the text. *)
Definition line_end : re := Alt (Lit [NL; NL]) (Alt (Lit [NL]) Eos).

(** One character of a description: any, where no heading starts. *)
Definition description_char : re := seqs [NotAhead heading_start; Chr any].

(** [chapter_pattern], item by item: up to two asterisks; Chapter; blanks;
    group 1, the number; the separator; group 2, the title, as few
    characters other than an opening parenthesis as will do; optionally
    the range; up to two asterisks; the line end; group 3, the description,
    as many characters as do not begin a heading. *)
Definition chapter_pattern : re :=
  seqs [Opt asterisk; Opt asterisk; Lit (s "Chapter"); Plus true ws;
        Group 1 digits;
        separator;
        Group 2 (Star false (Chr (none_of (s "("))));
        Opt range_part;
        seqs [Opt asterisk; Opt asterisk];
        line_end;
        Group 3 (Star true description_char)].

(** [simple_pattern]: Chapter, blanks, group 1 the number, the rest of the
    line and its newline. *)
Definition simple_pattern : re :=
  seqs [Lit (s "Chapter"); Plus true ws; Group 1 digits;
        Star true (Chr (none_of [NL])); Chr (is_char NL)].

(** The title of a fallback chapter: Chapter, blanks, a number, an optional
    colon or dash, optional blanks, group 1 the rest of the line. *)
Definition title_pattern : re :=
  seqs [Lit (s "Chapter"); Plus true ws; digits; Opt (Chr (one_of (s ":-")));
        Star true ws; Group 1 (Plus true (Chr (none_of [NL])))].

(** A chapter dictionary; [length_] is the key "length", which only the
    first pass sets. *)
Record chapter := {
  number : Z;
  title : str;
  description : str;
  start_pos : Z;
  end_pos : Z;
  text : str;
  length_ : option Z;
}.

Definition chapter_of_match (master_document : str) (x : rmatch) : chapter :=
  {| number := int_of_digits (group master_document x 1);
     title := strip (group master_document x 2);
     description := strip (group master_document x 3);
     start_pos := Z.of_nat (m_start x);
     end_pos := Z.of_nat (m_end x);
     text := group master_document x 0;
     length_ := Some (Z.of_nat (m_end x) - Z.of_nat (m_start x)) |}.

(** The first pass. *)
Definition primary_chapters (master_document : str) : list chapter :=
  sort_by number
    (map (chapter_of_match master_document) (finditer chapter_pattern master_document)).

(** [positions.sort()] on pairs of ints: by number, then by position. *)
Definition sort_positions (l : list (Z * Z)) : list (Z * Z) :=
  sort_by fst (sort_by snd l).

Definition fallback_chapter (master_document : str) (num pos end_pos : Z) : chapter :=
  let text := strip (slice master_document pos end_pos) in
  let title :=
    match search title_pattern text with
    | Some x => strip (group text x 1)
    | None => s "Unknown Chapter " ++ s (pretty num)
    end in
  let description :=
    match snd (split_first_line text) with
    | Some after => strip after
    | None => []
    end in
  {| number := num; title := title; description := description;
     start_pos := pos; end_pos := end_pos; text := text; length_ := None |}.

Fixpoint fallback_from (master_document : str) (positions : list (Z * Z)) : list chapter :=
  match positions with
  | [] => []
  | (num, pos) :: rest =>
      let end_pos :=
        match rest with
        | (_, next) :: _ => next
        | [] => len master_document
        end in
      fallback_chapter master_document num pos end_pos
        :: fallback_from master_document rest
  end.

(** The second pass, run when the first finds nothing. *)
Definition fallback_chapters (master_document : str) : list chapter :=
  let positions :=
    map (fun x => (int_of_digits (group master_document x 1), Z.of_nat (m_start x)))
        (finditer simple_pattern master_document) in
  fallback_from master_document (sort_positions positions).

Definition _parse_master_document (master_document : str) : list chapter :=
  match primary_chapters master_document with
  | [] => fallback_chapters master_document
  | chapters => chapters
  end.

(** What the claims look at in a chapter record. *)
Definition summary (c : chapter) : Z * str * str :=
  (number c, title c, description c).




(** *** Master documents in the format the prompts ask for

    A block is a heading line "Chapter k: Title (range)", a blank line and
    a description; a document is blocks separated by blank lines. *)
Record block := {
  b_number : str;
  b_title : str;
  b_range : str;
  b_description : str;
}.

Definition render_block (b : block) : str :=
  s "Chapter" ++ " "%char :: b_number b ++ ":"%char :: " "%char :: b_title b
    ++ " "%char :: "("%char :: b_range b ++ ")"%char :: NL :: NL :: b_description b.

Definition render_blocks (bs : list block) : str :=
  join [NL; NL] (map render_block bs).

(** Not empty, and no blank at either end. *)
Definition trimmed (x : str) : bool :=
  match x, last x with
  | c :: _, Some d => negb (isspace c) && negb (isspace d)
  | _, _ => false
  end.




End StructureIndex.

(** ** Orchestrator: the choice of path and the final trim ([process]) *)

Module Orchestrator.

Import Re.

Inductive path := ExpansionPath | ChapterAlignedPath | FixedSizePath.

(** [target_length / original_length if original_length > 0 else 1.0] *)
Definition scaling_factor (original_length target_length : Z) : PyFloat.float :=
  if 0 <? original_length
  then PyFloat.div (PyFloat.of_int target_length) (PyFloat.of_int original_length)
  else PyFloat.f1_0.

(** The branch of [_process_with_chapter_aligned_chunks] on the parse. *)
Definition chapter_aligned_or_fallback (master_document : str) : path :=
  match StructureIndex._parse_master_document master_document with
  | [] => FixedSizePath
  | _ => ChapterAlignedPath
  end.

(** "Choose processing approach based on scaling factor" *)
Definition process_path (scaling_factor : PyFloat.float)
    (use_chapter_aligned_chunking : bool) (master_document : str) : path :=
  if PyFloat.ltb PyFloat.f1_0 scaling_factor then ExpansionPath
  else if use_chapter_aligned_chunking
       then chapter_aligned_or_fallback master_document
       else FixedSizePath.

(** The chapter heading of the trim: at the start of a line, Chapter, one
    space, digits ([re.MULTILINE]). *)
Definition chapter_heading : re :=
  seqs [Bol; Lit (s "Chapter "); Plus true (Chr isdigit)].

(** The positions of the chapters: [start], [end], [size]. *)
Fixpoint chapter_spans (starts : list Z) (total : Z) : list (Z * Z * Z) :=
  match starts with
  | [] => []
  | start_pos :: rest =>
      let end_pos := match rest with next :: _ => next | [] => total end in
      (start_pos, end_pos, end_pos - start_pos) :: chapter_spans rest total
  end.

(** [while trimmed_length > max_acceptable_length and chapters_to_keep > 1] *)
Fixpoint chapters_to_keep (fuel : nat) (chapters : list (Z * Z * Z))
    (max_acceptable_length : Z) (keep : nat) (trimmed_length : Z) : nat :=
  match fuel with
  | O => keep
  | S fuel' =>
      if (max_acceptable_length <? trimmed_length) && (1 <? keep)%nat then
        let keep' := (keep - 1)%nat in
        let removed_chapter_size :=
          match chapters !! keep' with
          | Some (_, _, size) => size
          | None => 0
          end in
        chapters_to_keep fuel' chapters max_acceptable_length keep'
          (trimmed_length - removed_chapter_size)
      else keep
  end.

(** "FINAL LENGTH CHECK" *)
Definition final_trim (expected_length : Z) (processed_transcript : str) : str :=
  let processed_transcript_length := len processed_transcript in
  let max_acceptable_length := expected_length + 50000 in
  if max_acceptable_length <? processed_transcript_length then
    let chapter_matches := finditer chapter_heading processed_transcript in
    if (1 <? length chapter_matches)%nat then
      let chapters :=
        chapter_spans (map (fun x => Z.of_nat (m_start x)) chapter_matches)
          processed_transcript_length in
      let keep :=
        chapters_to_keep (length chapters) chapters max_acceptable_length
          (length chapters) processed_transcript_length in
      if (keep <? length chapters)%nat then
        match chapters !! keep with
        | Some (start_pos, _, _) => slice_to processed_transcript start_pos
        | None => processed_transcript
        end
      else processed_transcript
    else processed_transcript
  else processed_transcript.

End Orchestrator.

(** ** The generator adapter (litellm_processing.py) *)

Module Llm.

(** [os.environ] *)
Abbreviation environ := (gmap string string).

(** [os.environ.get(k)] is falsy: unset or empty. *)
Definition env_unset (env : environ) (k : string) : bool :=
  match env !! k with
  | None => true
  | Some v => String.eqb v ""
  end.

Definition openai_names : list str :=
  [s "gpt"; s "text-davinci"; s "babbage"; s "curie"; s "ada"; s "davinci"].
Definition anthropic_names : list str := [s "claude"; s "anthropic"].

(** [any(name in model.lower() for name in names)] *)
Definition any_in (names : list str) (model : str) : bool :=
  existsb (fun name => contains name (lower model)) names.

(** The provider and the key name [_check_api_key_for_model] settles on;
    [None] is the default case that returns without a check. *)
Definition provider_key (env : environ) (model : str) : option (string * string) :=
  if any_in openai_names model then Some ("openai", "OPENAI_API_KEY")%string
  else if contains (s "gemini") (lower model) then
    Some ("gemini",
          if env_unset env "GEMINI_API_KEY" then "GOOGLE_API_KEY"
          else "GEMINI_API_KEY")%string
  else if any_in anthropic_names model then
    Some ("anthropic", "ANTHROPIC_API_KEY")%string
  else if contains (s "deepseek") (lower model) then
    Some ("deepseek", "DEEPSEEK_API_KEY")%string
  else None.

Definition missing_key_message (key_name provider : string) (model : str) : str :=
  s "Missing " ++ s key_name ++ s " for " ++ s provider ++ s " model: " ++ model.

Definition _check_api_key_for_model (env : environ) (model : str) : result unit :=
  match provider_key env model with
  | None => Ok tt
  | Some (provider, key_name) =>
      if env_unset env key_name
      then Raise (ValueError (missing_key_message key_name provider model))
      else Ok tt
  end.

Definition _format_model_name (model : str) : str :=
  if contains (s "/") model then model
  else if any_in openai_names model then model
  else if contains (s "gemini") (lower model) then s "gemini/" ++ model
  else if any_in anthropic_names model then model
  else if contains (s "deepseek") (lower model) then s "deepseek/" ++ model
  else model.

Definition mock_text (formatted_model context : str) : str :=
  s "Mock processed text using " ++ formatted_model ++ s ": "
    ++ slice_to context 100 ++ s "...".

Section ProcessLlm.

(** The environment of the process, and the rest of [process_llm] after the
    mock-mode test: the provider round trip with its retries and fallback,
    an external collaborator. *)
Variable env : environ.
Variable provider_round_trip : str -> option str -> str -> result str.

Definition process_llm (context : str) (system_prompt : option str)
    (model : str) : result str :=
  _ ← _check_api_key_for_model env model;
  let formatted_model := _format_model_name model in
  if decide (env !! "MOCK_LLM_API"%string = Some "true"%string)
  then Ok (mock_text formatted_model context)
  else provider_round_trip formatted_model system_prompt context.

End ProcessLlm.

(** [ai_processor.process_text] of the [MagicMock] that [process] installs in
    mock mode: its configured return value. *)
Definition mock_process_text (text : str) : str :=
  s "This is a mock processed result.".

End Llm.

(** ** Python's [str.format], called with keyword arguments that are strings

    The parser is the one of CPython ([MarkupIterator_next] and
    [parse_field] of [unicode_format.h]): literal text with the escapes
    [{{] and [}}], and replacement fields [{name!conversion:spec}], met from
    left to right, each rendered before the next is parsed.  A field whose
    name is empty or a number asks for a positional argument, and there is
    none.  A field that is a name and nothing else is replaced by the
    argument of that name.  What Python does with a field that is more than
    a name -- the look-ups [.attr] and [[index]] on the argument, the
    conversion, the format spec -- is the parameter [render_field]. *)

Module PyFormat.

Inductive pstate :=
| Literal
| OpenBrace
| CloseBrace
| FieldName (field_name : str)
| Bracket (field_name : str)
| Bang (field_name : str)
| Conversion (field_name : str) (conversion : ascii)
| Spec (field_name : str) (conversion : option ascii) (format_spec : str)
       (bracket_count : nat) (needs_expanding : bool).

(** On a 64-bit build. *)
Definition PY_SSIZE_T_MAX : Z := 2 ^ 63 - 1.

(** [get_integer]: [Some] index for a run of digits, [None] for another
    text. *)
Fixpoint get_integer (x : str) (accumulator : Z) : result (option Z) :=
  match x with
  | [] => Ok (Some accumulator)
  | c :: x' =>
      if isdigit c then
        let digitval := digit_value c in
        if (PY_SSIZE_T_MAX - digitval) / 10 <? accumulator
        then Raise (ValueError (s "Too many decimal digits in format string"))
        else get_integer x' (accumulator * 10 + digitval)
      else Ok None
  end.

(** [field_name_split]: the part up to the first ['.'] or ['['], and the
    rest. *)
Fixpoint field_name_split (x : str) : str * str :=
  match x with
  | [] => ([], [])
  | c :: x' =>
      if Ascii.eqb c "."%char || Ascii.eqb c "["%char then ([], x)
      else let '(first, rest) := field_name_split x' in (c :: first, rest)
  end.

Fixpoint lookup (kwargs : list (str * str)) (key : str) : option str :=
  match kwargs with
  | [] => None
  | (k, v) :: kwargs' => if str_eqb k key then Some v else lookup kwargs' key
  end.

Section Format.

Variable render_field : str -> str -> option ascii -> result str -> result str.
Variable kwargs : list (str * str).

(** [output_markup]: the argument is looked up first.  A field that is more
    than a name goes to [render_field] with the argument, the look-ups, the
    conversion and the format spec; [expand] is the expansion of a format
    spec with fields of its own, and [render_field] gets its result, also
    when that is an exception, because Python meets it only after the
    look-ups and the conversion. *)
Definition output_markup (expand : str -> result str) (field_name : str)
    (conversion : option ascii) (format_spec : str) (needs_expanding : bool)
    : result str :=
  let '(first, rest) := field_name_split field_name in
  index ← (match first with [] => Ok (Some 0) | _ => get_integer first 0 end);
  match index with
  | Some _ => Raise IndexError
  | None =>
      match lookup kwargs first with
      | None => Raise (KeyError first)
      | Some value =>
          match rest, conversion, format_spec with
          | [], None, [] => Ok value
          | _, _, _ =>
              render_field value rest conversion
                (if needs_expanding then expand format_spec else Ok format_spec)
          end
      end
  end.

Fixpoint scan (expand : str -> result str) (x : str) (st : pstate) : result str :=
  let field_ends x' field_name conversion format_spec needs_expanding :=
    value ← output_markup expand field_name conversion format_spec needs_expanding;
    rest ← scan expand x' Literal;
    Ok (value ++ rest) in
  let in_field_name x' c field_name :=
    if Ascii.eqb c "{"%char
    then Raise (ValueError (s "unexpected '{' in field name"))
    else if Ascii.eqb c "["%char then scan expand x' (Bracket (field_name ++ [c]))
    else if Ascii.eqb c "}"%char then field_ends x' field_name None [] false
    else if Ascii.eqb c ":"%char then scan expand x' (Spec field_name None [] 1 false)
    else if Ascii.eqb c "!"%char then scan expand x' (Bang field_name)
    else scan expand x' (FieldName (field_name ++ [c])) in
  match x with
  | [] =>
      match st with
      | Literal => Ok []
      | OpenBrace => Raise (ValueError (s "Single '{' encountered in format string"))
      | CloseBrace => Raise (ValueError (s "Single '}' encountered in format string"))
      | FieldName _ | Bracket _ =>
          Raise (ValueError (s "expected '}' before end of string"))
      | Bang _ =>
          Raise (ValueError (s "end of string while looking for conversion specifier"))
      | Conversion _ _ | Spec _ _ _ _ _ =>
          Raise (ValueError (s "unmatched '{' in format spec"))
      end
  | c :: x' =>
      match st with
      | Literal =>
          if Ascii.eqb c "{"%char then scan expand x' OpenBrace
          else if Ascii.eqb c "}"%char then scan expand x' CloseBrace
          else rest ← scan expand x' Literal; Ok (c :: rest)
      | OpenBrace =>
          if Ascii.eqb c "{"%char then rest ← scan expand x' Literal; Ok (c :: rest)
          else in_field_name x' c []
      | CloseBrace =>
          if Ascii.eqb c "}"%char then rest ← scan expand x' Literal; Ok (c :: rest)
          else Raise (ValueError (s "Single '}' encountered in format string"))
      | FieldName field_name => in_field_name x' c field_name
      | Bracket field_name =>
          if Ascii.eqb c "]"%char then scan expand x' (FieldName (field_name ++ [c]))
          else scan expand x' (Bracket (field_name ++ [c]))
      | Bang field_name => scan expand x' (Conversion field_name c)
      | Conversion field_name conversion =>
          if Ascii.eqb c "}"%char then field_ends x' field_name (Some conversion) [] false
          else if Ascii.eqb c ":"%char
          then scan expand x' (Spec field_name (Some conversion) [] 1 false)
          else Raise (ValueError (s "expected ':' after conversion specifier"))
      | Spec field_name conversion format_spec bracket_count needs_expanding =>
          if Ascii.eqb c "{"%char
          then scan expand x'
                 (Spec field_name conversion (format_spec ++ [c]) (S bracket_count) true)
          else if Ascii.eqb c "}"%char then
            match bracket_count with
            | S (S n) =>
                scan expand x'
                  (Spec field_name conversion (format_spec ++ [c]) (S n) needs_expanding)
            | _ => field_ends x' field_name conversion format_spec needs_expanding
            end
          else scan expand x'
                 (Spec field_name conversion (format_spec ++ [c]) bracket_count
                    needs_expanding)
      end
  end.

(** [build_string] *)
Fixpoint build_string (recursion_depth : nat) (x : str) : result str :=
  match recursion_depth with
  | O => Raise (ValueError (s "Max string recursion exceeded"))
  | S depth => scan (build_string depth) x Literal
  end.

(** [template.format(name=value, ...)] *)
Definition format (template : str) : result str := build_string 2 template.

End Format.

(** [format(f, ".<digits>f")]: the decimal nearest to the value of the
    float, ties to even. *)
Definition round_half_even (n d : Z) : Z :=
  let q := n / d in
  let r := n mod d in
  match Z.compare (2 * r) d with
  | Lt => q
  | Gt => q + 1
  | Eq => if Z.even q then q else q + 1
  end.

Definition format_fixed (digits : nat) (f : PyFloat.float) : str :=
  let unit := 10 ^ Z.of_nat digits in
  let render (sign : bool) (scaled : Z) : str :=
    let fraction := s (pretty (scaled mod unit)) in
    (if sign then s "-" else []) ++ s (pretty (scaled / unit))
      ++ match digits with
         | O => []
         | _ => s "." ++ replicate (digits - length fraction) "0"%char ++ fraction
         end in
  match f with
  | S754_zero sign => render sign 0
  | S754_finite sign m e =>
      render sign
        (if 0 <=? e then Zpos m * unit * 2 ^ e
         else round_half_even (Zpos m * unit) (2 ^ (- e)))
  | S754_infinity sign => (if sign then s "-" else []) ++ s "inf"
  | S754_nan => s "nan"
  end.

End PyFormat.

(** ** custom_prompts.py *)

Module CustomPrompts.

(** [hay.find(needle)], when [needle in hay] *)
Fixpoint find (needle hay : str) : nat :=
  if starts_with needle hay then O
  else match hay with
       | [] => O
       | _ :: hay' => S (find needle hay')
       end.

(** The part of the master document about one chapter, or all of it. *)
Definition master_doc_extract (chapter_number : Z) (master_document : str) : str :=
  match master_document with
  | [] => []
  | _ =>
      let chapter_marker := s "## Chapter " ++ s (pretty chapter_number) ++ s ":" in
      let next_chapter_marker :=
        s "## Chapter " ++ s (pretty (chapter_number + 1)) ++ s ":" in
      let extract :=
        if contains chapter_marker master_document then
          let from_start := drop (find chapter_marker master_document) master_document in
          if contains next_chapter_marker from_start
          then strip (take (find next_chapter_marker from_start) from_start)
          else strip from_start
        else [] in
      match extract with
      | [] => master_document
      | _ => extract
      end
  end.

(** [create_master_document_for_expansion_prompt]: the template, with the
    fields [{role}], [{script_structure}], [{tone_style}],
    [{retention_flow}] and [{additional_instructions}] left for [format]. *)
Definition create_master_document_for_expansion_prompt (transcript_text : str)
    (target_length chapter_number : Z) (segment_text : str)
    (master_document : str) : result str :=
  (* [target_length / len(segment_text) if len(segment_text) > 0 else 0];
     the int [0] and the float [0.0] are formatted alike *)
  let expansion_ratio :=
    match (if 0 <? len segment_text
           then PyFloat.int_truediv target_length (len segment_text) else None) with
    | Some ratio => ratio
    | None => S754_zero false
    end in
  let min_target_length := target_length in
  max_target_length ← LengthPlanner.int_mul target_length PyFloat.f1_7;
  let master_doc_extract := master_doc_extract chapter_number master_document in
  Ok (s "
# CHAPTER EXPANSION DIRECTIVE

## MASTER DOCUMENT OUTLINE
"
    ++ (if bool_decide (master_doc_extract = [])
        then s "Create an engaging and detailed chapter based on the provided segment."
        else master_doc_extract)
    ++ s "

## YOUR ROLE
{role}

## LENGTH REQUIREMENT
Your output MUST be at least "
    ++ s (pretty target_length)
    ++ s " characters.

## CONTEXT & INPUT DETAILS
- ORIGINAL SEGMENT: "
    ++ s (pretty (len segment_text))
    ++ s " characters
- TARGET OUTPUT: "
    ++ s (pretty target_length)
    ++ s " characters
- EXPANSION FACTOR: "
    ++ PyFormat.format_fixed 2 expansion_ratio
    ++ s "x
- You are creating Chapter "
    ++ s (pretty chapter_number)
    ++ s " ONLY in this response

## REASONING ABOUT EXPANSION
This task requires significant expansion of the original text. Consider:
1. The original segment is "
    ++ s (pretty (len segment_text))
    ++ s " characters
2. The target output is "
    ++ s (pretty target_length)
    ++ s " characters
3. This means adding approximately "
    ++ s (pretty (target_length - len segment_text))
    ++ s " new characters
4. To achieve this, you must add substantial detail, examples, and descriptive content
5. Each topic from the master document should be thoroughly developed
6. You must maintain the core message while adding depth and richness

## YOUR TASK
1. Create "
    ++ [DQ]
    ++ s "Chapter "
    ++ s (pretty chapter_number)
    ++ [DQ]
    ++ s " followed by an engaging title
2. EXPAND this content into a SINGLE, comprehensive chapter following the master document outline
3. The chapter should be detailed, engaging, and exactly "
    ++ s (pretty target_length)
    ++ s " characters
4. Cover ALL topics mentioned in the master document outline for this chapter

## SCRIPT STRUCTURE
{script_structure}

## TONE & STYLE
{tone_style}

## RETENTION & FLOW TECHNIQUES
{retention_flow}

## ADDITIONAL INSTRUCTIONS
{additional_instructions}

## OUTPUT STRUCTURE
- Start with "
    ++ [DQ]
    ++ s "Chapter "
    ++ s (pretty chapter_number)
    ++ s ": [Your Engaging Title]"
    ++ [DQ]
    ++ s "
- Organize content into logical sections with clear topic progression
- Include an introduction that sets up the chapter themes
- Develop each topic with multiple paragraphs of detailed content
- Conclude by summarizing key points and transitioning to the next chapter


## FORMATTING INSTRUCTIONS - FOLLOW EXACTLY
1. Format each complete sentence as follows:
   - End each sentence with a period (.)
   - Follow EACH sentence with TWO newlines (a blank line between sentences)
   - Example:
     "
    ++ [DQ]
    ++ s "This is the first sentence."
    ++ [DQ]
    ++ s "

     "
    ++ [DQ]
    ++ s "This is the second sentence."
    ++ [DQ]
    ++ s "

     "
    ++ [DQ]
    ++ s "This is the third sentence."
    ++ [DQ]
    ++ s "

2. Do NOT start a new line for commas, only for completed sentences
3. Use plain text only - no special characters, markdown, or formatting symbols
4. Avoid using brackets [], parentheses (), or other special formatting
5. This will be put in a TTS model, so prioritize natural speech patterns
6. DO NOT MAKE USE OF * [] () or other special characters only a - , . are allowed
7. For SUBCHAPTERS within a chapter, format like - Subchapter Title -   DO not number them
    eg: - The Importance of Sleep -
8. Do not put more than 3 subchapters in a chapter



## OUTPUT LENGTH VERIFICATION PROCESS
1. Count the exact number of characters in your response
2. Verify it is between "
    ++ s (pretty min_target_length)
    ++ s " and "
    ++ s (pretty max_target_length)
    ++ s " characters OR at least "
    ++ s (pretty (min_target_length `mod` 4))
    ++ s " Words.
3. If too short: Add more descriptive details to reach target length
4. If too long: Trim less essential details while preserving core content


## IF YOU ARE HAVING TROUBLE WITH THE TARGET LENGTH:
1. Fill up the output with more sub topic related to the topics outlines in the master document
2. If you are still short, add more details 



CRITICAL: Your response will be REJECTED if not within "
    ++ s (pretty min_target_length)
    ++ s "-"
    ++ s (pretty max_target_length)
    ++ s " characters.
Current segment length: "
    ++ s (pretty (len segment_text))
    ++ s " characters
Target chapter length: EXACTLY "
    ++ s (pretty target_length)
    ++ s " characters
Required expansion factor: "
    ++ PyFormat.format_fixed 1 expansion_ratio
    ++ s "x

MOST CRITICAL:
- [Final reminder: GENERATE AT LEAST "
    ++ s (pretty target_length)
    ++ s " CHARACTERS but preferably more!!]
- DO NOT MAKE USE OF * [] () or other special characters only a - , . are allowed
- This transcript will be read out by a Text To Speech model SO WRITE LIKE SOMEONE WOULD SPEAK/READ.
").

End CustomPrompts.

(** ** ChunkRewriter and ExpansionRewriter: the per-chunk retry loops
    ([_process_with_chapter_aligned_chunks], [_process_chunks_with_continuity]
    and [_process_with_expansion_chapters], from "Determine continuation
    instructions" to the end of the loop body).

    What is left out: the artifact files (the model is the job with
    [output_dir] unset), the log lines, [time.sleep], and the wording of the
    prompts in the calls: a call is recorded with the per-call values that
    are interpolated into its prompt, the other values being constants of
    the job.  In the two chunk paths the prompt is
    [CONTINUATION_PROMPT.format(...)] of a constant template that is given
    every field it names as a keyword argument, so building it does not
    raise.  In the expansion path the template is built first, with the
    master document inside it, and [format] parses the result: that step is
    kept, with the exception it can raise. *)

Module Rewriter.

(** [retry_instruction] *)
Inductive retry_note :=
| NoNote
| TooShort (output_length percentage_diff length_diff : Z)
| TooLong (output_length percentage_diff length_diff : Z).

(** The corrections appended to the expansion prompt. *)
Inductive correction :=
| AddCharacters (output_length additional_length_needed min_target_length : Z)
| RemoveCharacters (output_length excess_length max_target_length : Z).

Inductive prompt :=
| ContinuationPrompt
    (segment_number total_segments
     target_chunk_length min_target_length max_target_length input_length : Z)
    (previous_context : option str) (retry_instruction : retry_note)
| SimplifiedFallbackPrompt
    (target_length min_target_length max_target_length : Z)
    (previous_length_issue_short : bool) (chapter_info : str)
| ExpansionPrompt
    (chapter_number target_length : Z) (corrections : list correction)
    (previous_chapter_ending : option str).

(** One call of [process_llm]: [context] and [system_prompt]. *)
Definition call : Type := str * prompt.

Definition is_fallback_call (c : call) : bool :=
  match snd c with
  | SimplifiedFallbackPrompt _ _ _ _ _ => true
  | _ => false
  end.

(** The state a job threads: the calls made so far, the outputs appended so
    far, and the locals of the loop body. *)
Record state := {
  log : list call;
  processed_chunks : list str;
  success : bool;
  retries : Z;
  processed_chunk : option str;
  retry_instruction : retry_note;
  prompt_corrections : list correction;
}.

Definition initial_state : state :=
  {| log := []; processed_chunks := []; success := false; retries := 0;
     processed_chunk := None; retry_instruction := NoNote;
     prompt_corrections := [] |}.

Definition M (A : Type) : Type := state -> result A * state.

#[global] Instance M_ret : MRet M := fun A a st => (Ok a, st).
#[global] Instance M_bind : MBind M := fun A B f m st =>
  match m st with
  | (Ok a, st') => f a st'
  | (Raise e, st') => (Raise e, st')
  end.

Definition lift {A} (r : result A) : M A := fun st => (r, st).
Definition get : M state := fun st => (Ok st, st).

(** [try: body except Exception: handler] *)
Definition try_except {A} (body : M A) (handler : M A) : M A := fun st =>
  match body st with
  | (Raise _, st') => handler st'
  | r => r
  end.

Definition set_success (b : bool) : M unit := fun st =>
  (Ok tt, {| log := log st; processed_chunks := processed_chunks st;
             success := b; retries := retries st;
             processed_chunk := processed_chunk st;
             retry_instruction := retry_instruction st;
             prompt_corrections := prompt_corrections st |}).

Definition set_retries (n : Z) : M unit := fun st =>
  (Ok tt, {| log := log st; processed_chunks := processed_chunks st;
             success := success st; retries := n;
             processed_chunk := processed_chunk st;
             retry_instruction := retry_instruction st;
             prompt_corrections := prompt_corrections st |}).

Definition set_processed_chunk (o : option str) : M unit := fun st =>
  (Ok tt, {| log := log st; processed_chunks := processed_chunks st;
             success := success st; retries := retries st;
             processed_chunk := o;
             retry_instruction := retry_instruction st;
             prompt_corrections := prompt_corrections st |}).

Definition set_retry_instruction (r : retry_note) : M unit := fun st =>
  (Ok tt, {| log := log st; processed_chunks := processed_chunks st;
             success := success st; retries := retries st;
             processed_chunk := processed_chunk st;
             retry_instruction := r;
             prompt_corrections := prompt_corrections st |}).

Definition set_prompt_corrections (l : list correction) : M unit := fun st =>
  (Ok tt, {| log := log st; processed_chunks := processed_chunks st;
             success := success st; retries := retries st;
             processed_chunk := processed_chunk st;
             retry_instruction := retry_instruction st;
             prompt_corrections := l |}).

(** [processed_chunks.append(x)] *)
Definition append_output (x : str) : M unit := fun st =>
  (Ok tt, {| log := log st; processed_chunks := processed_chunks st ++ [x];
             success := success st; retries := retries st;
             processed_chunk := processed_chunk st;
             retry_instruction := retry_instruction st;
             prompt_corrections := prompt_corrections st |}).

(** [retries += 1] *)
Definition incr_retries : M unit := fun st => set_retries (retries st + 1) st.

Definition failure_notice : str :=
  s "[Processing failed for this section. Original content preserved.]".

(** [f"[Processing failed ...]\n\n{chunk_text}"] *)
Definition preserved_original (chunk_text : str) : str :=
  failure_notice ++ [NL; NL] ++ chunk_text.

(** [int((length_diff / target_chunk_length) * 100)] *)
Definition percentage_diff (length_diff target_chunk_length : Z) : result Z :=
  q ← of_option ZeroDivisionError (PyFloat.int_truediv length_diff target_chunk_length);
  of_option OverflowError (PyFloat.to_int (PyFloat.mul q (PyFloat.of_int 100))).

(** custom_prompts.py, [create_simplified_fallback_prompt] *)
Definition create_simplified_fallback_prompt (target_length : Z)
    (scaling_factor : PyFloat.float) (previous_output_length : Z)
    (chapter_info : str) : result prompt :=
  '(min_target_length, max_target_length) ←
     LengthPlanner.target_range scaling_factor target_length;
  Ok (SimplifiedFallbackPrompt target_length min_target_length max_target_length
        (previous_output_length <? min_target_length) chapter_info).

(** A chunk as the loop body sees it once its text, its target and its band
    are known. *)
Record chunk := {
  chunk_text : str;
  target_chunk_length : Z;
  min_target_length : Z;
  max_target_length : Z;
  chapter_info : str;
}.

(** [config["ai"]]: the five texts that fill the fields of a prompt, each
    [""] when the key is absent. *)
Record prompt_components := {
  prompt_role : str;
  prompt_script_structure : str;
  prompt_tone_style : str;
  prompt_retention_flow : str;
  prompt_additional_instructions : str;
}.

Section Loops.

(** The job: the external generator, answering the [n]-th call of the job;
    [self.max_retries]; the global scaling factor; and, for the expansion
    path, Python's rendering of the fields that are more than a name, the
    master document and the prompt components of the configuration. *)
Variable generator : nat -> str -> prompt -> result str.
Variable max_retries : Z.
Variable scaling_factor : PyFloat.float.
Variable render_field : str -> str -> option ascii -> result str -> result str.
Variable master_document : str.
Variable components : prompt_components.

(** [process_llm(context=..., system_prompt=...)] *)
Definition process_llm (context : str) (system_prompt : prompt) : M str := fun st =>
  (generator (length (log st)) context system_prompt,
   {| log := log st ++ [(context, system_prompt)];
      processed_chunks := processed_chunks st;
      success := success st; retries := retries st;
      processed_chunk := processed_chunk st;
      retry_instruction := retry_instruction st;
      prompt_corrections := prompt_corrections st |}).

(** [while not success and retries < self.max_retries: body].  Every pass
    through a body below sets [success] or adds one to [retries], so
    [max_retries] passes are all the loop can make. *)
Fixpoint while_retrying (fuel : nat) (body : M unit) : M unit :=
  match fuel with
  | O => mret tt
  | S fuel' =>
      st ← get;
      if negb (success st) && (retries st <? max_retries)
      then body;; while_retrying fuel' body
      else mret tt
  end.

(** [processed_chunks[-1][-1000:]] for every chunk but the first *)
Definition previous_context (i : Z) : M (option str) :=
  if i =? 0 then mret None
  else
    st ← get;
    match last (processed_chunks st) with
    | None => lift (Raise IndexError)
    | Some previous => mret (Some (slice_from previous (-1000)))
    end.

Definition reset_locals : M unit :=
  set_success false;; set_retries 0;; set_processed_chunk None;;
  set_retry_instruction NoNote.

(** *** The chapter-aligned path *)

Definition aligned_attempt (c : chunk) (i total_chunks : Z) (is_last_chunk : bool)
    (previous : option str) : M unit :=
  try_except
    (st ← get;
     out ← process_llm (chunk_text c)
             (ContinuationPrompt (i + 1) total_chunks (target_chunk_length c)
                (min_target_length c) (max_target_length c) (len (chunk_text c))
                previous (retry_instruction st));
     set_processed_chunk (Some out);;
     let output_length := len out in
     if output_length <? min_target_length c then
       let length_diff := min_target_length c - output_length in
       pct ← lift (percentage_diff length_diff (target_chunk_length c));
       set_retry_instruction (TooShort output_length pct length_diff);;
       incr_retries
     else if negb is_last_chunk && (max_target_length c <? output_length) then
       let length_diff := output_length - max_target_length c in
       pct ← lift (percentage_diff length_diff (target_chunk_length c));
       set_retry_instruction (TooLong output_length pct length_diff);;
       incr_retries
     else
       set_success true;;
       append_output out)
    incr_retries.

Definition aligned_fallback (c : chunk) : M unit :=
  try_except
    (st ← get;
     simple_prompt ← lift (create_simplified_fallback_prompt (target_chunk_length c)
                            scaling_factor
                            (match processed_chunk st with
                             | Some x => len x
                             | None => 0
                             end)
                            (chapter_info c));
     out ← process_llm (chunk_text c) simple_prompt;
     set_processed_chunk (Some out);;
     append_output out)
    (let out := preserved_original (chunk_text c) in
     set_processed_chunk (Some out);;
     append_output out).

(** [self._create_chapter_instructions(chunk)]: [ChunkedProcessor] defines no
    method of that name, has no base class and no [__getattr__], so the
    attribute look-up raises. *)
Definition _create_chapter_instructions (c : chunk) : M str :=
  lift (Raise (AttributeError (s "_create_chapter_instructions"))).

Definition aligned_chunk (c : chunk) (i total_chunks : Z) : M unit :=
  let is_last_chunk := i =? total_chunks - 1 in
  previous ← previous_context i;
  chapter_instructions ← _create_chapter_instructions c;
  reset_locals;;
  while_retrying (Z.to_nat max_retries)
    (aligned_attempt c i total_chunks is_last_chunk previous);;
  st ← get;
  if negb (success st) then aligned_fallback c else mret tt.

(** [for i, chunk in enumerate(chunks)] *)
Fixpoint for_each (body : chunk -> Z -> M unit) (chunks : list chunk) (i : Z) : M unit :=
  match chunks with
  | [] => mret tt
  | c :: rest => body c i;; for_each body rest (i + 1)
  end.

Definition aligned_chunks (chunks : list chunk) : M unit :=
  for_each (fun c i => aligned_chunk c i (len_list chunks)) chunks 0.

(** *** The fixed-size path *)

Definition fixed_attempt (c : chunk) (i total_chunks : Z) (is_last_chunk : bool)
    (previous : option str) : M unit :=
  try_except
    (out ← process_llm (chunk_text c)
             (ContinuationPrompt (i + 1) total_chunks (target_chunk_length c)
                (min_target_length c) (max_target_length c) (len (chunk_text c))
                previous NoNote);
     set_processed_chunk (Some out);;
     let output_length := len out in
     (* expected_min_length, computed and not used *)
     _ ← lift (LengthPlanner.int_mul (len (chunk_text c)) PyFloat.f0_8);
     if output_length <? min_target_length c then incr_retries
     else if negb is_last_chunk && (max_target_length c <? output_length)
     then incr_retries
     else
       set_success true;;
       append_output out)
    incr_retries.

Definition fixed_fallback (c : chunk) : M unit :=
  try_except
    (simple_prompt ← lift (create_simplified_fallback_prompt (target_chunk_length c)
                            scaling_factor 0 (s "this section"));
     out ← process_llm (chunk_text c) simple_prompt;
     set_processed_chunk (Some out);;
     append_output out)
    (let out := preserved_original (chunk_text c) in
     set_processed_chunk (Some out);;
     append_output out).

Definition fixed_chunk (c : chunk) (i total_chunks : Z) : M unit :=
  let is_last_chunk := i =? total_chunks - 1 in
  previous ← previous_context i;
  reset_locals;;
  while_retrying (Z.to_nat max_retries)
    (fixed_attempt c i total_chunks is_last_chunk previous);;
  st ← get;
  if negb (success st) then fixed_fallback c else mret tt.

Definition fixed_chunks (chunks : list chunk) : M unit :=
  for_each (fun c i => fixed_chunk c i (len_list chunks)) chunks 0.

(** *** The expansion path *)

(** [previous_chapter[-400:]] when there is a previous chapter *)
Definition previous_chapter_ending : M (option str) :=
  st ← get;
  match last (processed_chunks st) with
  | Some (a :: previous) => mret (Some (slice_from (a :: previous) (-400)))
  | _ => mret None
  end.

Definition expansion_attempt (segment_text : str) (chapter_num : Z)
    (previous : option str) : M unit :=
  try_except
    (st ← get;
     new_chapter_text ← process_llm segment_text
        (ExpansionPrompt chapter_num Expansion.max_chapter_size
           (prompt_corrections st) previous);
     set_processed_chunk (Some new_chapter_text);;
     let output_length := len new_chapter_text in
     min_target_length ← lift (LengthPlanner.int_mul Expansion.max_chapter_size PyFloat.f0_7);
     max_target_length ← lift (LengthPlanner.int_mul Expansion.max_chapter_size PyFloat.f1_7);
     st ← get;
     if output_length <? min_target_length then
       set_prompt_corrections
         (prompt_corrections st ++
          [AddCharacters output_length (min_target_length - output_length)
             min_target_length]);;
       incr_retries
     else if max_target_length <? output_length then
       set_prompt_corrections
         (prompt_corrections st ++
          [RemoveCharacters output_length (output_length - max_target_length)
             max_target_length]);;
       incr_retries
     else set_success true)
    incr_retries.

(** [f"Chapter {chapter_num}\n\n[Unable to generate content for this
    chapter]\n\n{segment['text']}"] *)
Definition placeholder (chapter_num : Z) (segment_text : str) : str :=
  s "Chapter " ++ s (pretty chapter_num) ++ [NL; NL]
    ++ s "[Unable to generate content for this chapter]" ++ [NL; NL]
    ++ segment_text.

(** [create_master_document_for_expansion_prompt(...).format(role=..., ...)]:
    the text of the prompt of a segment, before the ending of the previous
    chapter and the corrections are appended to it. *)
Definition expansion_prompt (transcript_text : str) (g : Expansion.segment)
    : result str :=
  template ← CustomPrompts.create_master_document_for_expansion_prompt
               transcript_text Expansion.max_chapter_size (Expansion.chapter_num g)
               (Expansion.text g) master_document;
  PyFormat.format render_field
    [(s "role", prompt_role components);
     (s "script_structure", prompt_script_structure components);
     (s "tone_style", prompt_tone_style components);
     (s "retention_flow", prompt_retention_flow components);
     (s "additional_instructions", prompt_additional_instructions components)]
    template.

(** The body of the loop over the segments: the prompt is built outside any
    [try].  [is_last] is computed by the source and only recorded in the
    chunk information. *)
Definition expansion_segment (transcript_text : str) (g : Expansion.segment)
    (is_last : bool) : M unit :=
  prompt ← lift (expansion_prompt transcript_text g);
  previous ← previous_chapter_ending;
  reset_locals;;
  set_prompt_corrections [];;
  while_retrying (Z.to_nat max_retries)
    (expansion_attempt (Expansion.text g) (Expansion.chapter_num g) previous);;
  st ← get;
  let chapter_text :=
    match processed_chunk st with
    | Some (a :: x) => a :: x
    | _ => placeholder (Expansion.chapter_num g) (Expansion.text g)
    end in
  append_output chapter_text.

Fixpoint expansion_segments (transcript_text : str) (l : list Expansion.segment)
    (i total : Z) : M unit :=
  match l with
  | [] => mret tt
  | g :: rest =>
      expansion_segment transcript_text g (i =? total - 1);;
      expansion_segments transcript_text rest (i + 1) total
  end.

Definition expansion_job (transcript_text : str) (target_length : Z) : M unit :=
  segments ← lift (Expansion.segments transcript_text target_length);
  expansion_segments transcript_text segments 0 (len_list segments).

(** *** Vocabulary for the outcomes of a chunk *)

(** The length test an attempt applies to an answer. *)
Definition acceptable (c : chunk) (is_last_chunk : bool) (out : str) : bool :=
  negb (len out <? min_target_length c)
  && negb (negb is_last_chunk && (max_target_length c <? len out)).

(** The attempt that gets answer [r] does not set [success]. *)
Definition attempt_fails (c : chunk) (is_last_chunk : bool) (r : result str) : Prop :=
  match r with
  | Ok out => acceptable c is_last_chunk out = false
  | Raise _ => True
  end.

(** A call with the full prompt for chunk [c], whatever its retry note. *)
Definition is_attempt_on (c : chunk) (a : call) : Prop :=
  exists n total previous note,
    a = (chunk_text c,
         ContinuationPrompt n total (target_chunk_length c) (min_target_length c)
           (max_target_length c) (len (chunk_text c)) previous note).

(** The calls [calls], made from call number [base] on, all fail on [c]. *)
Fixpoint all_fail (c : chunk) (is_last_chunk : bool) (base : nat)
    (calls : list call) : Prop :=
  match calls with
  | [] => True
  | a :: rest =>
      attempt_fails c is_last_chunk (generator base (fst a) (snd a))
      /\ all_fail c is_last_chunk (S base) rest
  end.

(** From [st] to [st'], chunk [c] was given some failed attempts and one
    final call, and exactly one output was appended: either the final call
    is an attempt whose answer passes the length test, made before the
    retries ran out; or the retries ran out and the final call is the one
    simplified-fallback generation, with the same target length, whose
    answer is the output unless it raises, in which case the output is the
    notice, a blank line and the source text of the chunk. *)
Definition chunk_outcome (c : chunk) (is_last_chunk : bool) (st st' : state) : Prop :=
  exists (attempts : list call) (final : call) (out : str),
    log st' = log st ++ attempts ++ [final] /\
    processed_chunks st' = processed_chunks st ++ [out] /\
    Forall (is_attempt_on c) attempts /\
    all_fail c is_last_chunk (length (log st)) attempts /\
    let r := generator (length (log st) + length attempts)%nat (fst final) (snd final) in
    ((Z.of_nat (length attempts) < max_retries /\
      is_attempt_on c final /\
      r = Ok out /\ acceptable c is_last_chunk out = true)
     \/
     (Z.of_nat (length attempts) = Z.max 0 max_retries /\
      (exists mn mx issue info,
         final = (chunk_text c,
                  SimplifiedFallbackPrompt (target_chunk_length c) mn mx issue info)) /\
      (r = Ok out \/
       (exists e, r = Raise e) /\
       out = s "[Processing failed for this section. Original content preserved.]"
               ++ [NL; NL] ++ chunk_text c))).

(** What one pass through the body of a retry loop does, in terms of the
    answer it gets. *)
Definition attempt_spec (c : chunk) (is_last : bool) (body : M unit) : Prop :=
  forall st, exists a,
    is_attempt_on c a /\
    let r := generator (length (log st)) (fst a) (snd a) in
    (attempt_fails c is_last r ->
     exists st', body st = (Ok tt, st') /\
       log st' = log st ++ [a] /\
       processed_chunks st' = processed_chunks st /\
       success st' = success st /\ retries st' = retries st + 1) /\
    (forall out, r = Ok out -> acceptable c is_last out = true ->
     exists st', body st = (Ok tt, st') /\
       log st' = log st ++ [a] /\
       processed_chunks st' = processed_chunks st ++ [out] /\
       success st' = true).

(** The fallback: one simplified call, and one output whatever it answers. *)
Definition fallback_spec (c : chunk) (fallback : M unit) : Prop :=
  forall st, exists final st' out,
    (exists mn mx issue info,
       final = (chunk_text c,
                SimplifiedFallbackPrompt (target_chunk_length c) mn mx issue info)) /\
    fallback st = (Ok tt, st') /\
    log st' = log st ++ [final] /\
    processed_chunks st' = processed_chunks st ++ [out] /\
    let r := generator (length (log st)) (fst final) (snd final) in
    (r = Ok out \/
     (exists e, r = Raise e) /\
     out = s "[Processing failed for this section. Original content preserved.]"
             ++ [NL; NL] ++ chunk_text c).

(** The outcomes of the chunks of a job, in order, from chunk number [i]. *)
Fixpoint job_outcome (chunks : list chunk) (i total_chunks : Z) (st st' : state) : Prop :=
  match chunks with
  | [] => st' = st
  | c :: rest =>
      exists st1,
        chunk_outcome c (i =? total_chunks - 1) st st1 /\
        job_outcome rest (i + 1) total_chunks st1 st'
  end.

End Loops.

End Rewriter.

(** ** Segmenter (segmenter.py)

    [TranscriptSegmenter]: the configuration read in [__init__], and the
    methods [segment_transcript] goes through.  A segment is a [str]; the
    paragraphs are a Python list, indexed from 0, so an index is a [nat]. *)

Module Segmenter.
Import Re.

Record config := {
  target_segment_size : Z;
  min_segment_size : Z;
  max_segment_size : Z;
  overlap_size : Z;
  speaker_change_weight : Z;
  paragraph_break_weight : Z;
  sentence_break_weight : Z;
  topic_change_weight : Z;
}.

(** The values [__init__] falls back on. *)
Definition default_config : config :=
  {| target_segment_size := 20000; min_segment_size := 17000;
     max_segment_size := 23000; overlap_size := 1000;
     speaker_change_weight := 5; paragraph_break_weight := 3;
     sentence_break_weight := 2; topic_change_weight := 4 |}.

Definition blank_line : str := [NL; NL].

(** [re.split(r, text)] for a pattern without groups: the texts between the
    matches of [finditer]. *)
Fixpoint split_at (text : str) (from : nat) (l : list rmatch) : list str :=
  match l with
  | [] => [drop from text]
  | x :: l' => take (m_start x - from) (drop from text) :: split_at text (m_end x) l'
  end.

Definition re_split (r : re) (text : str) : list str :=
  split_at text 0 (finditer r text).

(** A newline, blanks, a newline. *)
Definition paragraph_break : re :=
  seqs [Chr (is_char NL); Star true (Chr isspace); Chr (is_char NL)].

Definition truthy (x : str) : bool :=
  match x with
  | [] => false
  | _ => true
  end.

Definition _split_into_paragraphs (text : str) : list str :=
  map strip (filter (fun p => truthy (strip p)) (re_split paragraph_break text)).

(** *** Boundaries *)

Definition is_A_Z (c : ascii) : bool :=
  let n := nat_of_ascii c in (65 <=? n)%nat && (n <=? 90)%nat.

Definition is_a_z (c : ascii) : bool :=
  let n := nat_of_ascii c in (97 <=? n)%nat && (n <=? 122)%nat.

(** Start of the text, a capital, small letters, blanks, a colon. *)
Definition speaker_pattern : re :=
  seqs [Bol; Chr is_A_Z; Star true (Chr is_a_z); Star true (Chr isspace);
        Chr (is_char ":"%char)].

Definition _is_speaker_change (prev_paragraph curr_paragraph : str) : bool :=
  match match_ speaker_pattern curr_paragraph with
  | Some curr_speaker_match =>
      match match_ speaker_pattern prev_paragraph with
      | Some prev_speaker_match =>
          negb (bool_decide (group prev_paragraph prev_speaker_match 0
                             = group curr_paragraph curr_speaker_match 0))
      | None => true
      end
  | None => false
  end.

Definition topic_indicators : list str :=
  [s "next"; s "now"; s "another"; s "moving on"; s "let's talk about";
   s "turning to"; s "regarding"; s "on another note"; s "speaking of";
   s "in terms of"; s "firstly"; s "secondly"; s "thirdly"; s "finally";
   s "to begin with"; s "lastly"; s "in conclusion"; s "to summarize"].

(** A literal under [re.IGNORECASE]; the literals above are in lower
    case. *)
Fixpoint lit_ignorecase (w : str) : re :=
  match w with
  | [] => Eps
  | c :: w' => Seq (Chr (fun d => Ascii.eqb (lower_char d) c)) (lit_ignorecase w')
  end.

(** The phrase between two word boundaries. *)
Definition indicator (w : str) : re := seqs [WordB; lit_ignorecase w; WordB].

Definition _has_topic_change_indicators (prev_paragraph curr_paragraph : str) : bool :=
  existsb
    (fun w => match search (indicator w) (slice_to curr_paragraph 50) with
              | Some _ => true
              | None => false
              end)
    topic_indicators.

Record boundary := {
  index : nat;
  position : Z;
  score : Z;
}.

Definition boundary_score (cfg : config) (prev_paragraph paragraph : str) : Z :=
  (if _is_speaker_change prev_paragraph paragraph then speaker_change_weight cfg else 0)
  + paragraph_break_weight cfg
  + (if _has_topic_change_indicators prev_paragraph paragraph
     then topic_change_weight cfg else 0).

(** The body of the loop of [_identify_boundaries] from paragraph [i] on;
    [cumulative_length] is its value before the paragraph is added. *)
Fixpoint boundaries_from (cfg : config) (i : nat) (cumulative_length : Z)
    (prev_paragraph : str) (paragraphs : list str) : list boundary :=
  match paragraphs with
  | [] => []
  | paragraph :: rest =>
      let paragraph_length := len paragraph in
      let cumulative_length := cumulative_length + paragraph_length in
      {| index := i;
         position := cumulative_length - paragraph_length;
         score := boundary_score cfg prev_paragraph paragraph |}
      :: boundaries_from cfg (S i) cumulative_length paragraph rest
  end.

Definition _identify_boundaries (cfg : config) (paragraphs : list str) : list boundary :=
  match paragraphs with
  | [] => []
  | first :: rest => boundaries_from cfg 1 (len first) first rest
  end.

(** *** Segments *)

Definition total_length (paragraphs : list str) : Z :=
  foldr (fun p acc => len p + acc) 0 paragraphs.

(** [max(1, round(total_length / target_segment_size))] *)
Definition ideal_num_segments (cfg : config) (paragraphs : list str) : result Z :=
  q ← of_option ZeroDivisionError
        (PyFloat.int_truediv (total_length paragraphs) (target_segment_size cfg));
  r ← of_option OverflowError (PyFloat.round q);
  Ok (Z.max 1 r).

(** The boundaries the segments are cut at: the [ideal_num_segments - 1]
    best by score (the sort is stable, also with [reverse=True]), in the
    order of their position, and the end of the text. *)
Definition selected_boundaries (paragraphs : list str) (boundaries : list boundary)
    (ideal_num_segments : Z) : list boundary :=
  let sorted_boundaries := sort_by (fun b => - score b) boundaries in
  let top_boundaries := take (Z.to_nat (ideal_num_segments - 1)) sorted_boundaries in
  sort_by position top_boundaries
    ++ [{| index := length paragraphs; position := total_length paragraphs; score := 0 |}].

(** The loop over the selected boundaries. *)
Fixpoint collect (cfg : config) (paragraphs : list str) (start_idx : nat)
    (segments : list str) (selected : list boundary) : list str :=
  match selected with
  | [] => segments
  | b :: selected' =>
      let end_idx := index b in
      let segment_paragraphs := take (end_idx - start_idx) (drop start_idx paragraphs) in
      let segment := join blank_line segment_paragraphs in
      if (min_segment_size cfg <=? len segment) || (start_idx =? 0)%nat
      then collect cfg paragraphs end_idx (segments ++ [segment]) selected'
      else collect cfg paragraphs start_idx segments selected'
  end.

(** A last segment below the minimum is merged with the one before. *)
Definition merge_last (cfg : config) (segments : list str) : list str :=
  match rev segments with
  | last_segment :: previous :: before =>
      if len last_segment <? min_segment_size cfg
      then rev before ++ [previous ++ blank_line ++ last_segment]
      else segments
  | _ => segments
  end.

(** [segments] as it stands before the check against the maximum. *)
Definition grouped_segments (cfg : config) (paragraphs : list str)
    (boundaries : list boundary) (ideal_num_segments : Z) : list str :=
  merge_last cfg
    (collect cfg paragraphs 0 [] (selected_boundaries paragraphs boundaries ideal_num_segments)).

(** *** Long segments *)

Definition sentence_end : re :=
  seqs [Chr (one_of (s ".!?")); Plus true (Chr isspace)].

(** [min(l, key=key)]: the first of the least. *)
Fixpoint min_by {A} (key : A -> Z) (x : A) (l : list A) : A :=
  match l with
  | [] => x
  | y :: l' => min_by key (if key y <? key x then y else x) l'
  end.

Definition _find_sentence_break (text : str) (target_position : Z) : Z :=
  let window_start := Z.max 0 (target_position - 1000) in
  let window_end := Z.min (len text) (target_position + 1000) in
  let search_text := slice text window_start window_end in
  match finditer sentence_end search_text with
  | [] => target_position
  | x :: l =>
      let closest_break :=
        min_by (fun x => Z.abs (Z.of_nat (m_end x) - (target_position - window_start))) x l in
      window_start + Z.of_nat (m_end closest_break)
  end.

(** [range(0, n, step)] for a positive step. *)
Fixpoint range_from (fuel i n step : nat) : list nat :=
  match fuel with
  | O => []
  | S fuel' => if (i <? n)%nat then i :: range_from fuel' (i + step) n step else []
  end.

Section SplitLong.
Variable cfg : config.
Variable recurse : str -> result (list str).

(** The loop of [_split_long_segment]; it ends at the first group that is
    cut at a sentence break. *)
Fixpoint sub_segments_loop (paragraphs : list str) (paragraphs_per_segment : nat)
    (sub_segments : list str) (indices : list nat) : result (list str) :=
  match indices with
  | [] => Ok sub_segments
  | i :: indices' =>
      let sub_paragraphs := take paragraphs_per_segment (drop i paragraphs) in
      let sub_segment := join blank_line sub_paragraphs in
      if (i + paragraphs_per_segment <? length paragraphs)%nat
         && (max_segment_size cfg <? len sub_segment)
      then
        let break_point := _find_sentence_break sub_segment (target_segment_size cfg) in
        let first_part := slice_to sub_segment break_point in
        let remaining := slice_from sub_segment break_point in
        remaining_segments ← recurse remaining;
        Ok (sub_segments ++ [first_part] ++ remaining_segments)
      else sub_segments_loop paragraphs paragraphs_per_segment
             (sub_segments ++ [sub_segment]) indices'
  end.
End SplitLong.

(** [_split_long_segment]; Python's recursion limit is [fuel]. *)
Fixpoint split_long_segment (fuel : nat) (cfg : config) (segment : str)
    : result (list str) :=
  match fuel with
  | O => Raise RecursionError
  | S fuel' =>
      if len segment <=? max_segment_size cfg then Ok [segment]
      else
        let paragraphs := _split_into_paragraphs segment in
        q ← of_option ZeroDivisionError
              (PyFloat.int_truediv (len segment) (target_segment_size cfg));
        c ← of_option OverflowError (PyFloat.ceil q);
        let segment_count := Z.max 2 c in
        let paragraphs_per_segment :=
          Z.to_nat (Z.of_nat (length paragraphs) / segment_count) in
        if (paragraphs_per_segment =? 0)%nat
        then Raise (ValueError (s "range() arg 3 must not be zero"))
        else
          sub_segments_loop cfg (split_long_segment fuel' cfg)
            paragraphs paragraphs_per_segment []
            (range_from (length paragraphs) 0 (length paragraphs) paragraphs_per_segment)
  end.

(** Each recursive call is on a shorter text, so one more than the length
    is fuel enough. *)
Definition _split_long_segment (cfg : config) (segment : str) : result (list str) :=
  split_long_segment (S (length segment)) cfg segment.

Fixpoint final_segments (cfg : config) (segments : list str) : result (list str) :=
  match segments with
  | [] => Ok []
  | segment :: segments' =>
      sub_segments ←
        (if max_segment_size cfg <? len segment
         then _split_long_segment cfg segment
         else Ok [segment]);
      rest ← final_segments cfg segments';
      Ok (sub_segments ++ rest)
  end.

Definition _create_segments (cfg : config) (paragraphs : list str)
    (boundaries : list boundary) : result (list str) :=
  ideal ← ideal_num_segments cfg paragraphs;
  if ideal =? 1 then Ok [join blank_line paragraphs]
  else final_segments cfg (grouped_segments cfg paragraphs boundaries ideal).

Definition segment_transcript (cfg : config) (transcript_text : str) : result (list str) :=
  if len transcript_text <=? target_segment_size cfg then Ok [transcript_text]
  else
    let paragraphs := _split_into_paragraphs transcript_text in
    let boundaries := _identify_boundaries cfg paragraphs in
    _create_segments cfg paragraphs boundaries.

(** One boundary lies before another. *)
Definition before (b b' : boundary) : Prop :=
  (index b < index b')%nat /\ position b < position b'.

(** A list of texts is made of runs of [paragraphs], taken in order from
    the first on. *)
Definition paragraph_runs (paragraphs : list str) (segments : list str) : Prop :=
  exists (runs : list (list str)) (k : nat),
    segments = map (join blank_line) runs /\ concat runs = take k paragraphs.

End Segmenter.

(** ** ChunkedProcessor: the chunks of the fixed-size and of the
    chapter-aligned path

    [range(start, stop, step)] as a list; the length is the one CPython
    computes. *)
Definition py_range (start stop step : Z) : result (list Z) :=
  if step =? 0 then Raise (ValueError (s "range() arg 3 must not be zero"))
  else
    let n :=
      if 0 <? step then (stop - start + step - 1) / step
      else (start - stop - step - 1) / (- step) in
    Ok (map (fun k => start + step * Z.of_nat k) (seq 0 (Z.to_nat n))).

Module Chunking.

(** "Split into processing chunks" in [_process_chunks_with_continuity], and
    the same loop in [_create_master_document]. *)
Definition fixed_size_chunks (chunk_size : Z) (transcript_text : str) : result (list str) :=
  starts ← py_range 0 (len transcript_text) chunk_size;
  Ok (map (fun i =>
             let end_idx := Z.min (i + chunk_size) (len transcript_text) in
             slice transcript_text i end_idx)
          starts).

(** A chunk dictionary of [_create_chapter_aligned_chunks]. *)
Record chunk := {
  chapter_numbers : list Z;
  start_char : Z;
  end_char : Z;
  chapters : list StructureIndex.chapter;
}.

Definition target_chapter_size : Z := 15000.

Definition empty_chunk : chunk :=
  {| chapter_numbers := []; start_char := 0; end_char := 0; chapters := [] |}.

(** A new chunk with this chapter. *)
Definition new_chunk (chapter : StructureIndex.chapter) : chunk :=
  {| chapter_numbers := [StructureIndex.number chapter]; start_char := 0; end_char := 0;
     chapters := [chapter] |}.

(** [current_chunk["chapter_numbers"].append(chapter_num)] and
    [current_chunk["chapters"].append(chapter)] *)
Definition add_chapter (current_chunk : chunk) (chapter : StructureIndex.chapter) : chunk :=
  {| chapter_numbers := chapter_numbers current_chunk ++ [StructureIndex.number chapter];
     start_char := start_char current_chunk; end_char := end_char current_chunk;
     chapters := chapters current_chunk ++ [chapter] |}.

(** [if transcript_length:] -- neither [None] nor zero. *)
Definition truthy_length (transcript_length : option Z) : option Z :=
  match transcript_length with
  | Some l => if l =? 0 then None else Some l
  | None => None
  end.

(** Does the current chunk close before this chapter?  [total] is
    [len(chapters)]. *)
Definition closes (max_chunk_size : Z) (transcript_length : option Z) (total : Z)
    (current_chunk : chunk) : bool :=
  let count := Z.of_nat (length (chapter_numbers current_chunk)) in
  match truthy_length transcript_length with
  | Some l =>
      let est_chapter_size := Z.min target_chapter_size (l / total) in
      let current_chunk_size := est_chapter_size * count in
      (max_chunk_size <? current_chunk_size + est_chapter_size) && (0 <? count)
  | None =>
      let max_chapters_per_chunk := Z.max 1 (max_chunk_size / target_chapter_size) in
      max_chapters_per_chunk <=? count
  end.

(** The loop "Process chapters to create chunks" from chapter [i] on; the
    state is [chunks] and [current_chunk]. *)
Fixpoint pack (max_chunk_size : Z) (transcript_length : option Z) (total : Z)
    (i : nat) (chunks : list chunk) (current_chunk : chunk)
    (rest : list StructureIndex.chapter) : list chunk * chunk :=
  match rest with
  | [] => (chunks, current_chunk)
  | chapter :: rest' =>
      let continue_with chunks current_chunk :=
        pack max_chunk_size transcript_length total (S i) chunks current_chunk rest' in
      if StructureIndex.number chapter <? 1 then continue_with chunks current_chunk
      else if (i =? 0)%nat then continue_with chunks (new_chunk chapter)
      else
        match chapter_numbers current_chunk with
        | [] => continue_with chunks (add_chapter current_chunk chapter)
        | _ =>
            if closes max_chunk_size transcript_length total current_chunk
            then continue_with (chunks ++ [current_chunk]) (new_chunk chapter)
            else continue_with chunks (add_chapter current_chunk chapter)
        end
  end.

(** The chunks before their character positions are set. *)
Definition packed_chunks (max_chunk_size : Z) (transcript_length : option Z)
    (chapters : list StructureIndex.chapter) : list chunk :=
  let '(chunks, current_chunk) :=
    pack max_chunk_size transcript_length (Z.of_nat (length chapters)) 0 [] empty_chunk
      chapters in
  match chapter_numbers current_chunk with
  | [] => chunks
  | _ => chunks ++ [current_chunk]
  end.

(** "divide the transcript equally among chunks": the loop from chunk [i]
    on, [n] being [len(chunks)]. *)
Fixpoint positions_from (transcript_length chunk_size n i : Z) (chunks : list chunk)
    : list chunk :=
  match chunks with
  | [] => []
  | chunk :: rest =>
      {| chapter_numbers := chapter_numbers chunk;
         start_char := i * chunk_size;
         end_char := if i <? n - 1 then (i + 1) * chunk_size else transcript_length;
         chapters := chapters chunk |}
      :: positions_from transcript_length chunk_size n (i + 1) rest
  end.

Definition set_positions (transcript_length : Z) (chunks : list chunk) : list chunk :=
  let n := Z.of_nat (length chunks) in
  let chunk_size := transcript_length / n in
  positions_from transcript_length chunk_size n 0 chunks.

Definition _create_chapter_aligned_chunks (max_chapter_chunk_size : Z)
    (chapters : list StructureIndex.chapter) (transcript_length : option Z)
    : result (list chunk) :=
  match chapters with
  | [] => Ok []
  | _ =>
      let chunks := packed_chunks max_chapter_chunk_size transcript_length chapters in
      match truthy_length transcript_length with
      | Some l =>
          match chunks with
          | [] => Raise ZeroDivisionError
          | _ => Ok (set_positions l chunks)
          end
      | None => Ok chunks
      end
  end.

(** The character ranges of a chunk list tile [0, n): the first starts at
    0, each starts where the one before ends, the last ends at [n]. *)
Fixpoint tiles (from n : Z) (ranges : list (Z * Z)) : Prop :=
  match ranges with
  | [] => from = n
  | (a, b) :: ranges' => a = from /\ a <= b /\ tiles b n ranges'
  end.

(** A chunk of the packing: its numbers are those of its chapters, it has a
    chapter, and unless it has one chapter only it holds no more than the
    limit lets in: by the estimated size when the length of the transcript
    is known, by the count of chapters otherwise. *)
Definition well_packed (max_chunk_size : Z) (transcript_length : option Z) (total : Z)
    (c : chunk) : Prop :=
  chapter_numbers c = map StructureIndex.number (chapters c) /\
  chapters c <> [] /\
  (length (chapters c) = 1%nat \/
   match truthy_length transcript_length with
   | Some l =>
       Z.min target_chapter_size (l / total) * Z.of_nat (length (chapters c))
       <= max_chunk_size
   | None =>
       Z.of_nat (length (chapters c)) <= Z.max 1 (max_chunk_size / target_chapter_size)
   end).

Definition char_range (c : chunk) : Z * Z := (start_char c, end_char c).

End Chunking.

(** The start of chapter [k] of the trim, the length of the text for the
    chapter after the last. *)
Definition start_at (starts : list Z) (total : Z) (k : nat) : Z :=
  default total (starts !! k).

(** ** The provider round trip of [process_llm] (litellm_processing.py)

    What [Llm.process_llm] takes as [provider_round_trip]: the retry loop,
    the fallback and the final [raise], over an oracle for the provider.
    [time.sleep] and the log lines are left out. *)

Module LlmCall.
Import Llm.

Inductive role := System | User.

(** One request to a provider: [litellm.completion(model, messages)] or
    [genai.GenerativeModel(model_name).generate_content(prompt)]. *)
Inductive request :=
| Completion (model : str) (messages : list (role * str))
| GenerateContent (model_name : str) (prompt : str).

(** What a call ends in when it does not return: an exception of the
    provider or of the credential check, the [TypeError] of a call with a
    keyword the function does not have, or the final [Exception]. *)
Inductive error :=
| Raised (e : exn)
| TypeError (msg : str)
| Failed (msg : str).

(** The provider: the answer to the [n]-th request of the process. *)
Abbreviation provider := (nat -> request -> result str).

(** [x.replace(old, new)] for a non-empty [old]; [skip] characters of a
    replaced occurrence are still to be passed over. *)
Fixpoint replace_from (old new : str) (skip : nat) (x : str) : str :=
  match x with
  | [] => []
  | c :: x' =>
      match skip with
      | S k => replace_from old new k x'
      | O =>
          if starts_with old x then new ++ replace_from old new (length old - 1) x'
          else c :: replace_from old new 0 x'
      end
  end.

Definition replace (old new x : str) : str := replace_from old new 0 x.

(** [system_prompt] is neither [None] nor empty. *)
Definition given (system_prompt : option str) : option str :=
  match system_prompt with
  | Some [] => None
  | o => o
  end.

(** [_process_with_gemini], up to the request it sends. *)
Definition _process_with_gemini (text : str) (system_prompt : option str) (model : str)
    : request :=
  let combined_prompt :=
    match given system_prompt with
    | Some p => p ++ [NL; NL] ++ text
    | None => text
    end in
  if starts_with (s "gemini/") model then Completion model [(User, combined_prompt)]
  else
    let model_name := replace (s "gemini/") [] model in
    let model_name :=
      if starts_with (s "models/") model_name then model_name
      else s "models/" ++ model_name in
    GenerateContent model_name combined_prompt.

(** The request of one attempt. *)
Definition request_for (formatted_model : str) (system_prompt : option str)
    (context : str) : request :=
  if contains (s "gemini") (lower formatted_model)
  then _process_with_gemini context system_prompt formatted_model
  else
    Completion formatted_model
      [(System, default (s "You are a helpful assistant.") (given system_prompt));
       (User, context)].

(** [while retry_count < max_retries]: [remaining] attempts are left. *)
Fixpoint attempts (ask : provider) (req : request) (remaining : nat)
    (last_error : option exn) (log : list request)
    : (option exn + str) * list request :=
  match remaining with
  | O => (inl last_error, log)
  | S remaining' =>
      match ask (length log) req with
      | Ok response => (inr response, log ++ [req])
      | Raise e => attempts ask req remaining' (Some e) (log ++ [req])
      end
  end.

(** The parameters of [process_llm], and the binding of a call by keywords:
    a keyword that is no parameter is a [TypeError]. *)
Definition process_llm_parameters : list string :=
  ["context"; "system_prompt"; "model"; "max_tokens"; "temperature"; "max_retries";
   "additional_params"]%string.

Definition bind_keywords (function : string) (parameters keywords : list string)
    : error + unit :=
  match List.find (fun k => negb (bool_decide (k ∈ parameters))) keywords with
  | Some k =>
      inl (TypeError (s function ++ s "() got an unexpected keyword argument '"
                        ++ s k ++ s "'"))
  | None => inr tt
  end.

(** The keywords of the two calls [process_llm(text=context, ...)]. *)
Definition text_keywords : list string :=
  ["text"; "system_prompt"; "model"; "max_tokens"; "temperature"; "max_retries";
   "additional_params"]%string.

Definition failure_message (formatted_model : str) (max_retries : Z) : str :=
  s "Failed to get valid response from " ++ formatted_model ++ s " after "
    ++ s (pretty max_retries) ++ s " attempts".

(** [os.environ.get("LLM_FALLBACK_ENABLED") == "true" and
    os.environ.get("LLM_FALLBACK_MODEL")] *)
Definition fallback_model (env : environ) : option str :=
  if decide (env !! "LLM_FALLBACK_ENABLED"%string = Some "true"%string) then
    match env !! "LLM_FALLBACK_MODEL"%string with
    | Some m => if String.eqb m "" then None else Some (s m)
    | None => None
    end
  else None.

(** [process_llm] in full; [depth] bounds the calls of the fallback within
    one another. *)
Fixpoint process_llm (depth : nat) (env : environ) (ask : provider)
    (log : list request) (context : str) (system_prompt : option str) (model : str)
    (max_retries : Z) : (error + str) * list request :=
  match _check_api_key_for_model env model with
  | Raise e => (inl (Raised e), log)
  | Ok _ =>
      let formatted_model := _format_model_name model in
      if decide (env !! "MOCK_LLM_API"%string = Some "true"%string)
      then (inr (mock_text formatted_model context), log)
      else
        match attempts ask (request_for formatted_model system_prompt context)
                (Z.to_nat max_retries) None log with
        | (inr response, log) => (inr response, log)
        | (inl last_error, log) =>
            let raise_last log :=
              match last_error with
              | Some e => (inl (Raised e), log)
              | None => (inl (Failed (failure_message formatted_model max_retries)), log)
              end in
            match fallback_model env with
            | Some fallback =>
                match bind_keywords "process_llm" process_llm_parameters text_keywords with
                | inl _ => raise_last log
                | inr _ =>
                    match depth with
                    | O => raise_last log
                    | S depth' =>
                        match process_llm depth' env ask log context system_prompt
                                fallback 1 with
                        | (inr response, log) => (inr response, log)
                        | (inl _, log) => raise_last log
                        end
                    end
                end
            | None => raise_last log
            end
        end
  end.

(** [process_with_llm]: it calls [process_llm(text=context, ...)]. *)
Definition process_with_llm (depth : nat) (env : environ) (ask : provider)
    (log : list request) (context : str) (system_prompt : option str) (model : str)
    (max_retries : Z) : (error + str) * list request :=
  match bind_keywords "process_llm" process_llm_parameters text_keywords with
  | inl e => (inl e, log)
  | inr _ => process_llm depth env ask log context system_prompt model max_retries
  end.

End LlmCall.

(** *** Vocabulary for the expansion loop *)

(** A text without ['{'] and ['}']. *)
Definition is_brace (c : ascii) : bool := Ascii.eqb c "{"%char || Ascii.eqb c "}"%char.

Definition brace_free (x : str) : Prop := forallb (fun c => negb (is_brace c)) x = true.

(** [format] gets through a piece of a template, from literal text back to
    literal text. *)
Definition formats (render_field : str -> str -> option ascii -> result str -> result str)
    (kwargs : list (str * str)) (expand : str -> result str) (x : str) : Prop :=
  exists r, PyFormat.scan render_field kwargs expand x PyFormat.Literal = Ok r.

(** The length test of an expansion attempt: within [int(15000 * 0.7)] and
    [int(15000 * 1.7)]. *)
Definition expansion_acceptable (out : str) : bool :=
  negb (len out <? 10500) && negb (25500 <? len out).

(** The attempt that gets answer [r] does not set [success]. *)
Definition expansion_attempt_fails (r : result str) : Prop :=
  match r with
  | Ok out => expansion_acceptable out = false
  | Raise _ => True
  end.

(** A call for segment [g]: its text, under the expansion prompt of its
    chapter with some corrections and the given ending of the chapter
    before. *)
Definition is_expansion_call_on (g : Expansion.segment) (previous : option str)
    (a : Rewriter.call) : Prop :=
  exists corrections,
    a = (Expansion.text g,
         Rewriter.ExpansionPrompt (Expansion.chapter_num g) 15000 corrections previous).

(** The calls [calls], made from call number [base] on, all fail. *)
Fixpoint all_rejected (generator : nat -> str -> Rewriter.prompt -> result str)
    (base : nat) (calls : list Rewriter.call) : Prop :=
  match calls with
  | [] => True
  | a :: rest =>
      expansion_attempt_fails (generator base (fst a) (snd a))
      /\ all_rejected generator (S base) rest
  end.

(** The last answer the generator gave to the calls [calls], made from call
    number [base] on; [kept] when it gave none. *)
Fixpoint last_answer (generator : nat -> str -> Rewriter.prompt -> result str)
    (base : nat) (calls : list Rewriter.call) (kept : option str) : option str :=
  match calls with
  | [] => kept
  | a :: rest =>
      last_answer generator (S base) rest
        (match generator base (fst a) (snd a) with
         | Ok out => Some out
         | Raise _ => kept
         end)
  end.

(** The last 400 characters of the last output, when there is one. *)
Definition ending_of_last (outputs : list str) : option str :=
  match last outputs with
  | Some (a :: x) => Some (slice_from (a :: x) (-400))
  | _ => None
  end.

(** From [st] to [st'], segment [g] was given calls of its own and exactly
    one chapter was appended.  Either every call failed and there are
    [max_retries] of them, or the last call, made before the retries ran
    out, got an answer that passes the length test and the others failed.
    The chapter is the last answer the generator gave, whether it passed or
    not; when it gave none, or an empty one last, the chapter is the
    placeholder followed by the text of the segment. *)
Definition segment_outcome (generator : nat -> str -> Rewriter.prompt -> result str)
    (max_retries : Z) (g : Expansion.segment) (st st' : Rewriter.state) : Prop :=
  exists (calls : list Rewriter.call) (out : str),
    let base := length (Rewriter.log st) in
    Rewriter.log st' = Rewriter.log st ++ calls /\
    Rewriter.processed_chunks st' = Rewriter.processed_chunks st ++ [out] /\
    Forall (is_expansion_call_on g (ending_of_last (Rewriter.processed_chunks st))) calls /\
    ((all_rejected generator base calls /\
      Z.of_nat (length calls) = Z.max 0 max_retries)
     \/
     (exists attempts final accepted,
        calls = attempts ++ [final] /\
        all_rejected generator base attempts /\
        Z.of_nat (length attempts) < max_retries /\
        generator (base + length attempts)%nat (fst final) (snd final) = Ok accepted /\
        expansion_acceptable accepted = true)) /\
    out = match last_answer generator base calls None with
          | Some (a :: x) => a :: x
          | _ =>
              s "Chapter " ++ s (pretty (Expansion.chapter_num g)) ++ [NL; NL]
                ++ s "[Unable to generate content for this chapter]" ++ [NL; NL]
                ++ Expansion.text g
          end.

(** The outcomes of the segments of a job, in order. *)
Fixpoint expansion_outcome (generator : nat -> str -> Rewriter.prompt -> result str)
    (max_retries : Z) (l : list Expansion.segment) (st st' : Rewriter.state) : Prop :=
  match l with
  | [] => st' = st
  | g :: rest =>
      exists st1,
        segment_outcome generator max_retries g st st1 /\
        expansion_outcome generator max_retries rest st1 st'
  end.


(** *** Vocabulary for the floats of the expansion segments *)

(** The value of a float that is not negative, in units of [2 ^ -200]: an
    integer for every exponent met below. *)
Definition scaled (f : PyFloat.float) : Z :=
  match f with
  | S754_finite false m e => Zpos m * 2 ^ (e + 200)
  | _ => 0
  end.

(** Zero, or a positive float with a mantissa of 53 bits and an exponent
    between [lo] and [hi]. *)
Definition finite_in (lo hi : Z) (f : PyFloat.float) : Prop :=
  f = S754_zero false \/
  exists m e, f = S754_finite false m e /\ 2 ^ 52 <= Zpos m < 2 ^ 53 /\ lo <= e <= hi.

(** [(start_char, end_char)] of a segment. *)
Definition segment_range (g : Expansion.segment) : Z * Z :=
  (Expansion.start_char g, Expansion.end_char g).

(** [int(j * segment_size)], the floor of the product. *)
Definition boundary_at (segment_size : PyFloat.float) (j : Z) : Z :=
  scaled (PyFloat.mul (PyFloat.of_int j) segment_size) / 2 ^ 200.

(** [int(min((i + 1) * segment_size, original_length))] *)
Definition end_at (segment_size : PyFloat.float) (original_length i : Z) : Z :=
  if original_length * 2 ^ 200
       <? scaled (PyFloat.mul (PyFloat.of_int (i + 1)) segment_size)
  then original_length
  else boundary_at segment_size (i + 1).

(** The segment of index [i]. *)
Definition segment_at (transcript_text : str) (segment_size : PyFloat.float) (i : Z)
    : Expansion.segment :=
  {| Expansion.chapter_num := i + 1;
     Expansion.start_char := boundary_at segment_size i;
     Expansion.end_char := end_at segment_size (len transcript_text) i;
     Expansion.text :=
       slice transcript_text (boundary_at segment_size i)
         (end_at segment_size (len transcript_text) i) |}.

(** Two fixtures: a provider that is never reachable, and an environment
    with mock mode on and no credential at all. *)
Definition no_provider : str -> option str -> str -> result str :=
  fun _ _ _ => Raise GenerationError.

Definition mock_env : Llm.environ := {[ "MOCK_LLM_API"%string := "true"%string ]}.

(** Fixtures for the retry loops: three chunks whose targets are their own
    lengths; a generator that always raises; one that echoes its input but
    raises on the chunk "bad"; one that always answers with 25501
    characters. *)
Definition echo_chunk (text : str) : Rewriter.chunk :=
  {| Rewriter.chunk_text := text;
     Rewriter.target_chunk_length := len text;
     Rewriter.min_target_length := len text;
     Rewriter.max_target_length := len text;
     Rewriter.chapter_info := s "Chapter 1" |}.

Definition three_chunks : list Rewriter.chunk :=
  [echo_chunk (s "first"); echo_chunk (s "bad"); echo_chunk (s "third")].

Definition failing_generator : nat -> str -> Rewriter.prompt -> result str :=
  fun _ _ _ => Raise GenerationError.

Definition echo_generator : nat -> str -> Rewriter.prompt -> result str :=
  fun _ context _ =>
    if bool_decide (context = s "bad") then Raise GenerationError else Ok context.

Definition long_winded_generator : nat -> str -> Rewriter.prompt -> result str :=
  fun _ _ _ => Ok (repeat "b"%char (Z.to_nat 25501)).

(** Fixtures for the expansion path: a configuration with none of the prompt
    components; the outline of a one-chapter job; and the outline of a
    transcript of two segments that starts with "Hello {world}". *)
Definition no_components : Rewriter.prompt_components :=
  {| Rewriter.prompt_role := []; Rewriter.prompt_script_structure := [];
     Rewriter.prompt_tone_style := []; Rewriter.prompt_retention_flow := [];
     Rewriter.prompt_additional_instructions := [] |}.

(** A rendering that refuses every field that is more than a name. *)
Definition names_only : str -> str -> option ascii -> result str -> result str :=
  fun _ _ _ _ => Raise (ValueError (s "Invalid format specifier")).

Definition one_chapter_outline : str :=
  s "# MASTER DOCUMENT FOR EXTREME EXPANSION

## Chapter 1: aaaaaaaaaa... (0-5000)

TOPICS TO COVER IN CHAPTER 1:
1. Main theme of this segment
".

Definition braces_outline : str :=
  s "# MASTER DOCUMENT FOR EXTREME EXPANSION

## Chapter 1: Hello {world}, this is ... (0-23)

TOPICS TO COVER IN CHAPTER 1:
1. Main theme of this segment

## Chapter 2: the talk and it goes on.... (23-47)

TOPICS TO COVER IN CHAPTER 2:
1. Main theme of this segment
".

Definition introduction_block : StructureIndex.block :=
  {| StructureIndex.b_number := s "1"; StructureIndex.b_title := s "Introduction";
     StructureIndex.b_range := s "0-5000 characters";
     StructureIndex.b_description := s "This chapter introduces the main concepts." |}.

Definition background_block : StructureIndex.block :=
  {| StructureIndex.b_number := s "2"; StructureIndex.b_title := s "Historical Background";
     StructureIndex.b_range := s "5000-10000 characters";
     StructureIndex.b_description := s "This chapter covers history." |}.


(** A segmenter for short texts. *)
Definition small_config : Segmenter.config :=
  {| Segmenter.target_segment_size := 10; Segmenter.min_segment_size := 8;
     Segmenter.max_segment_size := 12; Segmenter.overlap_size := 0;
     Segmenter.speaker_change_weight := 5; Segmenter.paragraph_break_weight := 3;
     Segmenter.sentence_break_weight := 2; Segmenter.topic_change_weight := 4 |}.

(** A chapter record with nothing but its number. *)
Definition numbered_chapter (n : Z) : StructureIndex.chapter :=
  {| StructureIndex.number := n; StructureIndex.title := [];
     StructureIndex.description := []; StructureIndex.start_pos := 0;
     StructureIndex.end_pos := 0; StructureIndex.text := [];
     StructureIndex.length_ := None |}.

(** A provider that fails twice and then answers, one that always fails,
    and an environment with the fallback switched on. *)
Definition flaky_provider : LlmCall.provider :=
  fun n _ => if (n <? 2)%nat then Raise GenerationError else Ok (s "answer").

Definition failing_provider : LlmCall.provider := fun _ _ => Raise GenerationError.

Definition fallback_env : Llm.environ :=
  <["LLM_FALLBACK_ENABLED"%string := "true"%string]>
    (<["LLM_FALLBACK_MODEL"%string := "llama-2"%string]> ∅).

(** A segmenter whose target size is zero. *)
Definition zero_target_config : Segmenter.config :=
  {| Segmenter.target_segment_size := 0; Segmenter.min_segment_size := 8;
     Segmenter.max_segment_size := 12; Segmenter.overlap_size := 0;
     Segmenter.speaker_change_weight := 5; Segmenter.paragraph_break_weight := 3;
     Segmenter.sentence_break_weight := 2; Segmenter.topic_change_weight := 4 |}.

(** * Properties *)

Example float_literals_are_nearest :
  PyFloat.int_truediv 7 10 = Some PyFloat.f0_7 /\
  PyFloat.int_truediv 8 10 = Some PyFloat.f0_8 /\
  PyFloat.int_truediv 9 10 = Some PyFloat.f0_9 /\
  PyFloat.of_int 1 = PyFloat.f1_0 /\
  PyFloat.int_truediv 11 10 = Some PyFloat.f1_1 /\
  PyFloat.int_truediv 12 10 = Some PyFloat.f1_2 /\
  PyFloat.int_truediv 13 10 = Some PyFloat.f1_3 /\
  PyFloat.int_truediv 17 10 = Some PyFloat.f1_7.
Proof. vm_compute. repeat split; reflexivity. Qed.

Example float_int_examples :
  PyFloat.to_int (PyFloat.mul (PyFloat.of_int 20000) PyFloat.f1_1) = Some 22000 /\
  PyFloat.to_int (PyFloat.mul (PyFloat.of_int 3) PyFloat.f0_7) = Some 2 /\
  PyFloat.round (PyFloat.div (PyFloat.of_int 3) (PyFloat.of_int 2)) = Some 2 /\
  PyFloat.round (PyFloat.div (PyFloat.of_int 5) (PyFloat.of_int 2)) = Some 2 /\
  PyFloat.round (PyFloat.div (PyFloat.of_int 7) (PyFloat.of_int 2)) = Some 4 /\
  PyFloat.ceil (PyFloat.div (PyFloat.of_int 50000) (PyFloat.of_int 15000)) = Some 4 /\
  PyFloat.ceil (PyFloat.div (PyFloat.of_int 30000) (PyFloat.of_int 15000)) = Some 2.
Proof. vm_compute. repeat split; reflexivity. Qed.

(** ** Binary64 rounding: the facts the length bounds rest on *)

Lemma digits2_pos_size p : digits2_pos p = Pos.size p.
Proof. induction p; simpl; congruence. Qed.

Lemma digits2_pos_bounds p :
  2 ^ (Zpos (digits2_pos p) - 1) <= Zpos p < 2 ^ Zpos (digits2_pos p).
Proof.
  rewrite digits2_pos_size.
  pose proof (Pos.size_gt p) as Hgt. pose proof (Pos.size_le p) as Hle.
  split.
  - assert (H : (2 ^ Pos.size p <= p~0)%positive) by exact Hle.
    apply Pos2Z.pos_le_pos in H.
    rewrite Pos2Z.inj_pow in H.
    replace (Zpos (Pos.size p)) with (Z.succ (Zpos (Pos.size p) - 1)) in H by lia.
    rewrite Z.pow_succ_r in H by lia. lia.
  - apply Pos2Z.pos_lt_pos in Hgt. rewrite Pos2Z.inj_pow in Hgt. exact Hgt.
Qed.

Lemma digits2_pos_unique p d :
  2 ^ (d - 1) <= Zpos p < 2 ^ d -> Zpos (digits2_pos p) = d.
Proof.
  intros [Hlo Hhi]. pose proof (digits2_pos_bounds p) as [Hlo' Hhi'].
  set (d' := Zpos (digits2_pos p)) in *.
  assert (0 < d') by (unfold d'; lia).
  destruct (Z.lt_trichotomy d' d) as [Hlt | [Heq | Hgt]]; [|exact Heq|].
  - assert (2 ^ d' <= 2 ^ (d - 1)) by (apply Z.pow_le_mono_r; lia). lia.
  - assert (d <= 0 \/ 0 < d) as [Hd|Hd] by lia.
    + assert (2 ^ d <= 2 ^ 0) by (apply Z.pow_le_mono_r_iff; lia || (destruct (Z.eq_dec d 0); subst; simpl; lia)).
      simpl in *. lia.
    + assert (2 ^ d <= 2 ^ (d' - 1)) by (apply Z.pow_le_mono_r; lia). lia.
Qed.

Lemma shr_1_m mrs : 0 <= shr_m mrs -> shr_m (shr_1 mrs) = shr_m mrs / 2.
Proof.
  destruct mrs as [m r s0]. simpl. intros Hm.
  destruct m as [|p|p]; [reflexivity| |lia].
  destruct p as [p|p|]; simpl shr_m.
  - apply Z.div_unique with (r := 1); lia.
  - apply Z.div_unique with (r := 0); lia.
  - reflexivity.
Qed.

Lemma pow2_xI n : 2 ^ Zpos n~1 = 2 * (2 ^ Zpos n * 2 ^ Zpos n).
Proof.
  rewrite Pos2Z.inj_xI, <- Z.pow_add_r, <- Z.pow_succ_r by lia. f_equal. lia.
Qed.

Lemma pow2_xO n : 2 ^ Zpos n~0 = 2 ^ Zpos n * 2 ^ Zpos n.
Proof. rewrite Pos2Z.inj_xO, <- Z.pow_add_r by lia. f_equal. lia. Qed.

Lemma iter_pos_shr_1_m n : forall mrs,
  0 <= shr_m mrs -> shr_m (SpecFloat.iter_pos shr_1 n mrs) = shr_m mrs / 2 ^ Zpos n.
Proof.
  induction n as [n IH|n IH|]; intros mrs Hm; simpl SpecFloat.iter_pos.
  - assert (Hp : 0 < 2 ^ Zpos n) by (apply Z.pow_pos_nonneg; lia).
    assert (H1 : 0 <= shr_m (shr_1 mrs)) by (rewrite shr_1_m by lia; apply Z.div_pos; lia).
    assert (H2 : 0 <= shr_m (SpecFloat.iter_pos shr_1 n (shr_1 mrs)))
      by (rewrite IH by lia; apply Z.div_pos; lia).
    rewrite IH, IH, shr_1_m by lia.
    rewrite !Z.div_div by lia. rewrite pow2_xI. reflexivity.
  - assert (Hp : 0 < 2 ^ Zpos n) by (apply Z.pow_pos_nonneg; lia).
    assert (H2 : 0 <= shr_m (SpecFloat.iter_pos shr_1 n mrs))
      by (rewrite IH by lia; apply Z.div_pos; lia).
    rewrite IH, IH by lia.
    rewrite !Z.div_div by lia. rewrite pow2_xO. reflexivity.
  - rewrite shr_1_m by lia. reflexivity.
Qed.

Lemma round_nearest_even_range mx lx :
  mx <= round_nearest_even mx lx <= mx + 1.
Proof.
  destruct lx as [|[]]; simpl; try lia. destruct (Z.even mx); lia.
Qed.

Lemma fexp64 x : -1074 <= x - 53 -> fexp 53 1024 x = x - 53.
Proof. intros H. unfold fexp, emin. lia. Qed.

Lemma shr_fexp_exact_m p e k :
  0 <= k -> 2 ^ (52 + k) <= Zpos p < 2 ^ (53 + k) -> -1074 <= e + k ->
  shr_m (fst (shr_fexp 53 1024 (Zpos p) e loc_Exact)) = Zpos p / 2 ^ k /\
  snd (shr_fexp 53 1024 (Zpos p) e loc_Exact) = e + k.
Proof.
  intros Hk Hp He. unfold shr_fexp. simpl Zdigits2.
  rewrite (digits2_pos_unique p (53 + k)) by (replace (53 + k - 1) with (52 + k) by lia; exact Hp).
  rewrite fexp64 by lia.
  replace (53 + k + e - 53 - e) with k by lia.
  unfold shr. destruct k as [|k|k]; [| |lia].
  - simpl. rewrite Z.div_1_r. split; [reflexivity|lia].
  - simpl fst. simpl snd. rewrite iter_pos_shr_1_m by (simpl; lia).
    split; reflexivity.
Qed.

Lemma binary_round_aux_shift p E n :
  0 < n -> 2 ^ (52 + n) <= Zpos p < 2 ^ (53 + n) ->
  -1074 <= E + n -> E + n + 1 <= 971 ->
  exists m' e',
    binary_round_aux 53 1024 false (Zpos p) E loc_Exact = S754_finite false m' e' /\
    E + n <= e' /\
    (Zpos p / 2 ^ n) * 2 ^ n <= Zpos m' * 2 ^ (e' - E) <= (Zpos p / 2 ^ n + 1) * 2 ^ n.
Proof.
  intros Hn Hp Hlo Hhi.
  unfold binary_round_aux.
  destruct (shr_fexp_exact_m p E n ltac:(lia) Hp Hlo) as [Hm He].
  destruct (shr_fexp 53 1024 (Zpos p) E loc_Exact) as [mrs' e'] eqn:E1.
  simpl in Hm, He. subst e'.
  set (q := Zpos p / 2 ^ n) in *.
  assert (Hpn : 0 < 2 ^ n) by (apply Z.pow_pos_nonneg; lia).
  assert (Hq : 2 ^ 52 <= q < 2 ^ 53).
  { unfold q. split.
    - apply Z.div_le_lower_bound; [lia|]. rewrite <- Z.pow_add_r by lia.
      replace (n + 52) with (52 + n) by lia. lia.
    - apply Z.div_lt_upper_bound; [lia|]. rewrite <- Z.pow_add_r by lia.
      replace (n + 53) with (53 + n) by lia. lia. }
  pose proof (round_nearest_even_range (shr_m mrs') (loc_of_shr_record mrs')) as Hr.
  rewrite Hm in *.
  destruct (round_nearest_even q (loc_of_shr_record mrs')) as [|r|r] eqn:Er; [lia| |lia].
  assert (Hcase : Zpos r < 2 ^ 53 \/ Zpos r = 2 ^ 53) by lia.
  destruct Hcase as [Hlt | Heq].
  - destruct (shr_fexp_exact_m r (E + n) 0 ltac:(lia) ltac:(simpl (52 + 0); simpl (53 + 0); lia) ltac:(lia)) as [Hm2 He2].
    destruct (shr_fexp 53 1024 (Zpos r) (E + n) loc_Exact) as [mrs'' e''] eqn:E2.
    simpl in Hm2, He2. rewrite Z.div_1_r in Hm2. rewrite Hm2.
    replace (e'' <=? 1024 - 53) with true by (symmetry; apply Z.leb_le; lia).
    exists r, e''. split; [reflexivity|]. split; [lia|].
    replace (e'' - E) with n by lia. nia.
  - destruct (shr_fexp_exact_m r (E + n) 1 ltac:(lia) ltac:(simpl (52 + 1); simpl (53 + 1); lia) ltac:(lia)) as [Hm2 He2].
    destruct (shr_fexp 53 1024 (Zpos r) (E + n) loc_Exact) as [mrs'' e''] eqn:E2.
    simpl in Hm2, He2. rewrite Hm2, Heq.
    change (2 ^ 53 / 2 ^ 1) with (Zpos 4503599627370496).
    replace (e'' <=? 1024 - 53) with true by (symmetry; apply Z.leb_le; lia).
    eexists _, e''. split; [reflexivity|]. split; [lia|].
    replace (e'' - E) with (n + 1) by lia.
    rewrite Z.pow_add_r by lia. change (2 ^ 1) with 2.
    change (2 ^ 52) with 4503599627370496 in *.
    change (2 ^ 53) with 9007199254740992 in *. nia.
Qed.

Lemma iter_xO_mul p d : Zpos (Pos.iter xO p d) = Zpos p * 2 ^ Zpos d.
Proof.
  induction d as [|d IH] using Pos.peano_ind.
  - simpl. lia.
  - rewrite Pos.iter_succ, Pos2Z.inj_xO, IH, Pos2Z.inj_succ, Z.pow_succ_r by lia. lia.
Qed.

Lemma shr_fexp_id p E :
  2 ^ 52 <= Zpos p < 2 ^ 53 -> -1074 <= E ->
  shr_fexp 53 1024 (Zpos p) E loc_Exact =
  ({| shr_m := Zpos p; shr_r := false; shr_s := false |}, E).
Proof.
  intros Hp HE. unfold shr_fexp. simpl Zdigits2.
  rewrite (digits2_pos_unique p 53) by (simpl; lia).
  rewrite fexp64 by lia. replace (53 + E - 53 - E) with 0 by lia. reflexivity.
Qed.

Lemma binary_round_aux_exact p E :
  2 ^ 52 <= Zpos p < 2 ^ 53 -> -1074 <= E <= 971 ->
  binary_round_aux 53 1024 false (Zpos p) E loc_Exact = S754_finite false p E.
Proof.
  intros Hp HE. unfold binary_round_aux.
  rewrite shr_fexp_id by lia. simpl shr_m. simpl loc_of_shr_record.
  simpl round_nearest_even. rewrite shr_fexp_id by lia. simpl shr_m.
  replace (E <=? 1024 - 53) with true by (symmetry; apply Z.leb_le; lia).
  reflexivity.
Qed.

Lemma of_int_normal t :
  0 < t < 2 ^ 53 ->
  exists mx ex,
    PyFloat.of_int t = S754_finite false mx ex /\
    -52 <= ex <= 0 /\ Zpos mx = t * 2 ^ (- ex) /\ 2 ^ 52 <= Zpos mx < 2 ^ 53.
Proof.
  intros Ht. destruct t as [|p|p]; [lia| |lia].
  unfold PyFloat.of_int, PyFloat.prec, PyFloat.emax, binary_normalize, binary_round.
  pose proof (digits2_pos_bounds p) as Hd.
  set (d := Zpos (digits2_pos p)) in *.
  assert (Hd53 : d <= 53).
  { destruct (Z_le_gt_dec d 53) as [H|H]; [exact H|].
    assert (2 ^ 53 <= 2 ^ (d - 1)) by (apply Z.pow_le_mono_r; lia). lia. }
  assert (Hd1 : 1 <= d) by (unfold d; lia).
  rewrite Z.add_0_r. rewrite fexp64 by lia.
  unfold shl_align.
  destruct (d - 53 - 0) as [|k|k] eqn:Ek; [| lia |].
  - assert (d = 53) by lia.
    rewrite binary_round_aux_exact by (replace (53 - 1) with 52 in *; replace d with 53 in * by lia; simpl in *; lia).
    exists p, 0. split; [reflexivity|]. split; [lia|].
    split; [simpl; lia|]. replace d with 53 in * by lia. simpl in *. lia.
  - assert (Hk : Zpos k = 53 - d) by lia.
    assert (Hm : Zpos (Pos.iter xO p k) = Zpos p * 2 ^ (53 - d))
      by (rewrite iter_xO_mul, Hk; reflexivity).
    assert (Hpk : 0 < 2 ^ (53 - d)) by (apply Z.pow_pos_nonneg; lia).
    assert (Hrange : 2 ^ 52 <= Zpos (Pos.iter xO p k) < 2 ^ 53).
    { rewrite Hm. split.
      - replace 52 with ((d - 1) + (53 - d)) at 1 by lia.
        rewrite Z.pow_add_r by lia. nia.
      - replace 53 with (d + (53 - d)) at 2 by lia.
        rewrite Z.pow_add_r by lia. nia. }
    rewrite binary_round_aux_exact by lia.
    exists (Pos.iter xO p k), (d - 53).
    split; [reflexivity|]. split; [lia|]. split; [|exact Hrange].
    rewrite Hm. f_equal. f_equal. lia.
Qed.

Lemma shiftl_ge a t E e' :
  0 <= a -> E <= 0 -> E <= e' ->
  t * 2 ^ (- E) <= a * 2 ^ (e' - E) -> t <= Z.shiftl a e'.
Proof.
  intros Ha HE Hee H.
  destruct (Z_le_gt_dec 0 e') as [He|He].
  - rewrite Z.shiftl_mul_pow2 by lia.
    replace (e' - E) with (e' + - E) in H by lia.
    rewrite Z.pow_add_r in H by lia.
    assert (0 < 2 ^ (- E)) by (apply Z.pow_pos_nonneg; lia). nia.
  - rewrite Z.shiftl_div_pow2 by lia.
    assert (0 < 2 ^ (- e')) by (apply Z.pow_pos_nonneg; lia).
    assert (0 < 2 ^ (e' - E)) by (apply Z.pow_pos_nonneg; lia).
    apply Z.div_le_lower_bound; [lia|].
    replace (- E) with ((e' - E) + - e') in H by lia.
    rewrite Z.pow_add_r in H by lia. nia.
Qed.

Lemma shiftl_le a t E e' :
  0 <= a -> 0 <= t -> E <= 0 -> E <= e' ->
  a * 2 ^ (e' - E) <= t * 2 ^ (- E) -> Z.shiftl a e' <= t.
Proof.
  intros Ha Ht HE Hee H.
  destruct (Z_le_gt_dec 0 e') as [He|He].
  - rewrite Z.shiftl_mul_pow2 by lia.
    replace (e' - E) with (e' + - E) in H by lia.
    rewrite Z.pow_add_r in H by lia.
    assert (0 < 2 ^ (- E)) by (apply Z.pow_pos_nonneg; lia). nia.
  - rewrite Z.shiftl_div_pow2 by lia.
    assert (0 < 2 ^ (- e')) by (apply Z.pow_pos_nonneg; lia).
    assert (0 < 2 ^ (e' - E)) by (apply Z.pow_pos_nonneg; lia).
    replace (- E) with ((e' - E) + - e') in H by lia.
    rewrite Z.pow_add_r in H by lia.
    assert (a <= t * 2 ^ (- e')) by nia.
    apply Z.div_le_upper_bound; [lia|]. lia.
Qed.

Lemma mul_of_int_bounds t mc ec :
  0 < t < 2 ^ 53 -> 2 ^ 52 <= Zpos mc < 2 ^ 53 -> -60 <= ec <= -40 ->
  exists v,
    PyFloat.to_int (PyFloat.mul (PyFloat.of_int t) (S754_finite false mc ec)) = Some v /\
    (2 ^ (52 - ec) <= Zpos mc * (2 ^ 52 - 1) -> t <= v) /\
    (Zpos mc * (2 ^ 52 + 1) <= 2 ^ (52 - ec) -> v <= t).
Proof.
  intros Ht Hmc Hec.
  destruct (of_int_normal t Ht) as (mx & ex & Hx & Hex & Hmx & Hmxr).
  rewrite Hx. unfold PyFloat.mul, PyFloat.prec, PyFloat.emax. simpl SFmul. rewrite Pos2Z.inj_mul.
  set (M := Zpos mx * Zpos mc).
  set (E := ex + ec).
  assert (HM : 2 ^ 104 <= M < 2 ^ 106).
  { unfold M. change (2 ^ 104) with (2 ^ 52 * 2 ^ 52).
    change (2 ^ 106) with (2 ^ 53 * 2 ^ 53). nia. }
  assert (Hn : exists n, (n = 52 \/ n = 53) /\ 2 ^ (52 + n) <= M < 2 ^ (53 + n)).
  { destruct (Z_lt_ge_dec M (2 ^ 105)) as [H|H].
    - exists 52. split; [auto|]. simpl (52 + 52). simpl (53 + 52). lia.
    - exists 53. split; [auto|]. simpl (52 + 53). simpl (53 + 53). lia. }
  destruct Hn as (n & Hn & HMn).
  assert (HMpos : exists p, M = Zpos p).
  { unfold M. exists (mx * mc)%positive. reflexivity. }
  destruct HMpos as [p Hp]. rewrite Hp in *.
  destruct (binary_round_aux_shift p E n ltac:(lia) HMn ltac:(unfold E; lia) ltac:(unfold E; lia))
    as (m' & e' & Hr & He' & Hb).
  rewrite Hr. simpl PyFloat.to_int. eexists. split; [reflexivity|].
  assert (Hpn : 0 < 2 ^ n) by (apply Z.pow_pos_nonneg; lia).
  assert (H52n : 2 ^ 52 * 2 ^ n <= Zpos p).
  { rewrite <- Z.pow_add_r by lia. lia. }
  pose proof (Z.div_mod (Zpos p) (2 ^ n) ltac:(lia)) as Hdm.
  pose proof (Z.mod_pos_bound (Zpos p) (2 ^ n) Hpn) as Hmod.
  assert (HE0 : 2 ^ (- E) = 2 ^ (- ex) * 2 ^ (- ec)).
  { unfold E. replace (- (ex + ec)) with (- ex + - ec) by lia.
    apply Z.pow_add_r; lia. }
  assert (Hec2 : 2 ^ (52 - ec) = 2 ^ 52 * 2 ^ (- ec)).
  { replace (52 - ec) with (52 + - ec) by lia. apply Z.pow_add_r; lia. }
  assert (Hpex : 0 < 2 ^ (- ex)) by (apply Z.pow_pos_nonneg; lia).
  assert (Hpec : 0 < 2 ^ (- ec)) by (apply Z.pow_pos_nonneg; lia).
  assert (HpM : Zpos p = t * 2 ^ (- ex) * Zpos mc) by (rewrite <- Hp; unfold M; lia).
  set (X := Zpos m' * 2 ^ (e' - E)) in *.
  set (Q := Zpos p / 2 ^ n) in *.
  split; intros Hc.
  - apply (shiftl_ge (Zpos m') t E e'); [lia|unfold E; lia|lia|].
    fold X. rewrite HE0. rewrite Hec2 in Hc.
    assert (2 ^ 52 * (t * (2 ^ (- ex) * 2 ^ (- ec))) <= 2 ^ 52 * X); [|lia].
    assert (H1 : (2 ^ 52 - 1) * Zpos p <= 2 ^ 52 * X) by nia.
    assert (H2 : t * 2 ^ (- ex) * (2 ^ 52 * 2 ^ (- ec)) <= t * 2 ^ (- ex) * (Zpos mc * (2 ^ 52 - 1))).
    { apply Z.mul_le_mono_nonneg_l; [nia|exact Hc]. }
    nia.
  - apply (shiftl_le (Zpos m') t E e'); [lia|lia|unfold E; lia|lia|].
    fold X. rewrite HE0. rewrite Hec2 in Hc.
    assert (2 ^ 52 * X <= 2 ^ 52 * (t * (2 ^ (- ex) * 2 ^ (- ec)))); [|lia].
    assert (H1 : 2 ^ 52 * X <= (2 ^ 52 + 1) * Zpos p) by nia.
    assert (H2 : t * 2 ^ (- ex) * (Zpos mc * (2 ^ 52 + 1)) <= t * 2 ^ (- ex) * (2 ^ 52 * 2 ^ (- ec))).
    { apply Z.mul_le_mono_nonneg_l; [nia|exact Hc]. }
    nia.
Qed.

Lemma int_mul_zero mc ec :
  LengthPlanner.int_mul 0 (S754_finite false mc ec) = Ok 0.
Proof. reflexivity. Qed.

Lemma int_mul_below t mc ec :
  0 <= t < 2 ^ 53 -> 2 ^ 52 <= Zpos mc < 2 ^ 53 -> -60 <= ec <= -40 ->
  Zpos mc * (2 ^ 52 + 1) <= 2 ^ (52 - ec) ->
  exists v, LengthPlanner.int_mul t (S754_finite false mc ec) = Ok v /\ v <= t.
Proof.
  intros Ht Hmc Hec Hc.
  destruct (Z.eq_dec t 0) as [->|Hne].
  - exists 0. split; [apply int_mul_zero|lia].
  - destruct (mul_of_int_bounds t mc ec ltac:(lia) Hmc Hec) as (v & Hv & _ & Hle).
    exists v. unfold LengthPlanner.int_mul. rewrite Hv. split; [reflexivity|auto].
Qed.

Lemma int_mul_above t mc ec :
  0 <= t < 2 ^ 53 -> 2 ^ 52 <= Zpos mc < 2 ^ 53 -> -60 <= ec <= -40 ->
  2 ^ (52 - ec) <= Zpos mc * (2 ^ 52 - 1) ->
  exists v, LengthPlanner.int_mul t (S754_finite false mc ec) = Ok v /\ t <= v.
Proof.
  intros Ht Hmc Hec Hc.
  destruct (Z.eq_dec t 0) as [->|Hne].
  - exists 0. split; [apply int_mul_zero|lia].
  - destruct (mul_of_int_bounds t mc ec ltac:(lia) Hmc Hec) as (v & Hv & Hge & _).
    exists v. unfold LengthPlanner.int_mul. rewrite Hv. split; [reflexivity|auto].
Qed.

Ltac band_side :=
  first [ assumption
        | lia
        | vm_compute; first [ discriminate | split; [discriminate | reflexivity] ] ].

Lemma target_range_spec (scaling_factor : PyFloat.float) (t : Z) :
  0 <= t < 2 ^ 53 ->
  exists lo hi,
    LengthPlanner.target_range scaling_factor t = Ok (lo, hi) /\
    LengthPlanner.int_mul t
      (fst (LengthPlanner.band (LengthPlanner.classify scaling_factor))) = Ok lo /\
    LengthPlanner.int_mul t
      (snd (LengthPlanner.band (LengthPlanner.classify scaling_factor))) = Ok hi /\
    lo <= t <= hi.
Proof.
  intros Ht. unfold LengthPlanner.target_range.
  destruct (LengthPlanner.classify scaling_factor); cbn [LengthPlanner.band fst snd].
  - destruct (int_mul_below t 6305039478318694 (-53)) as (lo & Hlo & Hlo'); [band_side..|].
    destruct (int_mul_above t 5854679515581645 (-52)) as (hi & Hhi & Hhi'); [band_side..|].
    exists lo, hi.
    unfold PyFloat.f0_7, PyFloat.f1_3. rewrite Hlo, Hhi. cbn. repeat split; trivial.
  - destruct (int_mul_below t 7205759403792794 (-53)) as (lo & Hlo & Hlo'); [band_side..|].
    destruct (int_mul_above t 5404319552844595 (-52)) as (hi & Hhi & Hhi'); [band_side..|].
    exists lo, hi.
    unfold PyFloat.f0_8, PyFloat.f1_2. rewrite Hlo, Hhi. cbn. repeat split; trivial.
  - destruct (int_mul_below t 8106479329266893 (-53)) as (lo & Hlo & Hlo'); [band_side..|].
    destruct (int_mul_above t 4953959590107546 (-52)) as (hi & Hhi & Hhi'); [band_side..|].
    exists lo, hi.
    unfold PyFloat.f0_9, PyFloat.f1_1. rewrite Hlo, Hhi. cbn. repeat split; trivial.
Qed.

(** C6.  Whatever the scaling factor, the acceptance band computed for a
    per-chunk target length [t] (a length below 2^53, which every length of a
    string is) contains [t]: [min_target_length <= t <= max_target_length],
    the two bounds being [int(t * f_lo)] and [int(t * f_hi)] for the band of
    the factor's class: (0.7, 1.3) below 0.7, (0.8, 1.2) above 1.3,
    (0.9, 1.1) otherwise. *)
Theorem target_range_contains_target (scaling_factor : PyFloat.float) (t : Z) :
  0 <= t < 2 ^ 53 ->
  exists min_target_length max_target_length,
    LengthPlanner.target_range scaling_factor t
      = Ok (min_target_length, max_target_length) /\
    LengthPlanner.int_mul t
      (if PyFloat.ltb scaling_factor PyFloat.f0_7 then PyFloat.f0_7
       else if PyFloat.ltb PyFloat.f1_3 scaling_factor then PyFloat.f0_8
       else PyFloat.f0_9) = Ok min_target_length /\
    LengthPlanner.int_mul t
      (if PyFloat.ltb scaling_factor PyFloat.f0_7 then PyFloat.f1_3
       else if PyFloat.ltb PyFloat.f1_3 scaling_factor then PyFloat.f1_2
       else PyFloat.f1_1) = Ok max_target_length /\
    min_target_length <= t <= max_target_length.
Proof.
  intros Ht.
  destruct (target_range_spec scaling_factor t Ht) as (lo & hi & H1 & H2 & H3 & H4).
  exists lo, hi. unfold LengthPlanner.classify in H2, H3.
  destruct (PyFloat.ltb scaling_factor PyFloat.f0_7);
    [|destruct (PyFloat.ltb PyFloat.f1_3 scaling_factor)]; auto.
Qed.

Lemma target_range_contains_target_witness :
  exists lo hi,
    LengthPlanner.target_range PyFloat.f1_0 20000 = Ok (lo, hi) /\
    LengthPlanner.int_mul 20000 PyFloat.f0_9 = Ok lo /\
    LengthPlanner.int_mul 20000 PyFloat.f1_1 = Ok hi /\
    lo <= 20000 <= hi.
Proof.
  apply (target_range_contains_target PyFloat.f1_0 20000).
  vm_compute. split; [discriminate | reflexivity].
Defined.

Example target_range_examples :
  LengthPlanner.target_range PyFloat.f1_0 20000 = Ok (18000, 22000) /\
  LengthPlanner.target_range PyFloat.f0_8 10 = Ok (9, 11) /\
  LengthPlanner.target_range (PyFloat.div (PyFloat.of_int 1) (PyFloat.of_int 2)) 1000
    = Ok (700, 1300) /\
  LengthPlanner.target_range (PyFloat.of_int 2) 1000 = Ok (800, 1200).
Proof. vm_compute. repeat split; reflexivity. Qed.

(** ** The expansion segments *)

(** C3 (the code at a failing input).  A transcript of 1004 characters with a
    target of 100000 characters is divided into ceil(100000 / 15000) = 7
    contiguous segments numbered 1..7 starting at 0, but the last one ends at
    character 1003: [7 * (1004 / 7)] is rounded below 1004, so the cap
    [min(..., original_length)] keeps the float and [int] truncates it. *)
Theorem expansion_segments_miss_last_character :
  let transcript_text := repeat "a"%char 1004 in
  exists segs,
    Expansion.segments transcript_text 100000 = Ok segs /\
    Expansion.ranges segs =
      [(1, 0, 143); (2, 143, 286); (3, 286, 430); (4, 430, 573);
       (5, 573, 717); (6, 717, 860); (7, 860, 1003)] /\
    len (concat (map Expansion.text segs)) = 1003 /\
    len transcript_text = 1004.
Proof.
  cbv zeta. eexists. split; [vm_compute; reflexivity|].
  vm_compute. repeat split; reflexivity.
Qed.

Example expansion_segments_scenario_B :
  exists segs,
    Expansion.segments (repeat "a"%char 5000) 50000 = Ok segs /\
    Expansion.ranges segs =
      [(1, 0, 1250); (2, 1250, 2500); (3, 2500, 3750); (4, 3750, 5000)].
Proof. eexists. split; vm_compute; reflexivity. Qed.

(** ** The generator adapter *)

Example process_llm_mock_example :
  Llm.process_llm mock_env no_provider (s "hello") None (s "test-model")
  = Ok (s "Mock processed text using test-model: hello...").
Proof. vm_compute. reflexivity. Qed.

(** C10.  The credential check comes first: for a model that falls to a
    recognised provider whose key variable is unset (or empty), [process_llm]
    raises [ValueError] with the missing-key message, whatever the value of
    [MOCK_LLM_API] and whatever the provider would answer. *)
Theorem process_llm_checks_credential_first
    (env : Llm.environ) (provider_round_trip : str -> option str -> str -> result str)
    (context : str) (system_prompt : option str) (model : str)
    (provider key_name : string) :
  Llm.provider_key env model = Some (provider, key_name) ->
  Llm.env_unset env key_name = true ->
  Llm.process_llm env provider_round_trip context system_prompt model
  = Raise (ValueError (Llm.missing_key_message key_name provider model)).
Proof.
  intros Hp Hk. unfold Llm.process_llm, Llm._check_api_key_for_model.
  rewrite Hp, Hk. reflexivity.
Qed.

Lemma process_llm_checks_credential_first_witness :
  Llm.process_llm mock_env no_provider (s "some text") None (s "gemini-2.0-flash-lite")
  = Raise (ValueError (s "Missing GOOGLE_API_KEY for gemini model: gemini-2.0-flash-lite")).
Proof.
  apply (process_llm_checks_credential_first mock_env no_provider (s "some text") None
           (s "gemini-2.0-flash-lite") "gemini" "GOOGLE_API_KEY");
    vm_compute; reflexivity.
Defined.

Example provider_key_examples :
  Llm.provider_key mock_env (s "GPT-4") = Some ("openai", "OPENAI_API_KEY")%string /\
  Llm.provider_key mock_env (s "claude-3-opus-20240229")
    = Some ("anthropic", "ANTHROPIC_API_KEY")%string /\
  Llm.provider_key mock_env (s "deepseek-chat")
    = Some ("deepseek", "DEEPSEEK_API_KEY")%string /\
  Llm.provider_key (<["GEMINI_API_KEY"%string := "k"%string]> mock_env) (s "gemini-pro")
    = Some ("gemini", "GEMINI_API_KEY")%string /\
  Llm.provider_key mock_env (s "llama-3") = None.
Proof. vm_compute. repeat split; reflexivity. Qed.

(** C9, as the code has it.  In mock mode, once the credential check has
    passed, [process_llm] answers with the text
    "Mock processed text using <formatted model>: <first 100 characters of
    the input>..." without reaching the provider; so two inputs with the same
    first 100 characters get the same answer.  The only fixed placeholder is
    the return value configured on the [MagicMock] processor. *)
Theorem process_llm_mock_depends_on_prefix
    (env : Llm.environ) (provider_round_trip : str -> option str -> str -> result str)
    (system_prompt : option str) (model : str) (x y : str) :
  env !! "MOCK_LLM_API"%string = Some "true"%string ->
  Llm._check_api_key_for_model env model = Ok tt ->
  Llm.process_llm env provider_round_trip x system_prompt model
    = Ok (s "Mock processed text using " ++ Llm._format_model_name model ++ s ": "
            ++ slice_to x 100 ++ s "...") /\
  (slice_to x 100 = slice_to y 100 ->
   Llm.process_llm env provider_round_trip x system_prompt model
   = Llm.process_llm env provider_round_trip y system_prompt model) /\
  Llm.mock_process_text x = Llm.mock_process_text y.
Proof.
  intros Hmock Hkey. unfold Llm.process_llm. rewrite Hkey. cbn.
  destruct (decide (env !! "MOCK_LLM_API"%string = Some "true"%string)) as [_|Hn];
    [|contradiction].
  split; [reflexivity|]. split; [|reflexivity].
  intros Heq. unfold Llm.mock_text. rewrite Heq. reflexivity.
Qed.

Lemma process_llm_mock_depends_on_prefix_witness :
  Llm.process_llm mock_env no_provider (s "hello") None (s "test-model")
    = Ok (s "Mock processed text using " ++ Llm._format_model_name (s "test-model")
            ++ s ": " ++ slice_to (s "hello") 100 ++ s "...") /\
  (slice_to (s "hello") 100 = slice_to (s "hello") 100 ->
   Llm.process_llm mock_env no_provider (s "hello") None (s "test-model")
   = Llm.process_llm mock_env no_provider (s "hello") None (s "test-model")) /\
  Llm.mock_process_text (s "hello") = Llm.mock_process_text (s "hello").
Proof.
  apply (process_llm_mock_depends_on_prefix mock_env no_provider None (s "test-model")
           (s "hello") (s "hello")); vm_compute; reflexivity.
Defined.

(** C9 as stated fails: in mock mode two different inputs get two different
    answers. *)
Lemma process_llm_mock_output_varies :
  Llm.process_llm mock_env no_provider (s "alpha") None (s "test-model")
  <> Llm.process_llm mock_env no_provider (s "beta") None (s "test-model").
Proof. vm_compute. discriminate. Qed.

(** ** The retry loops *)

Section RetryLoops.

Import Rewriter.

Variable generator : nat -> str -> prompt -> result str.
Variable max_retries : Z.
Variable scaling_factor : PyFloat.float.

#[local] Arguments percentage_diff : simpl never.
#[local] Arguments LengthPlanner.int_mul : simpl never.
#[local] Arguments create_simplified_fallback_prompt : simpl never.

Ltac run_monad :=
  unfold mbind, M_bind, mret, M_ret, get, lift, process_llm, incr_retries,
    set_success, set_retries, set_processed_chunk, set_retry_instruction,
    set_prompt_corrections, append_output, try_except in *; cbn in *.

Lemma aligned_attempt_spec c i total is_last previous :
  attempt_spec generator c is_last (aligned_attempt generator c i total is_last previous).
Proof.
  intros st.
  exists (chunk_text c,
          ContinuationPrompt (i + 1) total (target_chunk_length c)
            (min_target_length c) (max_target_length c) (len (chunk_text c))
            previous (retry_instruction st)).
  split; [do 4 eexists; reflexivity|].
  cbn [fst snd]. unfold aligned_attempt, acceptable. split.
  - intros Hf. run_monad.
    destruct (generator _ _ _) as [out|e]; cbn in *.
    + unfold acceptable in Hf.
      destruct (len out <? min_target_length c); cbn in *.
      * destruct (percentage_diff _ _); cbn; eexists; (repeat split); reflexivity.
      * destruct (negb is_last && (max_target_length c <? len out));
          [|cbn in Hf; discriminate].
        destruct (percentage_diff _ _); cbn; eexists; (repeat split); reflexivity.
    + eexists; repeat split; reflexivity.
  - intros out Hg Hacc. run_monad. rewrite Hg. cbn.
    apply andb_true_iff in Hacc as [H1 H2].
    apply negb_true_iff in H1. apply negb_true_iff in H2.
    rewrite H1, H2. cbn. eexists; repeat split; reflexivity.
Qed.

Lemma fixed_attempt_spec c i total is_last previous :
  len (chunk_text c) < 2 ^ 53 ->
  attempt_spec generator c is_last (fixed_attempt generator c i total is_last previous).
Proof.
  intros Hlen st.
  exists (chunk_text c,
          ContinuationPrompt (i + 1) total (target_chunk_length c)
            (min_target_length c) (max_target_length c) (len (chunk_text c))
            previous NoNote).
  split; [do 4 eexists; reflexivity|].
  destruct (int_mul_below (len (chunk_text c)) 7205759403792794 (-53))
    as (v & Hv & _); [unfold len in *; lia|band_side..|].
  fold PyFloat.f0_8 in Hv.
  cbn [fst snd]. unfold fixed_attempt. split.
  - intros Hf. run_monad.
    destruct (generator _ _ _) as [out|e]; cbn in *.
    + rewrite Hv. unfold acceptable in Hf.
      destruct (len out <? min_target_length c); cbn in *.
      * eexists; (repeat split); reflexivity.
      * destruct (negb is_last && (max_target_length c <? len out));
          [|cbn in Hf; discriminate].
        eexists; (repeat split); reflexivity.
    + eexists; repeat split; reflexivity.
  - intros out Hg Hacc. run_monad. rewrite Hg. cbn. rewrite Hv.
    apply andb_true_iff in Hacc as [H1 H2].
    apply negb_true_iff in H1. apply negb_true_iff in H2.
    rewrite H1, H2. cbn. eexists; repeat split; reflexivity.
Qed.

(** The loop: some failed attempts, then either the retries are used up or
    an answer passed. *)
Lemma while_retrying_spec c is_last body :
  attempt_spec generator c is_last body ->
  forall fuel st,
    success st = false ->
    Z.of_nat fuel = Z.max 0 (max_retries - retries st) ->
    exists st' attempts,
      while_retrying max_retries fuel body st = (Ok tt, st') /\
      Forall (is_attempt_on c) attempts /\
      all_fail generator c is_last (length (log st)) attempts /\
      ((success st' = false /\
        log st' = log st ++ attempts /\
        processed_chunks st' = processed_chunks st /\
        length attempts = fuel)
       \/
       (success st' = true /\
        exists final out,
          log st' = log st ++ attempts ++ [final] /\
          processed_chunks st' = processed_chunks st ++ [out] /\
          (length attempts < fuel)%nat /\
          is_attempt_on c final /\
          generator (length (log st) + length attempts)%nat (fst final) (snd final)
            = Ok out /\
          acceptable c is_last out = true)).
Proof.
  intros Hbody fuel. induction fuel as [|fuel IH]; intros st Hs Hfuel.
  - exists st, []. cbn. repeat split; auto. left. rewrite app_nil_r. auto.
  - cbn [while_retrying]. unfold mbind at 1, M_bind at 1, get. cbn.
    rewrite Hs. cbn.
    replace (retries st <? max_retries) with true by (symmetry; apply Z.ltb_lt; lia).
    destruct (Hbody st) as (a & Ha & Hfail & Hok). cbn zeta in *.
    destruct (generator (length (log st)) a.1 a.2) as [out|e] eqn:Hg.
    + destruct (acceptable c is_last out) eqn:Hacc.
      * destruct (Hok out eq_refl Hacc) as (st1 & Hrun & Hlog & Hout & Hsucc).
        unfold mbind, M_bind. rewrite Hrun.
        destruct fuel as [|fuel']; cbn [while_retrying].
        -- exists st1, []. cbn. repeat split; auto. right. split; [auto|].
           exists a, out. rewrite Nat.add_0_r. repeat split; auto; lia.
        -- unfold mbind, M_bind, get. cbn. rewrite Hsucc. cbn.
           exists st1, []. repeat split; auto. right. split; [auto|].
           exists a, out. rewrite Nat.add_0_r. cbn. repeat split; auto; lia.
      * destruct (Hfail Hacc) as (st1 & Hrun & Hlog & Hout & Hsucc & Hret).
        unfold mbind, M_bind. rewrite Hrun.
        destruct (IH st1) as (st' & attempts & Hrun' & Hall & Hfails & Hcases);
          [congruence|lia|].
        exists st', (a :: attempts). split; [exact Hrun'|].
        split; [constructor; auto|]. split.
        { cbn. rewrite Hg. split; [exact Hacc|].
          rewrite Hlog, length_app in Hfails. cbn in Hfails.
          replace (S (length (log st))) with (length (log st) + 1)%nat by lia. exact Hfails. }
        destruct Hcases as [(H1 & H2 & H3 & H4) | (H1 & final & out' & H2 & H3 & H4 & H5 & H6 & H7)].
        -- left. repeat split; auto.
           ++ rewrite H2, Hlog, <- app_assoc. reflexivity.
           ++ congruence.
           ++ cbn. lia.
        -- right. split; [auto|]. exists final, out'. repeat split; auto.
           ++ rewrite H2, Hlog, <- app_assoc. reflexivity.
           ++ congruence.
           ++ cbn. lia.
           ++ rewrite <- H6. f_equal. rewrite Hlog, length_app. cbn. lia.
    + destruct (Hfail I) as (st1 & Hrun & Hlog & Hout & Hsucc & Hret).
      unfold mbind, M_bind. rewrite Hrun.
      destruct (IH st1) as (st' & attempts & Hrun' & Hall & Hfails & Hcases);
        [congruence|lia|].
      exists st', (a :: attempts). split; [exact Hrun'|].
      split; [constructor; auto|]. split.
      { cbn. rewrite Hg. split; [exact I|].
        rewrite Hlog, length_app in Hfails. cbn in Hfails.
        replace (S (length (log st))) with (length (log st) + 1)%nat by lia. exact Hfails. }
      destruct Hcases as [(H1 & H2 & H3 & H4) | (H1 & final & out' & H2 & H3 & H4 & H5 & H6 & H7)].
      * left. repeat split; auto.
        -- rewrite H2, Hlog, <- app_assoc. reflexivity.
        -- congruence.
        -- cbn. lia.
      * right. split; [auto|]. exists final, out'. repeat split; auto.
        -- rewrite H2, Hlog, <- app_assoc. reflexivity.
        -- congruence.
        -- cbn. lia.
        -- rewrite <- H6. f_equal. rewrite Hlog, length_app. cbn. lia.
Qed.

Lemma aligned_fallback_spec c :
  0 <= target_chunk_length c < 2 ^ 53 ->
  fallback_spec generator c (aligned_fallback generator scaling_factor c).
Proof.
  intros Ht st.
  destruct (target_range_spec scaling_factor (target_chunk_length c) Ht)
    as (lo & hi & Hr & _).
  unfold aligned_fallback, create_simplified_fallback_prompt.
  run_monad. rewrite Hr. cbn.
  destruct (generator _ _ _) as [out|e] eqn:Hg; cbn.
  - do 3 eexists. split; [do 4 eexists; reflexivity|].
    split; [reflexivity|]. cbn. repeat split. left. exact Hg.
  - do 3 eexists. split; [do 4 eexists; reflexivity|].
    split; [reflexivity|]. cbn. repeat split. right. rewrite Hg. eauto.
Qed.

Lemma fixed_fallback_spec c :
  0 <= target_chunk_length c < 2 ^ 53 ->
  fallback_spec generator c (fixed_fallback generator scaling_factor c).
Proof.
  intros Ht st.
  destruct (target_range_spec scaling_factor (target_chunk_length c) Ht)
    as (lo & hi & Hr & _).
  unfold fixed_fallback, create_simplified_fallback_prompt.
  run_monad. rewrite Hr. cbn.
  destruct (generator _ _ _) as [out|e] eqn:Hg; cbn.
  - do 3 eexists. split; [do 4 eexists; reflexivity|].
    split; [reflexivity|]. cbn. repeat split. left. exact Hg.
  - do 3 eexists. split; [do 4 eexists; reflexivity|].
    split; [reflexivity|]. cbn. repeat split. right. rewrite Hg. eauto.
Qed.

Lemma previous_context_runs i st :
  Z.of_nat (length (processed_chunks st)) = i ->
  exists previous, previous_context i st = (Ok previous, st).
Proof.
  intros Hi. unfold previous_context.
  destruct (i =? 0) eqn:E; [eexists; reflexivity|].
  run_monad.
  destruct (last (processed_chunks st)) eqn:El; [eexists; reflexivity|].
  apply last_None in El. rewrite El in Hi. cbn in Hi. lia.
Qed.

Lemma chunk_body_spec c is_last (attempt : option str -> M unit) fallback i st :
  (forall previous, attempt_spec generator c is_last (attempt previous)) ->
  fallback_spec generator c fallback ->
  Z.of_nat (length (processed_chunks st)) = i ->
  exists st',
    (previous ← previous_context i;
     reset_locals;;
     while_retrying max_retries (Z.to_nat max_retries) (attempt previous);;
     st ← get;
     if negb (success st) then fallback else mret tt) st = (Ok tt, st') /\
    chunk_outcome generator max_retries c is_last st st'.
Proof.
  intros Hatt Hfb Hi.
  destruct (previous_context_runs i st Hi) as [previous Hprev].
  unfold mbind at 1, M_bind at 1. rewrite Hprev.
  unfold mbind at 1, M_bind at 1.
  set (st0 := {| log := log st; processed_chunks := processed_chunks st;
                 success := false; retries := 0; processed_chunk := None;
                 retry_instruction := NoNote;
                 prompt_corrections := prompt_corrections st |}).
  assert (Hreset : reset_locals st = (Ok tt, st0)) by reflexivity.
  rewrite Hreset.
  destruct (while_retrying_spec c is_last (attempt previous) (Hatt previous)
              (Z.to_nat max_retries) st0 eq_refl ltac:(cbn; lia))
    as (st1 & attempts & Hrun & Hall & Hfails & Hcases).
  unfold mbind at 1, M_bind at 1. rewrite Hrun.
  unfold mbind at 1, M_bind at 1, get.
  destruct Hcases as [(H1 & H2 & H3 & H4) | (H1 & final & out & H2 & H3 & H4 & H5 & H6 & H7)].
  - rewrite H1. cbn [negb].
    destruct (Hfb st1) as (final & st' & out & Hfinal & Hrunf & Hlog & Hout & Hr).
    exists st'. split; [exact Hrunf|].
    exists attempts, final, out. cbn [log processed_chunks] in *.
    split; [rewrite Hlog, H2, <- app_assoc; reflexivity|].
    split; [rewrite Hout, H3; reflexivity|].
    split; [exact Hall|]. split; [exact Hfails|].
    right. split; [lia|]. split; [exact Hfinal|].
    cbn zeta in Hr. rewrite H2, length_app in Hr. exact Hr.
  - rewrite H1. cbn [negb].
    exists st1. split; [reflexivity|].
    exists attempts, final, out. cbn [log processed_chunks] in *.
    repeat split; auto. left. repeat split; auto. lia.
Qed.

(** The body of the chapter-aligned loop at the first chunk: the look-up of
    the missing method raises before the attempts start. *)
Lemma aligned_chunk_raises c total st :
  aligned_chunk generator max_retries scaling_factor c 0 total st
  = (Raise (AttributeError (s "_create_chapter_instructions")), st).
Proof. reflexivity. Qed.

Lemma fixed_chunk_spec c i total st :
  0 <= target_chunk_length c < 2 ^ 53 ->
  len (chunk_text c) < 2 ^ 53 ->
  Z.of_nat (length (processed_chunks st)) = i ->
  exists st',
    fixed_chunk generator max_retries scaling_factor c i total st = (Ok tt, st') /\
    chunk_outcome generator max_retries c (i =? total - 1) st st'.
Proof.
  intros Ht Hl Hi. unfold fixed_chunk.
  apply (chunk_body_spec c (i =? total - 1)
           (fixed_attempt generator c i total (i =? total - 1))
           (fixed_fallback generator scaling_factor c)).
  - intros previous. apply fixed_attempt_spec, Hl.
  - apply fixed_fallback_spec, Ht.
  - exact Hi.
Qed.

Lemma chunk_outcome_one_output c is_last st st' :
  chunk_outcome generator max_retries c is_last st st' ->
  length (processed_chunks st') = S (length (processed_chunks st)).
Proof.
  intros (attempts & final & out & _ & Hout & _). rewrite Hout, length_app. cbn. lia.
Qed.

Lemma for_each_spec (body : chunk -> Z -> M unit) total (P : chunk -> Prop) :
  (forall c i st, P c -> Z.of_nat (length (processed_chunks st)) = i ->
     exists st', body c i st = (Ok tt, st') /\
       chunk_outcome generator max_retries c (i =? total - 1) st st') ->
  forall chunks i st,
    Forall P chunks ->
    Z.of_nat (length (processed_chunks st)) = i ->
    exists st',
      for_each body chunks i st = (Ok tt, st') /\
      job_outcome generator max_retries chunks i total st st' /\
      length (processed_chunks st')
        = (length (processed_chunks st) + length chunks)%nat.
Proof.
  intros Hbody chunks. induction chunks as [|c rest IH]; intros i st HP Hi.
  - exists st. cbn. repeat split; auto.
  - inversion HP as [|? ? Hc Hrest]; subst.
    destruct (Hbody c _ st Hc eq_refl) as (st1 & Hrun & Hout).
    pose proof (chunk_outcome_one_output _ _ _ _ Hout) as Hlen.
    destruct (IH (Z.of_nat (length (processed_chunks st)) + 1) st1 Hrest ltac:(lia))
      as (st' & Hrun' & Hjob & Hlen').
    exists st'. cbn [for_each job_outcome].
    unfold mbind at 1, M_bind at 1. rewrite Hrun. split; [exact Hrun'|].
    split; [exists st1; auto|]. rewrite Hlen'. cbn. lia.
Qed.
End RetryLoops.

(** C1 (the code at a failing input).  The chapter-aligned loop calls
    [self._create_chapter_instructions(chunk)] for every chunk, before the
    attempts and outside any [try], and the class has no method of that
    name.  So a chapter-aligned job over a list of at least one chunk, here
    the three chunks "first", "bad" and "third", raises [AttributeError] at
    its first chunk: the state is the one the job started in, no call has
    reached the generator and no output has been appended, so no chunk gets
    an attempt, the simplified fallback or the failure notice.  The
    fixed-size loop, at the same input, returns with one output per chunk,
    in order, the chunk the generator refuses being kept under the notice. *)
Theorem chapter_aligned_job_raises_at_first_chunk :
  (forall (generator : nat -> str -> Rewriter.prompt -> result str)
          (max_retries : Z) (scaling_factor : PyFloat.float)
          (c : Rewriter.chunk) (rest : list Rewriter.chunk) (st : Rewriter.state),
     Rewriter.aligned_chunks generator max_retries scaling_factor (c :: rest) st
     = (Raise (AttributeError (s "_create_chapter_instructions")), st)) /\
  Rewriter.aligned_chunks echo_generator 3 PyFloat.f1_0 three_chunks
    Rewriter.initial_state
  = (Raise (AttributeError (s "_create_chapter_instructions")),
     Rewriter.initial_state) /\
  let run :=
    Rewriter.fixed_chunks echo_generator 3 PyFloat.f1_0 three_chunks
      Rewriter.initial_state in
  fst run = Ok tt /\
  Rewriter.processed_chunks (snd run) =
    [s "first";
     s "[Processing failed for this section. Original content preserved.]"
       ++ [NL; NL] ++ s "bad";
     s "third"].
Proof.
  split; [|split; [reflexivity|vm_compute; split; reflexivity]].
  intros generator max_retries scaling_factor c rest st.
  unfold Rewriter.aligned_chunks. cbn [Rewriter.for_each].
  unfold mbind at 1, Rewriter.M_bind at 1.
  rewrite aligned_chunk_raises. reflexivity.
Qed.

(** X22.  In the fixed-size path, a job over any list of chunks (with targets
    and texts below 2^53 characters) returns without raising, whatever the
    generator answers, and [job_outcome] holds of its run: chunk by chunk, in
    order, some failed attempts, one final call and exactly one appended
    output; when all [max_retries] attempts fail, the final call is the one
    simplified-fallback generation, with the chunk's own target length, and
    if that raises too, the output is the text "[Processing failed for this
    section. Original content preserved.]", a blank line and the chunk's
    text.  So there are as many outputs as chunks. *)
Theorem fixed_chunks_one_output_per_chunk
    (generator : nat -> str -> Rewriter.prompt -> result str)
    (max_retries : Z) (scaling_factor : PyFloat.float)
    (chunks : list Rewriter.chunk) (st : Rewriter.state) :
  Rewriter.processed_chunks st = [] ->
  Forall (fun c => 0 <= Rewriter.target_chunk_length c < 2 ^ 53 /\
                   len (Rewriter.chunk_text c) < 2 ^ 53) chunks ->
  exists st',
    Rewriter.fixed_chunks generator max_retries scaling_factor chunks st
      = (Ok tt, st') /\
    Rewriter.job_outcome generator max_retries chunks 0 (len_list chunks) st st' /\
    length (Rewriter.processed_chunks st') = length chunks.
Proof.
  intros Hnil Hchunks.
  destruct (for_each_spec generator max_retries
              (fun c i => Rewriter.fixed_chunk generator max_retries scaling_factor
                            c i (len_list chunks))
              (len_list chunks)
              (fun c => 0 <= Rewriter.target_chunk_length c < 2 ^ 53 /\
                        len (Rewriter.chunk_text c) < 2 ^ 53)) with
    (chunks := chunks) (i := 0) (st := st) as (st' & Hrun & Hjob & Hlen).
  - intros c i st0 [Ht Hl] Hi. apply fixed_chunk_spec; assumption.
  - exact Hchunks.
  - rewrite Hnil. reflexivity.
  - exists st'. rewrite Hnil in Hlen. auto.
Qed.

Lemma fixed_chunks_one_output_per_chunk_witness :
  exists st',
    Rewriter.fixed_chunks failing_generator 3 PyFloat.f1_0 three_chunks
      Rewriter.initial_state = (Ok tt, st') /\
    Rewriter.job_outcome failing_generator 3 three_chunks 0 (len_list three_chunks)
      Rewriter.initial_state st' /\
    length (Rewriter.processed_chunks st') = length three_chunks.
Proof.
  apply (fixed_chunks_one_output_per_chunk failing_generator 3 PyFloat.f1_0
           three_chunks Rewriter.initial_state).
  - reflexivity.
  - repeat constructor; vm_compute; congruence.
Defined.

(** Scenario D: the generator raises on one chunk only; that chunk comes out
    as its source under the notice, after three attempts and one fallback
    call, and the others are accepted at the first attempt. *)
Example one_failing_chunk_is_preserved :
  exists st',
    Rewriter.fixed_chunks echo_generator 3 PyFloat.f1_0 three_chunks
      Rewriter.initial_state = (Ok tt, st') /\
    Rewriter.processed_chunks st' =
      [s "first";
       s "[Processing failed for this section. Original content preserved.]"
         ++ [NL; NL] ++ s "bad";
       s "third"] /\
    map Rewriter.is_fallback_call (Rewriter.log st') =
      [false; false; false; false; true; false].
Proof. eexists. split; [vm_compute; reflexivity|]. vm_compute. split; reflexivity. Qed.

(** ** The upper bound and the last span *)

(** The two chunk paths test the upper bound on every chunk but the last. *)
Lemma last_chunk_is_exempt_from_maximum (c : Rewriter.chunk) (out : str) :
  Rewriter.acceptable c true out = negb (len out <? Rewriter.min_target_length c) /\
  Rewriter.acceptable c false out =
    negb (len out <? Rewriter.min_target_length c)
    && negb (Rewriter.max_target_length c <? len out).
Proof. unfold Rewriter.acceptable. cbn. rewrite andb_true_r. split; reflexivity. Qed.

Lemma expansion_band :
  LengthPlanner.int_mul Expansion.max_chapter_size PyFloat.f0_7 = Ok 10500 /\
  LengthPlanner.int_mul Expansion.max_chapter_size PyFloat.f1_7 = Ok 25500.
Proof. vm_compute. split; reflexivity. Qed.

(** The expansion path has no such exemption: an answer longer than 25500
    characters fails the attempt on any segment, the last included. *)
Lemma expansion_attempt_rejects_long_output
    (generator : nat -> str -> Rewriter.prompt -> result str)
    (segment_text : str) (chapter_num : Z) (previous : option str)
    (st : Rewriter.state) (out : str) :
  generator (length (Rewriter.log st)) segment_text
    (Rewriter.ExpansionPrompt chapter_num Expansion.max_chapter_size
       (Rewriter.prompt_corrections st) previous) = Ok out ->
  25500 < len out ->
  exists st',
    Rewriter.expansion_attempt generator segment_text chapter_num previous st
      = (Ok tt, st') /\
    Rewriter.success st' = Rewriter.success st /\
    Rewriter.retries st' = Rewriter.retries st + 1 /\
    Rewriter.prompt_corrections st' =
      Rewriter.prompt_corrections st
        ++ [Rewriter.RemoveCharacters (len out) (len out - 25500) 25500].
Proof.
  intros Hg Hlong. destruct expansion_band as [Hlo Hhi].
  unfold Rewriter.expansion_attempt, Rewriter.try_except.
  unfold mbind, Rewriter.M_bind, mret, Rewriter.M_ret, Rewriter.get, Rewriter.lift,
    Rewriter.process_llm. cbn. rewrite Hg. cbn. rewrite Hlo. cbn. rewrite Hhi. cbn.
  replace (len out <? 10500) with false by (symmetry; apply Z.ltb_ge; lia).
  replace (25500 <? len out) with true by (symmetry; apply Z.ltb_lt; lia).
  cbn. eexists. repeat split; reflexivity.
Qed.

(** C5 (the code at a failing input).  An expansion job of one segment, which
    is the last span of the job, whose generator answers every call with
    25501 characters: the answer is rejected for its length each time, the
    three attempts are all made, each after the first with one more request
    to remove characters, and the last answer is used all the same.  The
    master document is the outline of one chapter, without a brace, and no
    prompt component is configured, so the prompt is built without an
    exception, whatever Python does with fields that are more than a name. *)
Theorem expansion_retries_last_span_for_maximum
    (render_field : str -> str -> option ascii -> result str -> result str) :
  let transcript_text := repeat "a"%char (Z.to_nat 5000) in
  let run :=
    Rewriter.expansion_job long_winded_generator 3 render_field
      one_chapter_outline no_components transcript_text 12000
      Rewriter.initial_state in
  Expansion.segment_ranges transcript_text 12000 = Ok [(1, 0, 5000)] /\
  fst run = Ok tt /\
  map snd (Rewriter.log (snd run)) =
    [Rewriter.ExpansionPrompt 1 15000 [] None;
     Rewriter.ExpansionPrompt 1 15000
       [Rewriter.RemoveCharacters 25501 1 25500] None;
     Rewriter.ExpansionPrompt 1 15000
       [Rewriter.RemoveCharacters 25501 1 25500;
        Rewriter.RemoveCharacters 25501 1 25500] None] /\
  Rewriter.success (snd run) = false /\
  map len (Rewriter.processed_chunks (snd run)) = [25501].
Proof. vm_compute. repeat split; reflexivity. Qed.

(** ** The final trim and the choice of path *)

(** C2.  The final trim gives the text back unchanged when it is no longer
    than the expected length plus 50000 characters, and also when fewer than
    two chapter headings are found in it; so trimming such a text again
    changes nothing either. *)
Theorem final_trim_within_ceiling_is_noop (expected_length : Z) (text : str) :
  len text <= expected_length + 50000 \/
  (length (Re.finditer Orchestrator.chapter_heading text) < 2)%nat ->
  Orchestrator.final_trim expected_length text = text /\
  Orchestrator.final_trim expected_length
    (Orchestrator.final_trim expected_length text) = text.
Proof.
  intros H.
  assert (Hone : Orchestrator.final_trim expected_length text = text).
  { unfold Orchestrator.final_trim.
    destruct (expected_length + 50000 <? len text) eqn:Hlen; [|reflexivity].
    destruct (1 <? length (Re.finditer Orchestrator.chapter_heading text))%nat eqn:Hn;
      [|reflexivity].
    apply Z.ltb_lt in Hlen. apply Nat.ltb_lt in Hn. lia. }
  split; [exact Hone|]. rewrite Hone. exact Hone.
Qed.

Lemma final_trim_within_ceiling_is_noop_witness :
  Orchestrator.final_trim 10 (s "Chapter 1
one
Chapter 2
two") = s "Chapter 1
one
Chapter 2
two" /\
  Orchestrator.final_trim 10
    (Orchestrator.final_trim 10 (s "Chapter 1
one
Chapter 2
two")) = s "Chapter 1
one
Chapter 2
two".
Proof.
  apply (final_trim_within_ceiling_is_noop 10).
  left. vm_compute. discriminate.
Defined.

Example final_trim_drops_trailing_chapters :
  Orchestrator.final_trim (-49990) (s "Chapter 1
one
Chapter 2
two
Chapter 3
three") = s "Chapter 1
one
" /\
  Orchestrator.final_trim (-49990) (s "no heading in a text that is too long")
  = s "no heading in a text that is too long".
Proof. vm_compute. split; reflexivity. Qed.

(** C4.  [process] takes exactly one of three paths: the expansion path
    exactly when the scaling factor is above 1.0; otherwise the
    chapter-aligned path exactly when chapter-aligned chunking is on and the
    master document parses to at least one chapter; otherwise the fixed-size
    path, which is where a master document that gives no chapter in either
    pass ends up. *)
Theorem process_path_selection (scaling_factor : PyFloat.float)
    (use_chapter_aligned_chunking : bool) (master_document : str) :
  let p := Orchestrator.process_path scaling_factor use_chapter_aligned_chunking
             master_document in
  let expanding := PyFloat.ltb PyFloat.f1_0 scaling_factor in
  let chapters := StructureIndex._parse_master_document master_document in
  (p = Orchestrator.ExpansionPath <-> expanding = true) /\
  (p = Orchestrator.ChapterAlignedPath <->
     expanding = false /\ use_chapter_aligned_chunking = true /\ chapters <> []) /\
  (p = Orchestrator.FixedSizePath <->
     expanding = false /\ (use_chapter_aligned_chunking = false \/ chapters = [])) /\
  (StructureIndex.primary_chapters master_document = [] ->
   StructureIndex.fallback_chapters master_document = [] ->
   expanding = false ->
   p = Orchestrator.FixedSizePath).
Proof.
  cbv zeta. unfold Orchestrator.process_path, Orchestrator.chapter_aligned_or_fallback,
    StructureIndex._parse_master_document.
  destruct (PyFloat.ltb PyFloat.f1_0 scaling_factor);
    destruct use_chapter_aligned_chunking;
    destruct (StructureIndex.primary_chapters master_document) as [|c l];
    destruct (StructureIndex.fallback_chapters master_document) as [|c' l'];
    repeat split; intros; try discriminate; try congruence; auto;
    repeat match goal with
           | H : _ /\ _ |- _ => destruct H
           | H : _ \/ _ |- _ => destruct H
           end; try discriminate; try congruence.
Qed.

Lemma process_path_selection_witness :
  Orchestrator.process_path (Orchestrator.scaling_factor 10000 10000) true
    (s "An outline with no heading the parser knows.")
  = Orchestrator.FixedSizePath.
Proof.
  apply (process_path_selection (Orchestrator.scaling_factor 10000 10000) true
           (s "An outline with no heading the parser knows."));
    vm_compute; reflexivity.
Defined.

Example process_path_examples :
  Orchestrator.process_path (Orchestrator.scaling_factor 5000 50000) true [] =
    Orchestrator.ExpansionPath /\
  Orchestrator.process_path (Orchestrator.scaling_factor 10000 10000) true
    (s "Chapter 1: Introduction (0-5000 characters)

This chapter introduces the main concepts.") = Orchestrator.ChapterAlignedPath /\
  Orchestrator.process_path (Orchestrator.scaling_factor 10000 10000) false
    (s "Chapter 1: Introduction (0-5000 characters)

This chapter introduces the main concepts.") = Orchestrator.FixedSizePath /\
  Orchestrator.process_path (Orchestrator.scaling_factor 0 10000) false [] =
    Orchestrator.FixedSizePath.
Proof. vm_compute. repeat split; reflexivity. Qed.

(** ** The matcher on texts of a known shape *)

Section MatcherFacts.

Import Re.

Local Open Scope nat_scope.























(** *** Character classes *)




(** *** The pieces of [chapter_pattern] *)

Import StructureIndex.






(** *** Where a heading starts and where it does not *)













(** *** [finditer] over a document of blocks *)














End MatcherFacts.

(** ** Sorting by a key *)

Section SortBy.
Context {A : Type} (key : A -> Z).

Lemma insert_by_perm x l : insert_by key x l ≡ₚ x :: l.
Proof.
  induction l as [|y l IH]; cbn; [reflexivity|].
  destruct (key x <=? key y); [reflexivity|].
  rewrite IH. apply perm_swap.
Qed.

Lemma sort_by_perm l : sort_by key l ≡ₚ l.
Proof.
  induction l as [|x l IH]; cbn; [reflexivity|].
  change (foldr (insert_by key) [] l) with (sort_by key l).
  rewrite insert_by_perm, IH. reflexivity.
Qed.

Lemma sort_by_length l : length (sort_by key l) = length l.
Proof. apply Permutation_length, sort_by_perm. Qed.

Lemma insert_by_sorted x l :
  Sorted Z.le (map key l) -> Sorted Z.le (map key (insert_by key x l)).
Proof.
  induction l as [|y l IH]; cbn; intros H.
  - repeat constructor.
  - destruct (Z.leb_spec (key x) (key y)) as [Hle|Hgt]; cbn.
    + constructor; [exact H|]. constructor. exact Hle.
    + apply Sorted_inv in H as [Hs Hhd]. constructor; [apply IH, Hs|].
      destruct l as [|y' l]; cbn.
      * constructor. lia.
      * destruct (key x <=? key y'); cbn; constructor; [lia|].
        apply HdRel_inv in Hhd. exact Hhd.
Qed.

Lemma sort_by_sorted l : Sorted Z.le (map key (sort_by key l)).
Proof.
  induction l as [|x l IH]; cbn; [constructor|].
  apply insert_by_sorted, IH.
Qed.

End SortBy.

(** ** The structure index of a well-formed master document *)

Section StructureIndexFacts.
Import StructureIndex.




Example parse_master_document_example :
  map summary (_parse_master_document (render_blocks [background_block; introduction_block]))
  = [(1, s "Introduction", s "This chapter introduces the main concepts.");
     (2, s "Historical Background", s "This chapter covers history.")].
Proof. vm_compute. reflexivity. Qed.

End StructureIndexFacts.

(** ** Division of two lengths *)

Lemma loc_of_shr_record_of_loc m l :
  loc_of_shr_record (shr_record_of_loc m l) = l /\ shr_m (shr_record_of_loc m l) = m.
Proof. destruct l as [|[]]; split; reflexivity. Qed.

Lemma shr_fexp_any p E l k :
  0 <= k -> 2 ^ (52 + k) <= Zpos p < 2 ^ (53 + k) -> -1074 <= E + k ->
  shr_m (fst (shr_fexp 53 1024 (Zpos p) E l)) = Zpos p / 2 ^ k /\
  snd (shr_fexp 53 1024 (Zpos p) E l) = E + k.
Proof.
  intros Hk Hp He. unfold shr_fexp. simpl Zdigits2.
  rewrite (digits2_pos_unique p (53 + k))
    by (replace (53 + k - 1) with (52 + k) by lia; exact Hp).
  rewrite fexp64 by lia.
  replace (53 + k + E - 53 - E) with k by lia.
  unfold shr. destruct k as [|k|k]; [| |lia].
  - simpl. rewrite Z.div_1_r. split; [apply loc_of_shr_record_of_loc|lia].
  - simpl fst. simpl snd. split; [|reflexivity].
    rewrite iter_pos_shr_1_m; destruct (loc_of_shr_record_of_loc (Zpos p) l) as [_ ->];
      [reflexivity|lia].
Qed.

(** Rounding a quotient of 53 or 54 bits gives a finite float. *)
Lemma binary_round_aux_finite p E l :
  2 ^ 52 <= Zpos p < 2 ^ 54 -> -1074 <= E <= 900 ->
  exists m e, binary_round_aux 53 1024 false (Zpos p) E l = S754_finite false m e.
Proof.
  intros Hp HE. unfold binary_round_aux.
  assert (Hk : exists k, 0 <= k <= 1 /\ 2 ^ (52 + k) <= Zpos p < 2 ^ (53 + k)).
  { destruct (Z_lt_ge_dec (Zpos p) (2 ^ 53)); [exists 0|exists 1]; simpl in *; lia. }
  destruct Hk as (k & Hk & Hpk).
  destruct (shr_fexp_any p E l k ltac:(lia) Hpk ltac:(lia)) as [Hm He].
  destruct (shr_fexp 53 1024 (Zpos p) E l) as [mrs' e'] eqn:E1. simpl in Hm, He. subst e'.
  pose proof (round_nearest_even_range (shr_m mrs') (loc_of_shr_record mrs')) as Hr.
  set (m1 := round_nearest_even (shr_m mrs') (loc_of_shr_record mrs')) in *.
  assert (HM : 2 ^ 52 <= shr_m mrs' < 2 ^ 53).
  { rewrite Hm. destruct Hk as [Hk0 Hk1].
    assert (k = 0 \/ k = 1) as [->| ->] by lia.
    - simpl (2 ^ 0). rewrite Z.div_1_r. simpl in Hpk. lia.
    - simpl (2 ^ 1). simpl in Hpk. split.
      + apply Z.div_le_lower_bound; lia.
      + apply Z.div_lt_upper_bound; lia. }
  destruct m1 as [|p1|p1] eqn:Em1; [lia| |lia].
  assert (Hk' : exists k', 0 <= k' <= 1 /\ 2 ^ (52 + k') <= Zpos p1 < 2 ^ (53 + k')).
  { destruct (Z_lt_ge_dec (Zpos p1) (2 ^ 53)); [exists 0|exists 1]; simpl in *; lia. }
  destruct Hk' as (k' & Hk' & Hpk').
  destruct (shr_fexp_exact_m p1 (E + k) k' ltac:(lia) Hpk' ltac:(lia)) as [Hm' He'].
  destruct (shr_fexp 53 1024 (Zpos p1) (E + k) loc_Exact) as [mrs'' e''] eqn:E2.
  simpl in Hm', He'. subst e''.
  assert (HM' : 2 ^ 52 <= shr_m mrs'').
  { rewrite Hm'. assert (k' = 0 \/ k' = 1) as [->| ->] by lia.
    - simpl (2 ^ 0). rewrite Z.div_1_r. simpl in Hpk'. lia.
    - simpl (2 ^ 1). simpl in Hpk'. apply Z.div_le_lower_bound; lia. }
  destruct (shr_m mrs'') as [|p2|p2]; [simpl in HM'; lia| |lia].
  replace (E + k + k' <=? 1024 - 53) with true by (symmetry; apply Z.leb_le; lia).
  eauto.
Qed.

Lemma div_of_int_finite a b :
  0 < a < 2 ^ 53 -> 0 < b < 2 ^ 53 ->
  exists m e, PyFloat.div (PyFloat.of_int a) (PyFloat.of_int b) = S754_finite false m e.
Proof.
  intros Ha Hb.
  destruct (of_int_normal a Ha) as (mx & ex & -> & Hex & _ & Hmx).
  destruct (of_int_normal b Hb) as (my & ey & -> & Hey & _ & Hmy).
  unfold PyFloat.div, PyFloat.prec, PyFloat.emax, SFdiv, SFdiv_core_binary. simpl Zdigits2.
  rewrite (digits2_pos_unique mx 53), (digits2_pos_unique my 53) by (simpl; lia).
  rewrite fexp64 by lia.
  replace (Z.min (53 + ex - (53 + ey) - 53) (ex - ey)) with (ex - ey - 53) by lia.
  replace (ex - ey - (ex - ey - 53)) with 53 by lia.
  rewrite Z.shiftl_mul_pow2 by lia.
  pose proof (Z_div_mod (Zpos mx * 2 ^ 53) (Zpos my) ltac:(lia)) as Hdm.
  destruct (Z.div_eucl (Zpos mx * 2 ^ 53) (Zpos my)) as [q r].
  destruct Hdm as [Hq Hr]. simpl xorb.
  assert (Hq52 : 2 ^ 52 <= q < 2 ^ 54).
  { change (2 ^ 53) with (2 * 2 ^ 52) in *. change (2 ^ 54) with (4 * 2 ^ 52).
    set (T := 2 ^ 52) in *. assert (0 < T) by (unfold T; lia). split; nia. }
  destruct q as [|pq|pq]; [simpl in Hq52; lia| |lia].
  apply binary_round_aux_finite; [exact Hq52|lia].
Qed.

(** [round(a / b)] for a length [a] and a positive size [b], both below
    2^53, is an int, and it is not negative. *)
Lemma round_truediv_total a b :
  0 <= a < 2 ^ 53 -> 0 < b < 2 ^ 53 ->
  exists q r, PyFloat.int_truediv a b = Some q /\ PyFloat.round q = Some r /\ 0 <= r.
Proof.
  intros Ha Hb. unfold PyFloat.int_truediv.
  destruct (Z.eqb_spec b 0) as [|_]; [lia|].
  exists (PyFloat.div (PyFloat.of_int a) (PyFloat.of_int b)).
  destruct (Z.eq_dec a 0) as [->|Hne].
  - destruct (of_int_normal b Hb) as (my & ey & Hy & _). rewrite Hy.
    exists 0. split; [reflexivity|]. split; [reflexivity|lia].
  - destruct (div_of_int_finite a b ltac:(lia) Hb) as (m & e & Hd). rewrite Hd.
    unfold PyFloat.round. destruct (0 <=? e).
    + eexists. split; [reflexivity|]. split; [reflexivity|]. simpl cond_Zopp.
      apply Z.shiftl_nonneg. lia.
    + eexists. split; [reflexivity|]. split; [reflexivity|]. simpl cond_Zopp.
      assert (0 <= Z.shiftl (Zpos m) e) by (apply Z.shiftl_nonneg; lia).
      destruct (match _ ?= _ with Lt => false | Gt => true | Eq => _ end); lia.
Qed.

(** ** The matcher only moves forward *)

Section MatcherOrder.
Import Re.
Local Open Scope nat_scope.

Lemma extends_refl st : extends st st.
Proof. split; reflexivity. Qed.

Lemma extends_trans st1 st2 st3 : extends st1 st2 -> extends st2 st3 -> extends st1 st3.
Proof. unfold extends. intros [? ?] [? ?]. split; lia. Qed.

Lemma star_extends greedy (body : cont -> cont) k :
  (forall k' st res, body k' st = Some res -> exists st1, extends st st1 /\ k' st1 = Some res) ->
  forall fuel st res, star greedy body k fuel st = Some res ->
    exists st1, extends st st1 /\ k st1 = Some res.
Proof.
  intros Hbody. induction fuel as [|fuel IH]; intros st res H; cbn [star] in H.
  - exists st. split; [apply extends_refl|exact H].
  - assert (Hagain : forall res',
              body (fun st' => if pos st <? pos st' then star greedy body k fuel st'
                               else k st') st = Some res' ->
              exists st1, extends st st1 /\ k st1 = Some res').
    { intros res' Ha. apply Hbody in Ha as (st1 & Hext & Hk1).
      destruct (pos st <? pos st1); [|eauto].
      apply IH in Hk1 as (st2 & Hext2 & Hk2).
      exists st2. split; [eapply extends_trans; eassumption|exact Hk2]. }
    destruct greedy.
    + destruct (body _ st) as [x|] eqn:Ea.
      * injection H as <-. apply Hagain. reflexivity.
      * exists st. split; [apply extends_refl|exact H].
    + destruct (k st) as [x|] eqn:Ek.
      * injection H as <-. exists st. split; [apply extends_refl|exact Ek].
      * apply Hagain, H.
Qed.

Lemma m_extends r : forall k st res,
  m r k st = Some res -> exists st1, extends st st1 /\ k st1 = Some res.
Proof.
  induction r as [|p|r1 IH1 r2 IH2|r1 IH1 r2 IH2|greedy r IH|n r IH|r IH| | |];
    intros k st res H; cbn [m] in H.
  - exists st. split; [apply extends_refl|exact H].
  - destruct (rest st) as [|c tl] eqn:Er; [discriminate|].
    destruct (p c); [|discriminate].
    exists (advance c tl st). split; [|exact H].
    unfold extends, advance. cbn. rewrite Er. cbn. lia.
  - apply IH1 in H as (st1 & Hext1 & H). apply IH2 in H as (st2 & Hext2 & H).
    exists st2. split; [eapply extends_trans; eassumption|exact H].
  - destruct (m r1 k st) as [x|] eqn:E1.
    + injection H as <-. apply IH1, E1.
    + apply IH2, H.
  - eapply star_extends; [|exact H]. intros k' st' res'. apply IH.
  - apply IH in H as (st1 & Hext & H).
    exists (set_cap n (pos st) (pos st1) st1). split; [exact Hext|exact H].
  - destruct (m r Some st); [discriminate|].
    exists st. split; [apply extends_refl|exact H].
  - destruct (at_line_start st); [|discriminate].
    exists st. split; [apply extends_refl|exact H].
  - destruct (rest st); [|discriminate].
    exists st. split; [apply extends_refl|exact H].
  - destruct (at_word_boundary st); [|discriminate].
    exists st. split; [apply extends_refl|exact H].
Qed.

Lemma match_at_span r st x :
  match_at r st = Some x ->
  m_start x = pos st /\ pos st <= m_end x <= pos st + length (rest st).
Proof.
  unfold match_at. destruct (m r Some st) as [st'|] eqn:E; [|discriminate].
  intros H. injection H as <-. cbn.
  apply m_extends in E as (st1 & [H1 H2] & E). injection E as ->.
  split; [reflexivity|lia].
Qed.

Lemma step_over_extends st st' :
  step_over st = Some st' ->
  pos st' = S (pos st) /\ pos st' + length (rest st') = pos st + length (rest st).
Proof.
  unfold step_over. destruct (rest st) as [|c tl] eqn:E; [discriminate|].
  intros H. injection H as <-. cbn. lia.
Qed.

Lemma skip_extends k : forall st,
  k <= length (rest st) ->
  pos (skip k st) = pos st + k /\
  pos (skip k st) + length (rest (skip k st)) = pos st + length (rest st).
Proof.
  induction k as [|k IH]; intros st Hk; cbn [skip]; [lia|].
  destruct (step_over st) as [st'|] eqn:E.
  - apply step_over_extends in E as [E1 E2].
    destruct (IH st' ltac:(lia)) as [H1 H2]. lia.
  - unfold step_over in E. destruct (rest st); [cbn in Hk; lia|discriminate].
Qed.

Lemma in_order_weaken from from' n l :
  from <= from' -> in_order from' n l -> in_order from n l.
Proof. destruct l as [|x l]; cbn; [auto|]. intros ? (? & ? & ? & ?). repeat split; auto; lia. Qed.

Lemma finditer_from_in_order r fuel : forall st,
  in_order (pos st) (pos st + length (rest st)) (finditer_from r fuel st).
Proof.
  induction fuel as [|fuel IH]; intros st; cbn [finditer_from]; [exact I|].
  assert (Hstep : in_order (pos st) (pos st + length (rest st))
                    match step_over st with
                    | Some st' => finditer_from r fuel st'
                    | None => []
                    end).
  { destruct (step_over st) as [st'|] eqn:E; [|exact I].
    apply step_over_extends in E as [E1 E2].
    apply (in_order_weaken _ (pos st')); [lia|]. rewrite <- E2. apply IH. }
  destruct (match_at r st) as [x|] eqn:Ex; [|exact Hstep].
  apply match_at_span in Ex as [Hs He].
  destruct (Nat.ltb_spec (m_start x) (m_end x)) as [Hlt|Hge]; cbn [in_order].
  - repeat split; try lia.
    destruct (skip_extends (m_end x - m_start x) st ltac:(lia)) as [H1 H2].
    replace (m_end x) with (pos (skip (m_end x - m_start x) st)) at 1 by lia.
    rewrite <- H2. apply IH.
  - repeat split; try lia.
    apply (in_order_weaken _ (pos st)); [lia|exact Hstep].
Qed.
End MatcherOrder.

(** ** The paragraphs are no longer than the text *)

Section ParagraphLengths.
Import Re Segmenter.

Lemma split_at_total text : forall l from,
  (from <= length text)%nat -> in_order from (length text) l ->
  total_length (split_at text from l) + Z.of_nat from <= len text.
Proof.
  unfold len. induction l as [|x l IH]; intros from Hfrom Hl; cbn [split_at total_length foldr].
  - unfold len. rewrite length_drop. lia.
  - destruct Hl as (H1 & H2 & H3 & Hl). specialize (IH (m_end x) H3 Hl).
    unfold total_length in IH. unfold len at 1. rewrite length_take, length_drop.
    set (T := foldr _ _ _) in *. clearbody T.
    assert (Hmin : ((m_start x - from) `min` (length text - from) <= m_start x - from)%nat)
      by apply Nat.le_min_l.
    lia.
Qed.

Lemma lstrip_length x : (length (lstrip x) <= length x)%nat.
Proof.
  induction x as [|c x IH]; cbn; [lia|]. destruct (isspace c); cbn; lia.
Qed.

Lemma strip_length x : len (strip x) <= len x.
Proof.
  unfold len, strip, rstrip. rewrite length_reverse.
  pose proof (lstrip_length (reverse (lstrip x))) as H1.
  rewrite length_reverse in H1. pose proof (lstrip_length x). lia.
Qed.

Lemma total_length_nonneg l : 0 <= total_length l.
Proof.
  induction l as [|x l IH]; cbn [total_length foldr]; [lia|].
  unfold total_length in IH. unfold len at 1. lia.
Qed.

Lemma total_length_stripped l :
  total_length (map strip (filter (fun p => truthy (strip p)) l)) <= total_length l.
Proof.
  induction l as [|x l IH]; [reflexivity|].
  pose proof (strip_length x) as Hx. pose proof (total_length_nonneg [x]) as H0.
  cbn [total_length foldr] in H0.
  unfold filter. cbn [list_filter]. fold (filter (fun p => truthy (strip p)) l).
  destruct (decide _); cbn [map total_length foldr];
    fold (total_length (map strip (filter (fun p => truthy (strip p)) l)));
    fold (total_length l); lia.
Qed.

Lemma total_length_paragraphs text :
  total_length (_split_into_paragraphs text) <= len text.
Proof.
  unfold _split_into_paragraphs, re_split.
  pose proof (finditer_from_in_order paragraph_break (S (length text)) (start_state text)) as Ho.
  cbn [start_state pos rest] in Ho. rewrite Nat.add_0_l in Ho.
  apply split_at_total in Ho; [|lia]. fold (finditer paragraph_break text) in Ho.
  rewrite Z.add_0_r in Ho.
  etransitivity; [apply total_length_stripped|exact Ho].
Qed.
End ParagraphLengths.

(** ** The segmenter *)

Section SegmenterFacts.
Import Segmenter.
Variable cfg : config.

Lemma split_into_paragraphs_nonempty text :
  Forall (fun p => p <> []) (_split_into_paragraphs text).
Proof.
  unfold _split_into_paragraphs. apply Forall_forall. intros p Hp.
  apply list_elem_of_fmap in Hp as (q & -> & Hq).
  apply list_elem_of_filter in Hq as [Hq _].
  destruct (strip q); [contradiction|discriminate].
Qed.

(** *** The boundaries ascend, in index and in position alike *)

Lemma boundaries_from_bounds paragraphs : forall i cumulative prev b,
  b ∈ boundaries_from cfg i cumulative prev paragraphs ->
  (i <= index b < i + length paragraphs)%nat /\ cumulative <= position b.
Proof.
  induction paragraphs as [|p ps IH]; intros i cumulative prev b Hb; cbn in Hb.
  - apply elem_of_nil in Hb. contradiction.
  - apply elem_of_cons in Hb as [->|Hb]; cbn [index position length].
    + split; [lia|]. unfold len. lia.
    + apply IH in Hb as [H1 H2]. split; [lia|]. unfold len in *. lia.
Qed.

Lemma boundaries_from_sorted paragraphs : forall i cumulative prev,
  Forall (fun p => p <> []) paragraphs ->
  StronglySorted before (boundaries_from cfg i cumulative prev paragraphs).
Proof.
  induction paragraphs as [|p ps IH]; intros i cumulative prev Hne; cbn.
  - constructor.
  - apply Forall_cons in Hne as [Hp Hps]. constructor; [apply IH, Hps|].
    apply Forall_forall. intros b Hb. apply boundaries_from_bounds in Hb as [H1 H2].
    split; cbn [index position]; [lia|].
    assert (0 < len p) by (destruct p; [contradiction|unfold len; cbn; lia]). lia.
Qed.

Lemma identify_boundaries_sorted paragraphs :
  Forall (fun p => p <> []) paragraphs ->
  StronglySorted before (_identify_boundaries cfg paragraphs).
Proof.
  destruct paragraphs as [|p ps]; intros H; [constructor|].
  apply Forall_cons in H as [_ H]. apply boundaries_from_sorted, H.
Qed.

Lemma identify_boundaries_index paragraphs b :
  b ∈ _identify_boundaries cfg paragraphs ->
  (1 <= index b < length paragraphs)%nat.
Proof.
  destruct paragraphs as [|p ps]; cbn [_identify_boundaries]; intros Hb.
  - apply elem_of_nil in Hb. contradiction.
  - apply boundaries_from_bounds in Hb as [H _]. cbn [length]. lia.
Qed.

Lemma strongly_sorted_trichotomy {A} (R : A -> A -> Prop) l x y :
  StronglySorted R l -> x ∈ l -> y ∈ l -> x = y \/ R x y \/ R y x.
Proof.
  induction 1 as [|a l Hs IH Hall]; intros Hx Hy.
  - apply elem_of_nil in Hx. contradiction.
  - rewrite Forall_forall in Hall.
    apply elem_of_cons in Hx as [->|Hx]; apply elem_of_cons in Hy as [->|Hy]; auto.
Qed.

Lemma position_order_is_index_order paragraphs x y :
  Forall (fun p => p <> []) paragraphs ->
  x ∈ _identify_boundaries cfg paragraphs ->
  y ∈ _identify_boundaries cfg paragraphs ->
  position x <= position y -> (index x <= index y)%nat.
Proof.
  intros Hne Hx Hy Hpos.
  destruct (strongly_sorted_trichotomy before _ x y
              (identify_boundaries_sorted paragraphs Hne) Hx Hy) as [->|[[H _]|[_ H]]]; lia.
Qed.

Lemma sorted_map_key {A} (key : A -> Z) l :
  Sorted Z.le (map key l) -> StronglySorted (fun x y => key x <= key y) l.
Proof.
  intros H. apply Sorted_StronglySorted in H; [|intros a b c; lia].
  induction l as [|a l IH]; [constructor|]. cbn in H.
  apply StronglySorted_inv in H as [H1 H2]. constructor; [apply IH, H1|].
  apply Forall_forall. intros x Hx. rewrite Forall_forall in H2.
  apply H2. apply list_elem_of_fmap. eauto.
Qed.

Lemma strongly_sorted_weaken {A} (R R' : A -> A -> Prop) l :
  (forall x y, x ∈ l -> y ∈ l -> R x y -> R' x y) ->
  StronglySorted R l -> StronglySorted R' l.
Proof.
  intros Himp H. induction H as [|a l Hs IH Hall]; [constructor|].
  constructor.
  - apply IH. intros x y Hx Hy. apply Himp; apply elem_of_cons; auto.
  - rewrite Forall_forall in Hall |- *. intros x Hx.
    apply Himp; [apply elem_of_cons; auto|apply elem_of_cons; auto|auto].
Qed.

Lemma strongly_sorted_snoc {A} (R : A -> A -> Prop) l z :
  StronglySorted R l -> Forall (fun x => R x z) l -> StronglySorted R (l ++ [z]).
Proof.
  induction 1 as [|a l Hs IH Hall]; intros Hz; cbn.
  - repeat constructor.
  - apply Forall_cons in Hz as [Ha Hz]. constructor; [apply IH, Hz|].
    apply Forall_app. split; [exact Hall|]. constructor; [exact Ha|constructor].
Qed.

(** The boundaries the loop walks through ascend in index, and all but
    the last are real boundaries. *)
Lemma selected_boundaries_sorted paragraphs ideal :
  Forall (fun p => p <> []) paragraphs ->
  exists chosen,
    selected_boundaries paragraphs (_identify_boundaries cfg paragraphs) ideal
    = chosen ++ [{| index := length paragraphs; position := total_length paragraphs;
                    score := 0 |}] /\
    StronglySorted (fun x y => (index x <= index y)%nat) chosen /\
    Forall (fun b => (1 <= index b < length paragraphs)%nat) chosen.
Proof.
  intros Hne. unfold selected_boundaries.
  set (boundaries := _identify_boundaries cfg paragraphs).
  set (top := take _ (sort_by _ boundaries)).
  exists (sort_by position top). split; [reflexivity|].
  assert (Hin : forall b, b ∈ sort_by position top -> b ∈ boundaries).
  { intros b Hb. rewrite sort_by_perm in Hb. subst top.
    apply subseteq_take in Hb. rewrite sort_by_perm in Hb. exact Hb. }
  split.
  - apply (strongly_sorted_weaken (fun x y => position x <= position y)).
    + intros x y Hx Hy. apply (position_order_is_index_order paragraphs); auto.
    + apply sorted_map_key, sort_by_sorted.
  - apply Forall_forall. intros b Hb. apply (identify_boundaries_index paragraphs), Hin, Hb.
Qed.

(** *** The loop over the selected boundaries *)

Lemma tail_snoc {A} (P : A -> Prop) (l : list A) x :
  Forall P (tail l) -> (l <> [] -> P x) -> Forall P (tail (l ++ [x])).
Proof.
  destruct l as [|a l]; cbn; intros Hl Hx; [constructor|].
  apply Forall_app. split; [exact Hl|]. constructor; [apply Hx; discriminate|constructor].
Qed.

Lemma collect_spec paragraphs : forall selected start_idx segments runs,
  StronglySorted (fun x y => (index x <= index y)%nat) selected ->
  Forall (fun b => (start_idx <= index b)%nat /\ (1 <= index b)%nat) selected ->
  segments = map (join blank_line) runs ->
  concat runs = take start_idx paragraphs ->
  Forall (fun x => min_segment_size cfg <= len x) (tail segments) ->
  (start_idx = 0%nat <-> segments = []) ->
  paragraph_runs paragraphs (collect cfg paragraphs start_idx segments selected) /\
  Forall (fun x => min_segment_size cfg <= len x)
         (tail (collect cfg paragraphs start_idx segments selected)).
Proof.
  induction selected as [|b selected IH];
    intros start_idx segments runs Hsorted Hidx Hsegs Hruns Hmin Hstart.
  - cbn. split; [exists runs, start_idx; auto|exact Hmin].
  - apply StronglySorted_inv in Hsorted as [Hsorted Hb].
    apply Forall_cons in Hidx as [[Hb1 Hb2] Hidx].
    cbn [collect].
    destruct ((min_segment_size cfg <=? len _) || (start_idx =? 0)%nat) eqn:Hcond.
    + apply (IH (index b) _ (runs ++ [take (index b - start_idx) (drop start_idx paragraphs)])).
      * exact Hsorted.
      * rewrite Forall_forall in Hb, Hidx |- *. intros b' Hb'.
        split; [apply Hb, Hb'|apply Hidx, Hb'].
      * rewrite map_app, Hsegs. reflexivity.
      * rewrite concat_app, Hruns. cbn [concat]. rewrite app_nil_r, take_take_drop.
        f_equal. lia.
      * apply tail_snoc; [exact Hmin|]. intros Hne.
        apply orb_true_iff in Hcond as [Hc|Hc]; [lia|].
        apply Nat.eqb_eq in Hc. apply Hstart in Hc. contradiction.
      * split; [lia|]. intros H. destruct segments; discriminate H.
    + apply (IH start_idx segments runs); auto.
Qed.

Lemma collect_snoc paragraphs : forall selected start_idx segments b,
  exists start_idx' segments',
    collect cfg paragraphs start_idx segments (selected ++ [b])
    = collect cfg paragraphs start_idx' segments' [b] /\
    collect cfg paragraphs start_idx segments selected = segments'.
Proof.
  induction selected as [|a selected IH]; intros start_idx segments b.
  - exists start_idx, segments. split; reflexivity.
  - cbn [app collect].
    destruct ((min_segment_size cfg <=? len _) || (start_idx =? 0)%nat); apply IH.
Qed.

Lemma merge_last_keeps segments :
  Forall (fun x => min_segment_size cfg <= len x) (tail segments) ->
  merge_last cfg segments = segments.
Proof.
  intros H. unfold merge_last.
  destruct (rev segments) as [|l [|p before']] eqn:E; [reflexivity|reflexivity|].
  assert (Hl : min_segment_size cfg <= len l).
  { apply (f_equal (@rev _)) in E. rewrite rev_involutive in E. cbn in E.
    rewrite E, <- app_assoc in H. cbn in H.
    destruct (rev before') as [|x y]; cbn in H.
    - apply Forall_cons in H as [H _]. exact H.
    - apply Forall_app in H as [_ H]. apply Forall_cons in H as [_ H].
      apply Forall_cons in H as [H _]. exact H. }
  destruct (Z.ltb_spec (len l) (min_segment_size cfg)); [lia|reflexivity].
Qed.

Lemma final_segments_keeps segments :
  Forall (fun x => len x <= max_segment_size cfg) segments ->
  final_segments cfg segments = Ok segments.
Proof.
  induction segments as [|x segments IH]; intros H; [reflexivity|].
  apply Forall_cons in H as [Hx H]. cbn [final_segments].
  destruct (Z.ltb_spec (max_segment_size cfg) (len x)); [lia|].
  rewrite (IH H). reflexivity.
Qed.

Lemma grouped_segments_spec paragraphs ideal :
  Forall (fun p => p <> []) paragraphs ->
  let segments := grouped_segments cfg paragraphs (_identify_boundaries cfg paragraphs) ideal in
  paragraph_runs paragraphs segments /\
  Forall (fun x => min_segment_size cfg <= len x) (tail segments).
Proof.
  intros Hne segments. subst segments. unfold grouped_segments.
  enough (H : paragraph_runs paragraphs
                (collect cfg paragraphs 0 []
                   (selected_boundaries paragraphs (_identify_boundaries cfg paragraphs) ideal)) /\
              Forall (fun x => min_segment_size cfg <= len x)
                (tail (collect cfg paragraphs 0 []
                   (selected_boundaries paragraphs (_identify_boundaries cfg paragraphs) ideal)))).
  { destruct H as [H1 H2]. rewrite (merge_last_keeps _ H2). auto. }
  destruct paragraphs as [|p ps].
  - unfold selected_boundaries. cbn [_identify_boundaries sort_by foldr].
    rewrite take_nil. unfold sort_by.
    cbn [foldr app collect length index Nat.sub drop take join Nat.eqb].
    rewrite orb_true_r. split; [|constructor].
    exists [[]], 0%nat. split; reflexivity.
  - destruct (selected_boundaries_sorted (p :: ps) ideal Hne) as (chosen & -> & Hs & Hi).
    apply (collect_spec (p :: ps) _ 0%nat [] []).
    + apply strongly_sorted_snoc; [exact Hs|].
      eapply Forall_impl; [exact Hi|]. cbn. intros b Hb. lia.
    + apply Forall_app. split.
      * eapply Forall_impl; [exact Hi|]. cbn. intros b Hb. lia.
      * constructor; [cbn; lia|constructor].
    + reflexivity.
    + reflexivity.
    + constructor.
    + split; reflexivity.
Qed.

Lemma segment_transcript_short_text text :
  len text <= target_segment_size cfg -> segment_transcript cfg text = Ok [text].
Proof.
  intros H. unfold segment_transcript.
  destruct (Z.leb_spec (len text) (target_segment_size cfg)); [reflexivity|lia].
Qed.

(** X19.  With a target size of zero a text that is not empty cannot be
    segmented: the division that gives the number of segments raises
    [ZeroDivisionError]. *)
Lemma segment_transcript_zero_target text :
  target_segment_size cfg = 0 -> 0 < len text ->
  segment_transcript cfg text = Raise ZeroDivisionError.
Proof.
  intros H0 Hlen. unfold segment_transcript, _create_segments, ideal_num_segments.
  rewrite H0. destruct (Z.leb_spec (len text) 0); [lia|]. reflexivity.
Qed.

(** X23.  What the segmenter does build: for a text longer than the target
    size (and shorter than 2^53 characters) it works on the paragraphs -- the
    non-blank texts between blank lines, with the blanks at their ends
    removed -- and the number of segments it aims at,
    [max(1, round(total_length / target_segment_size))], is computed
    without an exception.  When that number is one the result is the
    paragraphs joined by blank lines.  Otherwise the segments built before
    the check against the maximum are, in order, runs of consecutive
    paragraphs from the first on, each joined by blank lines, no paragraph in
    two of them; every segment after the first has at least
    [min_segment_size] characters; and when none of them is longer than
    [max_segment_size] they are the result. *)
Theorem segment_transcript_paragraph_runs (text : str) :
  0 < target_segment_size cfg < len text -> len text < 2 ^ 53 ->
  let paragraphs := _split_into_paragraphs text in
  exists ideal,
    ideal_num_segments cfg paragraphs = Ok ideal /\ 1 <= ideal /\
    let segments :=
      if ideal =? 1 then [join blank_line paragraphs]
      else grouped_segments cfg paragraphs (_identify_boundaries cfg paragraphs) ideal in
    paragraph_runs paragraphs segments /\
    Forall (fun x => min_segment_size cfg <= len x) (tail segments) /\
    segment_transcript cfg text
      = (if ideal =? 1 then Ok segments else final_segments cfg segments) /\
    (Forall (fun x => len x <= max_segment_size cfg) segments ->
     segment_transcript cfg text = Ok segments).
Proof.
  intros Htarget Hlen paragraphs.
  pose proof (split_into_paragraphs_nonempty text) as Hne. fold paragraphs in Hne.
  pose proof (total_length_paragraphs text) as Htot. fold paragraphs in Htot.
  pose proof (total_length_nonneg paragraphs) as Htot0.
  destruct (round_truediv_total (total_length paragraphs) (target_segment_size cfg)
              ltac:(lia) ltac:(lia)) as (q & r & Hq & Hr & Hr0).
  assert (Hideal : ideal_num_segments cfg paragraphs = Ok (Z.max 1 r)).
  { unfold ideal_num_segments. rewrite Hq. cbn. rewrite Hr. reflexivity. }
  exists (Z.max 1 r). split; [exact Hideal|]. split; [lia|].
  set (ideal := Z.max 1 r) in *. intros segments.
  assert (Hrun : segment_transcript cfg text
                 = if ideal =? 1 then Ok segments else final_segments cfg segments).
  { unfold segment_transcript, _create_segments.
    destruct (Z.leb_spec (len text) (target_segment_size cfg)); [lia|].
    cbv zeta. fold paragraphs. rewrite Hideal. subst segments. cbn.
    destruct (ideal =? 1); reflexivity. }
  assert (Hkeep : Forall (fun x => len x <= max_segment_size cfg) segments ->
                  segment_transcript cfg text = Ok segments).
  { intros H. rewrite Hrun. destruct (ideal =? 1); [reflexivity|].
    apply final_segments_keeps, H. }
  subst segments. destruct (Z.eqb_spec ideal 1) as [H1|H1].
  - split; [|split; [constructor|split; [exact Hrun|exact Hkeep]]].
    exists [paragraphs], (length paragraphs). split; [reflexivity|].
    cbn. rewrite app_nil_r, take_ge by lia. reflexivity.
  - destruct (grouped_segments_spec paragraphs ideal Hne) as [Hruns Hmin].
    split; [exact Hruns|split; [exact Hmin|split; [exact Hrun|exact Hkeep]]].
Qed.
End SegmenterFacts.

Lemma segment_transcript_paragraph_runs_witness :
  let text := s "aaaaaaaaaaaa" ++ [NL; NL] ++ s "bbbbbbbbb" in
  0 < Segmenter.target_segment_size small_config < len text /\
  len text < 2 ^ 53 /\
  Segmenter.segment_transcript small_config text = Ok [s "aaaaaaaaaaaa"; s "bbbbbbbbb"].
Proof.
  intros text.
  assert (H1 : 0 < Segmenter.target_segment_size small_config < len text)
    by (vm_compute; split; reflexivity).
  assert (H2 : len text < 2 ^ 53) by (vm_compute; reflexivity).
  split; [exact H1|split; [exact H2|]].
  destruct (segment_transcript_paragraph_runs small_config text H1 H2)
    as (ideal & Hideal & _ & _ & _ & _ & Hkeep).
  vm_compute in Hideal. injection Hideal as <-.
  rewrite Hkeep; [vm_compute; reflexivity|].
  vm_compute. repeat constructor; discriminate.
Defined.

(** The segmenter with its default sizes on a text of two paragraphs, of
    23000 and 8000 characters: the second, shorter than the minimum, is
    lost, and one segment of 23000 characters is returned. *)
Example segment_transcript_default_loses_tail :
  let text := repeat "a"%char (Z.to_nat 23000) ++ [NL; NL] ++ repeat "b"%char (Z.to_nat 8000) in
  len text = 31002 /\
  match Segmenter.segment_transcript Segmenter.default_config text with
  | Ok segments => map len segments = [23000] /\ contains (s "b") (concat segments) = false
  | Raise _ => False
  end.
Proof. vm_compute. repeat split; reflexivity. Qed.

(** C7 (the code at a failing input).  A text of two paragraphs, of 12 and
    of 3 characters, for a segmenter with target 10, minimum 8 and maximum
    12: two segments are aimed at, the loop of [_create_segments] appends
    the first paragraph and, for the end boundary, skips the second because
    it is shorter than the minimum and is not at the start; the step after
    the loop, "If the last segment is too small, merge it with the previous
    one", finds nothing to merge because no short segment was appended.  So
    the result is the first paragraph alone and the text "bbb" is in no
    segment: the segments do not cover the input. *)
Theorem segment_transcript_drops_last_paragraph :
  let text := s "aaaaaaaaaaaa" ++ [NL; NL] ++ s "bbb" in
  Segmenter.segment_transcript small_config text = Ok [s "aaaaaaaaaaaa"] /\
  forall segments, Segmenter.segment_transcript small_config text = Ok segments ->
    contains (s "bbb") (concat segments) = false.
Proof.
  split; [vm_compute; reflexivity|].
  intros segments H. vm_compute in H. injection H as <-. reflexivity.
Qed.

(** Paragraphs of 12, 6, 6 and 12 characters: the two in the middle are
    grouped into a segment of 14 characters, over the maximum, which is then
    split back into its paragraphs, each under the minimum. *)
Example segment_transcript_short_middle_segments :
  Segmenter.segment_transcript small_config
    (s "aaaaaaaaaaaa" ++ [NL; NL] ++ s "bbbbbb" ++ [NL; NL] ++ s "cccccc"
       ++ [NL; NL] ++ s "dddddddddddd")
  = Ok [s "aaaaaaaaaaaa"; s "bbbbbb"; s "cccccc"; s "dddddddddddd"].
Proof. vm_compute. reflexivity. Qed.

(** A paragraph longer than the maximum, alone in its segment: the step of
    the loop of [_split_long_segment] is zero and [range] raises. *)
Example segment_transcript_single_long_paragraph :
  Segmenter.segment_transcript small_config
    (s "aaaaaaaaaaaaaaaaaaaaaaaaaaaaaa" ++ [NL; NL] ++ s "bbbbbbbbbb")
  = Raise (ValueError (s "range() arg 3 must not be zero")).
Proof. vm_compute. reflexivity. Qed.

(** ** Slices and ranges *)

Lemma slice_take_drop (x : str) a b :
  0 <= a <= b -> b <= len x ->
  slice x a b = take (Z.to_nat (b - a)) (drop (Z.to_nat a) x).
Proof.
  intros Ha Hb. unfold slice, norm_index.
  destruct (Z.ltb_spec a 0); [lia|]. destruct (Z.ltb_spec b 0); [lia|].
  rewrite !Z.min_l by lia. reflexivity.
Qed.

Lemma take_min_length {A} (l : list A) n : take n l = take (n `min` length l) l.
Proof.
  destruct (Nat.le_ge_cases n (length l)).
  - rewrite Nat.min_l by lia. reflexivity.
  - rewrite Nat.min_r by lia. rewrite !take_ge by lia. reflexivity.
Qed.

Lemma concat_pieces {A} (l : list A) sz : forall n,
  concat (map (fun k => take sz (drop (sz * k) l)) (seq 0 n)) = take (sz * n) l.
Proof.
  induction n as [|n IH].
  - rewrite Nat.mul_0_r. reflexivity.
  - rewrite seq_S, map_app, concat_app, IH. cbn [map concat Nat.add].
    rewrite app_nil_r, take_take_drop. f_equal. lia.
Qed.

(** ** The fixed-size chunks *)

Section FixedSizeChunks.
Import Chunking.

Lemma fixed_size_chunk_at (chunk_size : Z) (text : str) (k : nat) :
  0 < chunk_size -> chunk_size * Z.of_nat k <= len text ->
  slice text (0 + chunk_size * Z.of_nat k)
    (Z.min (0 + chunk_size * Z.of_nat k + chunk_size) (len text))
  = take (Z.to_nat chunk_size) (drop (Z.to_nat chunk_size * k) text).
Proof.
  intros Hsz Hk. rewrite slice_take_drop by lia.
  rewrite Z.add_0_l.
  replace (Z.to_nat (chunk_size * Z.of_nat k)) with (Z.to_nat chunk_size * k)%nat by nia.
  rewrite (take_min_length _ (Z.to_nat chunk_size)). f_equal.
  rewrite length_drop. unfold len in *. lia.
Qed.

(** X1.  With a positive chunk size the fixed-size chunks are a partition of
    the text: put together they are the text, none is empty, all but the
    last have [chunk_size] characters and the last has no more, and there
    are ceil(len / chunk_size) of them. *)
Theorem fixed_size_chunks_partition (chunk_size : Z) (text : str) :
  0 < chunk_size ->
  exists chunks,
    fixed_size_chunks chunk_size text = Ok chunks /\
    concat chunks = text /\
    Z.of_nat (length chunks) = (len text + chunk_size - 1) / chunk_size /\
    forall (i : nat) c, chunks !! i = Some c ->
      0 < len c <= chunk_size /\ ((S i < length chunks)%nat -> len c = chunk_size).
Proof.
  intros Hsz. unfold fixed_size_chunks, py_range.
  destruct (Z.eqb_spec chunk_size 0) as [|_]; [lia|].
  destruct (Z.ltb_spec 0 chunk_size) as [_|]; [|lia].
  set (n := Z.to_nat ((len text - 0 + chunk_size - 1) / chunk_size)).
  assert (Hlen : 0 <= len text) by (unfold len; lia).
  assert (Hn : Z.of_nat n = (len text + chunk_size - 1) / chunk_size).
  { unfold n. rewrite Z.sub_0_r, Z2Nat.id; [reflexivity|]. apply Z.div_pos; lia. }
  pose proof (Z.mul_div_le (len text + chunk_size - 1) chunk_size Hsz) as Hlo.
  pose proof (Z.mul_succ_div_gt (len text + chunk_size - 1) chunk_size Hsz) as Hhi.
  rewrite <- Hn in Hlo, Hhi.
  cbn [mbind result_bind rbind]. eexists. split; [reflexivity|].
  assert (Hmap : map (fun i : Z => slice text i (Z.min (i + chunk_size) (len text)))
                   (map (fun k : nat => 0 + chunk_size * Z.of_nat k) (seq 0 n))
                 = map (fun k => take (Z.to_nat chunk_size)
                                   (drop (Z.to_nat chunk_size * k) text)) (seq 0 n)).
  { rewrite map_map. apply map_ext_in. intros k Hk. apply in_seq in Hk.
    apply fixed_size_chunk_at; [lia|nia]. }
  rewrite Hmap. split; [|split].
  - rewrite concat_pieces. apply take_ge. unfold len in *. nia.
  - rewrite length_map, length_seq. exact Hn.
  - intros i c Hc. rewrite length_map, length_seq.
    rewrite list_lookup_fmap in Hc.
    destruct (seq 0 n !! i) as [k|] eqn:Ek; [|discriminate].
    apply lookup_seq in Ek as [-> Hi]. cbn in Hc. injection Hc as <-.
    unfold len in *. rewrite length_take, length_drop. split; [nia|]. intros Hlt. nia.
Qed.

(** X2.  A chunk size of zero makes [range] raise; a negative one gives no
    chunk at all, whatever the text. *)
Theorem fixed_size_chunks_degenerate (chunk_size : Z) (text : str) :
  chunk_size <= 0 ->
  fixed_size_chunks chunk_size text
  = if chunk_size =? 0 then Raise (ValueError (s "range() arg 3 must not be zero"))
    else Ok [].
Proof.
  intros Hsz. unfold fixed_size_chunks, py_range.
  destruct (Z.eqb_spec chunk_size 0) as [|Hne]; [reflexivity|].
  destruct (Z.ltb_spec 0 chunk_size) as [|_]; [lia|].
  replace (Z.to_nat ((0 - len text - chunk_size - 1) / - chunk_size)) with 0%nat;
    [reflexivity|].
  assert (0 <= len text) by (unfold len; lia).
  assert ((0 - len text - chunk_size - 1) / - chunk_size <= 0); [|lia].
  apply Z.lt_succ_r. apply Z.div_lt_upper_bound; lia.
Qed.
End FixedSizeChunks.

(** ** The chapter-aligned chunks *)

Section ChapterAlignedChunks.
Import Chunking.
Import StructureIndex.

Variable max_chunk_size : Z.
Variable transcript_length : option Z.

#[local] Abbreviation well_packed := (Chunking.well_packed max_chunk_size transcript_length).

Lemma pack_spec total : forall rest i chunks current,
  (i = 0%nat -> chunks = [] /\ current = empty_chunk) ->
  Forall (well_packed total) chunks ->
  (chapters current = [] /\ chapter_numbers current = [] \/ well_packed total current) ->
  let '(chunks', current') :=
    pack max_chunk_size transcript_length total i chunks current rest in
  concat (map chapters chunks') ++ chapters current'
    = concat (map chapters chunks) ++ chapters current
      ++ filter (fun c => 1 <= number c) rest /\
  Forall (well_packed total) chunks' /\
  (chapters current' = [] /\ chapter_numbers current' = [] \/ well_packed total current').
Proof.
  induction rest as [|chapter rest IH]; intros i chunks current Hi Hchunks Hcur.
  - cbn [pack filter list_filter]. rewrite app_nil_r. auto.
  - cbn [pack]. cbv zeta.
    rewrite filter_cons.
    destruct (Z.ltb_spec (number chapter) 1) as [Hbad|Hgood].
    + destruct (decide (1 <= number chapter)); [lia|].
      specialize (IH (S i) chunks current ltac:(lia) Hchunks Hcur).
      exact IH.
    + destruct (decide (1 <= number chapter)); [|lia].
      assert (Hnew : well_packed total (new_chunk chapter)).
      { split; [reflexivity|]. split; [discriminate|]. left. reflexivity. }
      destruct (Nat.eqb_spec i 0) as [Hi0|Hi0].
      * destruct (Hi Hi0) as [-> ->].
        specialize (IH (S i) [] (new_chunk chapter) ltac:(lia) Hchunks (or_intror Hnew)).
        destruct (pack _ _ _ _ _ _ rest) as [chunks' current'].
        destruct IH as (IH1 & IH2 & IH3). split; [|auto].
        rewrite IH1. reflexivity.
      * destruct (chapter_numbers current) as [|n0 ns] eqn:Enum.
        -- assert (Hempty : chapters current = []).
           { destruct Hcur as [[H _]|[H [H' _]]]; [exact H|].
             rewrite Enum in H. destruct (chapters current); [reflexivity|discriminate]. }
           assert (Hadd : well_packed total (add_chapter current chapter)).
           { split; [|split].
             - cbn. rewrite Enum, Hempty. reflexivity.
             - cbn. rewrite Hempty. discriminate.
             - left. cbn. rewrite Hempty. reflexivity. }
           specialize (IH (S i) chunks (add_chapter current chapter) ltac:(lia) Hchunks
                          (or_intror Hadd)).
           destruct (pack _ _ _ _ _ _ rest) as [chunks' current'].
           destruct IH as (IH1 & IH2 & IH3). split; [|auto].
           rewrite IH1. cbn [add_chapter chapters]. rewrite Hempty. reflexivity.
        -- assert (Hwp : well_packed total current).
           { destruct Hcur as [[_ H]|H]; [first [discriminate H|rewrite Enum in H; discriminate H]|exact H]. }
           destruct (closes max_chunk_size transcript_length total current) eqn:Ecl.
           ++ specialize (IH (S i) (chunks ++ [current]) (new_chunk chapter) ltac:(lia)).
              destruct (pack _ _ _ _ _ _ rest) as [chunks' current'].
              destruct IH as (IH1 & IH2 & IH3).
              { apply Forall_app. split; [exact Hchunks|]. constructor; [exact Hwp|constructor]. }
              { right. exact Hnew. }
              split; [|auto]. rewrite IH1, map_app, concat_app. cbn [map concat new_chunk chapters].
              rewrite app_nil_r, <- !app_assoc. reflexivity.
           ++ assert (Hadd : well_packed total (add_chapter current chapter)).
              { destruct Hwp as (H1 & H2 & H3). split; [|split].
                - cbn. rewrite H1, map_app. reflexivity.
                - cbn. destruct (chapters current); discriminate.
                - right. unfold closes in Ecl. cbn [add_chapter chapters].
                  rewrite length_app. cbn [length].
                  rewrite H1, length_map in Ecl.
                  assert (Hk : (0 < length (chapters current))%nat)
                    by (destruct (chapters current); [contradiction|cbn; lia]).
                  destruct (truthy_length transcript_length) as [tl|].
                  + apply andb_false_iff in Ecl as [Ecl|Ecl].
                    * apply Z.ltb_ge in Ecl. lia.
                    * apply Z.ltb_ge in Ecl. lia.
                  + apply Z.leb_gt in Ecl. lia. }
              specialize (IH (S i) chunks (add_chapter current chapter) ltac:(lia) Hchunks
                             (or_intror Hadd)).
              destruct (pack _ _ _ _ _ _ rest) as [chunks' current'].
              destruct IH as (IH1 & IH2 & IH3). split; [|auto].
              rewrite IH1. cbn [add_chapter chapters]. rewrite <- !app_assoc. reflexivity.
Qed.

Lemma packed_chunks_spec (l : list chapter) :
  concat (map chapters (packed_chunks max_chunk_size transcript_length l))
    = filter (fun c => 1 <= number c) l /\
  Forall (well_packed (Z.of_nat (length l)))
         (packed_chunks max_chunk_size transcript_length l).
Proof.
  unfold packed_chunks.
  pose proof (pack_spec (Z.of_nat (length l)) l 0 [] empty_chunk
                ltac:(auto) ltac:(constructor) ltac:(left; split; reflexivity)) as H.
  destruct (pack _ _ _ _ _ _ l) as [chunks current].
  destruct H as (H1 & H2 & H3). cbn in H1.
  destruct (chapter_numbers current) as [|n0 ns] eqn:Enum.
  - destruct H3 as [[H3 _]|[H3 [H3' _]]].
    + rewrite H3, app_nil_r in H1. auto.
    + rewrite Enum in H3. destruct (chapters current); [contradiction|discriminate].
  - destruct H3 as [[_ H3]|H3]; [first [discriminate H3|rewrite Enum in H3; discriminate H3]|].
    split.
    + rewrite map_app, concat_app. cbn. rewrite app_nil_r. exact H1.
    + apply Forall_app. split; [exact H2|]. constructor; [exact H3|constructor].
Qed.

Lemma positions_from_keep l cs n : forall chunks i,
  map chapters (positions_from l cs n i chunks) = map chapters chunks /\
  map chapter_numbers (positions_from l cs n i chunks) = map chapter_numbers chunks.
Proof.
  induction chunks as [|c chunks IH]; intros i; [split; reflexivity|].
  cbn. destruct (IH (i + 1)) as [-> ->]. split; reflexivity.
Qed.

Lemma positions_from_well_packed l cs n total : forall chunks i,
  Forall (well_packed total) chunks ->
  Forall (well_packed total) (positions_from l cs n i chunks).
Proof.
  induction chunks as [|c chunks IH]; intros i H; [constructor|].
  apply Forall_cons in H as [Hc H]. cbn. constructor; [exact Hc|apply IH, H].
Qed.

Lemma positions_from_tiles l cs n : forall chunks i,
  0 <= cs -> cs * n <= l -> 0 <= i -> chunks <> [] ->
  i + Z.of_nat (length chunks) = n ->
  tiles (i * cs) l (map char_range (positions_from l cs n i chunks)).
Proof.
  induction chunks as [|c chunks IH]; intros i Hcs Hn Hi Hne Hlen; [contradiction|].
  cbn [positions_from map tiles char_range start_char end_char]. cbn [length] in Hlen.
  destruct chunks as [|c' chunks].
  - cbn in Hlen. destruct (Z.ltb_spec i (n - 1)); [lia|].
    cbn. split; [reflexivity|]. split; [nia|reflexivity].
  - cbn [length] in Hlen. destruct (Z.ltb_spec i (n - 1)); [|lia].
    split; [reflexivity|]. split; [nia|].
    apply IH; try lia; try discriminate. cbn [length]. lia.
Qed.

Lemma create_chapter_aligned_chunks_eq (l : list chapter) :
  l <> [] ->
  _create_chapter_aligned_chunks max_chunk_size l transcript_length
  = match truthy_length transcript_length with
    | Some tl =>
        match packed_chunks max_chunk_size transcript_length l with
        | [] => Raise ZeroDivisionError
        | k :: ks => Ok (set_positions tl (k :: ks))
        end
    | None => Ok (packed_chunks max_chunk_size transcript_length l)
    end.
Proof.
  destruct l as [|c l]; [contradiction|]. intros _. unfold _create_chapter_aligned_chunks.
  destruct (truthy_length transcript_length); [|reflexivity].
  destruct (packed_chunks max_chunk_size transcript_length (c :: l)); reflexivity.
Qed.

Lemma packed_chunks_nonempty (l : list chapter) :
  Exists (fun c => 1 <= number c) l ->
  packed_chunks max_chunk_size transcript_length l <> [].
Proof.
  intros Hex Hnil. destruct (packed_chunks_spec l) as [Hkeep _].
  rewrite Hnil in Hkeep. cbn in Hkeep.
  apply Exists_exists in Hex as (c & Hc & Hvalid).
  assert (Hin : c ∈ filter (fun c => 1 <= number c) l)
    by (apply list_elem_of_filter; auto).
  rewrite <- Hkeep in Hin. apply elem_of_nil in Hin. exact Hin.
Qed.

(** X3.  Unless the division by the number of chunks fails, the chunks hold
    the chapters with a number of 1 or more, each once and in their order,
    and nothing else; every chunk has a chapter, and one of several chapters
    is within the limit. *)
Theorem create_chapter_aligned_chunks_keeps_chapters (l : list chapter) :
  truthy_length transcript_length = None \/ Exists (fun c => 1 <= number c) l ->
  exists chunks,
    _create_chapter_aligned_chunks max_chunk_size l transcript_length = Ok chunks /\
    concat (map chapters chunks) = filter (fun c => 1 <= number c) l /\
    Forall (well_packed (Z.of_nat (length l))) chunks.
Proof.
  intros H. destruct (packed_chunks_spec l) as [Hkeep Hwp].
  destruct (decide (l = [])) as [->|Hl].
  { exists []. split; [reflexivity|]. split; [reflexivity|constructor]. }
  rewrite (create_chapter_aligned_chunks_eq l Hl).
  destruct (truthy_length transcript_length) as [tl|] eqn:Etl.
  - destruct H as [H|H]; [discriminate|].
    pose proof (packed_chunks_nonempty l H) as Hne.
    destruct (packed_chunks max_chunk_size transcript_length l) as [|k ks];
      [contradiction|].
    eexists. split; [reflexivity|]. unfold set_positions.
    split.
    + rewrite (proj1 (positions_from_keep _ _ _ _ _)). exact Hkeep.
    + apply positions_from_well_packed, Hwp.
  - eexists. split; [reflexivity|]. auto.
Qed.

(** X4.  When the length of the transcript is known and some chapter has a
    number of 1 or more, the character ranges of the chunks tile the
    transcript: the first starts at 0, each starts where the one before
    ends, and the last ends at the length. *)
Theorem create_chapter_aligned_chunks_tile (l : list chapter) (tl : Z) :
  transcript_length = Some tl -> 0 < tl ->
  Exists (fun c => 1 <= number c) l ->
  exists chunks,
    _create_chapter_aligned_chunks max_chunk_size l transcript_length = Ok chunks /\
    chunks <> [] /\
    tiles 0 tl (map char_range chunks).
Proof.
  intros Htl Hpos Hex.
  assert (Etl : truthy_length transcript_length = Some tl).
  { rewrite Htl. cbn. destruct (Z.eqb_spec tl 0); [lia|reflexivity]. }
  assert (Hl : l <> []) by (intros ->; apply Exists_nil in Hex; exact Hex).
  rewrite (create_chapter_aligned_chunks_eq l Hl), Etl.
  pose proof (packed_chunks_nonempty l Hex) as Hne.
  destruct (packed_chunks max_chunk_size transcript_length l) as [|k ks];
    [contradiction|].
  eexists. split; [reflexivity|]. unfold set_positions.
  set (n := Z.of_nat (length (k :: ks))).
  assert (Hn : 0 < n) by (unfold n; cbn [length]; lia).
  split; [discriminate|].
  change 0 with (0 * (tl / n)) at 1.
  apply positions_from_tiles; try lia; try discriminate.
  - apply Z.div_pos; lia.
  - rewrite Z.mul_comm. apply Z.mul_div_le. lia.
Qed.

(** X5.  When the length of the transcript is known and not zero, and no
    chapter has a number of 1 or more, there is no chunk to divide the
    transcript among, and the division raises. *)
Theorem create_chapter_aligned_chunks_no_valid_chapter (l : list chapter) (tl : Z) :
  transcript_length = Some tl -> tl <> 0 -> l <> [] ->
  Forall (fun c => number c < 1) l ->
  _create_chapter_aligned_chunks max_chunk_size l transcript_length = Raise ZeroDivisionError.
Proof.
  intros Htl Hne Hl Hall.
  assert (Etl : truthy_length transcript_length = Some tl).
  { rewrite Htl. cbn. destruct (Z.eqb_spec tl 0); [contradiction|reflexivity]. }
  rewrite (create_chapter_aligned_chunks_eq l Hl), Etl.
  destruct (packed_chunks_spec l) as [Hkeep Hwp].
  destruct (packed_chunks max_chunk_size transcript_length l) as [|k ks]; [reflexivity|].
  exfalso. apply Forall_cons in Hwp as [(_ & Hk & _) _].
  destruct (chapters k) as [|c cs] eqn:Ec; [contradiction|].
  assert (Hin : c ∈ filter (fun c => 1 <= number c) l).
  { rewrite <- Hkeep. cbn. rewrite Ec. apply elem_of_cons. left. reflexivity. }
  apply list_elem_of_filter in Hin as [Hvalid Hin].
  rewrite Forall_forall in Hall. specialize (Hall c Hin). lia.
Qed.
End ChapterAlignedChunks.

(** ** The structure index of any document *)

Section ParseAnyDocument.
Import Re StructureIndex.


Lemma finditer_spans r text x :
  x ∈ finditer r text -> (m_start x <= m_end x <= length text)%nat.
Proof.
  unfold finditer.
  pose proof (finditer_from_in_order r (S (length text)) (start_state text)) as Ho.
  cbn [start_state pos rest] in Ho. rewrite Nat.add_0_l in Ho.
  revert Ho. generalize (finditer_from r (S (length text)) (start_state text)) as l.
  generalize 0%nat as from.
  intros from l. revert from. induction l as [|y l IH]; intros from Ho Hx.
  - apply elem_of_nil in Hx. contradiction.
  - destruct Ho as (H1 & H2 & H3 & Ho).
    apply elem_of_cons in Hx as [->|Hx]; [lia|]. eapply IH; eassumption.
Qed.

End ParseAnyDocument.

(** ** Where the final trim cuts *)

Section FinalTrim.
Import Re Orchestrator.

Lemma chapter_spans_lookup total : forall starts k st,
  starts !! k = Some st ->
  chapter_spans starts total !! k
  = Some (st, start_at starts total (S k), start_at starts total (S k) - st).
Proof.
  induction starts as [|a starts IH]; intros k st Hk; [discriminate|].
  destruct k as [|k].
  - cbn in Hk. injection Hk as ->. cbn. unfold start_at. cbn.
    destruct starts; reflexivity.
  - cbn in Hk. cbn [chapter_spans]. cbn [lookup list_lookup].
    change (chapter_spans starts total !! k = Some (st, start_at (a :: starts) total (S (S k)),
              start_at (a :: starts) total (S (S k)) - st)).
    rewrite (IH k st Hk). reflexivity.
Qed.

Lemma chapter_spans_length total starts :
  length (chapter_spans starts total) = length starts.
Proof. induction starts as [|a starts IH]; cbn; [reflexivity|]. rewrite IH. reflexivity. Qed.

Lemma chapters_to_keep_spec starts total max_len : forall fuel keep,
  (keep <= fuel)%nat -> (keep <= length starts)%nat ->
  let k := chapters_to_keep fuel (chapter_spans starts total) max_len keep
             (start_at starts total keep) in
  (k <= keep)%nat /\ (1 <= keep -> 1 <= k)%nat /\
  (start_at starts total k <= max_len \/ (k <= 1)%nat) /\
  forall j, (k < j <= keep)%nat -> max_len < start_at starts total j.
Proof.
  induction fuel as [|fuel IH]; intros keep Hfuel Hkeep; cbn [chapters_to_keep].
  - assert (keep = 0%nat) as -> by lia. cbn. split; [lia|]. split; [lia|].
    split; [right; lia|]. intros j Hj. lia.
  - destruct (Z.ltb_spec max_len (start_at starts total keep)) as [Hover|Hfit];
      destruct (Nat.ltb_spec 1 keep) as [Hk1|Hk1]; cbn [andb].
    + destruct (lookup_lt_is_Some_2 starts (keep - 1) ltac:(lia)) as [st Hst].
      rewrite (chapter_spans_lookup total starts (keep - 1) st Hst).
      replace (S (keep - 1)) with keep by lia.
      replace (start_at starts total keep - (start_at starts total keep - st))
        with (start_at starts total (keep - 1))
        by (unfold start_at at 1; rewrite Hst; cbn; lia).
      specialize (IH (keep - 1)%nat ltac:(lia) ltac:(lia)).
      destruct IH as (H1 & H2 & H3 & H4).
      split; [lia|]. split; [lia|]. split; [exact H3|].
      intros j Hj. destruct (decide (j = keep)) as [->|Hne]; [exact Hover|].
      apply H4. lia.
    + split; [lia|]. split; [lia|]. split; [right; lia|]. intros j Hj. lia.
    + split; [lia|]. split; [lia|]. split; [left; exact Hfit|]. intros j Hj. lia.
    + split; [lia|]. split; [lia|]. split; [left; exact Hfit|]. intros j Hj. lia.
Qed.

Lemma slice_to_take (x : str) (a : nat) : slice_to x (Z.of_nat a) = take a x.
Proof.
  unfold slice_to, slice, norm_index.
  destruct (Z.ltb_spec 0 0); [lia|]. destruct (Z.ltb_spec (Z.of_nat a) 0); [lia|].
  rewrite (take_min_length x a).
  replace (Z.to_nat (Z.min 0 (len x))) with 0%nat by (unfold len; lia).
  cbn [drop]. f_equal. unfold len. lia.
Qed.

(** X7.  The final trim either leaves the text as it is or cuts it right
    before a chapter heading other than the first one found.  When it cuts,
    what is left is within the ceiling or ends right before the second
    heading, and a cut before any later heading would leave more than the
    ceiling. *)
Theorem final_trim_cuts_before_a_heading (expected_length : Z) (text : str) :
  final_trim expected_length text = text \/
  exists (keep : nat) x,
    (1 <= keep)%nat /\
    finditer chapter_heading text !! keep = Some x /\
    final_trim expected_length text = take (m_start x) text /\
    (Z.of_nat (m_start x) <= expected_length + 50000 \/ keep = 1%nat) /\
    forall j y, (keep < j)%nat -> finditer chapter_heading text !! j = Some y ->
      expected_length + 50000 < Z.of_nat (m_start y).
Proof.
  unfold final_trim.
  destruct (Z.ltb_spec (expected_length + 50000) (len text)) as [Hlong|]; [|left; reflexivity].
  set (matches := finditer chapter_heading text).
  destruct (Nat.ltb_spec 1 (length matches)) as [Hn|]; [|left; reflexivity].
  set (starts := map (fun x => Z.of_nat (m_start x)) matches).
  assert (Hls : length starts = length matches) by (unfold starts; apply length_map).
  rewrite chapter_spans_length, Hls.
  pose proof (chapters_to_keep_spec starts (len text) (expected_length + 50000)
                (length matches) (length matches) ltac:(lia) ltac:(lia)) as Hspec.
  assert (Hend : start_at starts (len text) (length matches) = len text).
  { unfold start_at. rewrite lookup_ge_None_2 by lia. reflexivity. }
  rewrite Hend in Hspec. cbv zeta in Hspec.
  set (keep := chapters_to_keep _ _ _ _ _) in *.
  destruct Hspec as (H1 & H2 & H3 & H4).
  destruct (Nat.ltb_spec keep (length matches)) as [Hlt|]; [|left; reflexivity].
  destruct (lookup_lt_is_Some_2 matches keep Hlt) as [x Hx].
  assert (Hst : starts !! keep = Some (Z.of_nat (m_start x))).
  { unfold starts. rewrite list_lookup_fmap, Hx. reflexivity. }
  rewrite (chapter_spans_lookup (len text) starts keep _ Hst).
  right. exists keep, x. split; [lia|]. split; [exact Hx|].
  split; [apply slice_to_take|]. split.
  - destruct H3 as [H3|H3]; [left|right; lia].
    unfold start_at in H3. rewrite Hst in H3. exact H3.
  - intros j y Hj Hy.
    assert (Hjn : (j < length matches)%nat) by (apply lookup_lt_is_Some; eauto).
    specialize (H4 j ltac:(lia)). unfold start_at in H4.
    unfold starts in H4. rewrite list_lookup_fmap, Hy in H4. exact H4.
Qed.
End FinalTrim.

(** ** The provider round trip *)

Section ProviderRoundTrip.
Import Llm LlmCall.

Lemma attempts_all_fail (ask : provider) req : forall n last log,
  (forall j, (j < n)%nat -> exists e, ask (length log + j)%nat req = Raise e) ->
  exists last',
    attempts ask req n last log = (inl last', log ++ replicate n req) /\
    (n = 0%nat -> last' = last) /\
    (forall n', n = S n' ->
       exists e, last' = Some e /\ ask (length log + n')%nat req = Raise e).
Proof.
  induction n as [|n IH]; intros last log H.
  - exists last. cbn. rewrite app_nil_r. split; [reflexivity|]. split; [reflexivity|].
    intros n' Hn. discriminate.
  - cbn [attempts]. destruct (H 0%nat ltac:(lia)) as [e0 H0].
    rewrite Nat.add_0_r in H0. rewrite H0.
    destruct (IH (Some e0) (log ++ [req])) as (last' & Hrun & Hzero & Hlast).
    { intros j Hj. destruct (H (S j) ltac:(lia)) as [e He]. exists e.
      rewrite length_app. cbn [length]. rewrite <- He. f_equal. lia. }
    exists last'. split; [|split].
    + rewrite Hrun. cbn [replicate]. rewrite <- app_assoc. reflexivity.
    + discriminate.
    + intros n' Hn. injection Hn as <-. destruct n as [|n0].
      * rewrite (Hzero eq_refl). exists e0. rewrite Nat.add_0_r. auto.
      * destruct (Hlast n0 eq_refl) as (e & H1 & H2). exists e. split; [exact H1|].
        rewrite <- H2. f_equal. rewrite length_app. cbn [length]. lia.
Qed.

Lemma attempts_first_success (ask : provider) req response : forall k n last log,
  (k < n)%nat ->
  (forall j, (j < k)%nat -> exists e, ask (length log + j)%nat req = Raise e) ->
  ask (length log + k)%nat req = Ok response ->
  attempts ask req n last log = (inr response, log ++ replicate (S k) req).
Proof.
  induction k as [|k IH]; intros n last log Hk Hfail Hok.
  - destruct n as [|n]; [lia|]. cbn [attempts]. rewrite Nat.add_0_r in Hok.
    rewrite Hok. reflexivity.
  - destruct n as [|n]; [lia|]. cbn [attempts].
    destruct (Hfail 0%nat ltac:(lia)) as [e0 H0]. rewrite Nat.add_0_r in H0. rewrite H0.
    rewrite (IH n (Some e0) (log ++ [req])); try lia.
    + cbn [replicate]. rewrite <- app_assoc. reflexivity.
    + intros j Hj. destruct (Hfail (S j) ltac:(lia)) as [e He]. exists e.
      rewrite length_app. cbn [length]. rewrite <- He. f_equal. lia.
    + rewrite length_app. cbn [length]. rewrite <- Hok. f_equal. lia.
Qed.

Lemma process_llm_unfold depth env ask log context system_prompt model max_retries :
  _check_api_key_for_model env model = Ok tt ->
  env !! "MOCK_LLM_API"%string <> Some "true"%string ->
  process_llm depth env ask log context system_prompt model max_retries
  = match attempts ask (request_for (_format_model_name model) system_prompt context)
            (Z.to_nat max_retries) None log with
    | (inr response, log) => (inr response, log)
    | (inl last_error, log) =>
        match last_error with
        | Some e => (inl (Raised e), log)
        | None => (inl (Failed (failure_message (_format_model_name model) max_retries)), log)
        end
    end.
Proof.
  intros Hkey Hmock. destruct depth; cbn [process_llm]; rewrite Hkey;
    (destruct (decide (env !! "MOCK_LLM_API"%string = Some "true"%string));
     [contradiction|]);
    destruct (attempts _ _ _ _ _) as [[last|response] log']; try reflexivity;
    destruct (fallback_model env); reflexivity.
Qed.

(** X8.  Outside mock mode, once the credential check has passed,
    [process_llm] returns the first answer the provider gives within
    [max_retries] attempts; every attempt sends the same request, and none
    is made after the answer. *)
Theorem process_llm_returns_first_answer depth env (ask : provider) log context
    system_prompt model max_retries (k : nat) response :
  _check_api_key_for_model env model = Ok tt ->
  env !! "MOCK_LLM_API"%string <> Some "true"%string ->
  (k < Z.to_nat max_retries)%nat ->
  let req := request_for (_format_model_name model) system_prompt context in
  (forall j, (j < k)%nat -> exists e, ask (length log + j)%nat req = Raise e) ->
  ask (length log + k)%nat req = Ok response ->
  process_llm depth env ask log context system_prompt model max_retries
  = (inr response, log ++ replicate (S k) req).
Proof.
  intros Hkey Hmock Hk req Hfail Hok.
  rewrite process_llm_unfold by assumption. fold req.
  rewrite (attempts_first_success ask req response k _ None log Hk Hfail Hok).
  reflexivity.
Qed.

(** X9.  When no attempt succeeds the provider has been asked
    [max_retries] times, each time with the request for the model of the
    call, and the error of the last attempt is raised (the final
    [Exception] when [max_retries] allows no attempt).  The fallback model
    is never asked, whatever [LLM_FALLBACK_ENABLED] and [LLM_FALLBACK_MODEL]
    are: the call that should reach it names a parameter [process_llm] does
    not have. *)
Theorem process_llm_never_asks_the_fallback depth env (ask : provider) log context
    system_prompt model max_retries :
  _check_api_key_for_model env model = Ok tt ->
  env !! "MOCK_LLM_API"%string <> Some "true"%string ->
  let req := request_for (_format_model_name model) system_prompt context in
  let n := Z.to_nat max_retries in
  (forall j, (j < n)%nat -> exists e, ask (length log + j)%nat req = Raise e) ->
  exists err,
    process_llm depth env ask log context system_prompt model max_retries
    = (inl err, log ++ replicate n req) /\
    match n with
    | O => err = Failed (failure_message (_format_model_name model) max_retries)
    | S n' => exists e, err = Raised e /\ ask (length log + n')%nat req = Raise e
    end.
Proof.
  intros Hkey Hmock req n Hfail.
  rewrite process_llm_unfold by assumption. fold req. fold n.
  destruct (attempts_all_fail ask req n None log Hfail) as (last & Hrun & Hzero & Hlast).
  rewrite Hrun. destruct n as [|n'].
  - rewrite (Hzero eq_refl). eexists. split; reflexivity.
  - destruct (Hlast n' eq_refl) as (e & -> & H2).
    eexists. split; [reflexivity|]. exists e. split; [reflexivity|exact H2].
Qed.

(** X10.  [process_with_llm] never returns: it calls [process_llm] with the
    keyword [text], which is no parameter of it, so every call ends in a
    [TypeError] before the credential check and before any request. *)
Theorem process_with_llm_raises_type_error depth env (ask : provider) log context
    system_prompt model max_retries :
  process_with_llm depth env ask log context system_prompt model max_retries
  = (inl (TypeError (s "process_llm() got an unexpected keyword argument 'text'")), log).
Proof. reflexivity. Qed.

Lemma contains_cons_slash (m : str) :
  contains (s "/") (s "gemini/" ++ m) = true /\ contains (s "/") (s "deepseek/" ++ m) = true.
Proof. split; cbn; rewrite ?orb_true_r; reflexivity. Qed.

(** X11.  Formatting a model name twice is formatting it once. *)
Theorem format_model_name_idempotent (model : str) :
  _format_model_name (_format_model_name model) = _format_model_name model.
Proof.
  assert (H : _format_model_name model = model \/
              _format_model_name model = s "gemini/" ++ model \/
              _format_model_name model = s "deepseek/" ++ model).
  { unfold _format_model_name.
    destruct (contains (s "/") model); [auto|].
    destruct (any_in openai_names model); [auto|].
    destruct (contains (s "gemini") (lower model)); [auto|].
    destruct (any_in anthropic_names model); [auto|].
    destruct (contains (s "deepseek") (lower model)); auto. }
  destruct H as [H|[H|H]]; rewrite H.
  - exact H.
  - unfold _format_model_name. rewrite (proj1 (contains_cons_slash model)). reflexivity.
  - unfold _format_model_name. rewrite (proj2 (contains_cons_slash model)). reflexivity.
Qed.

(** X12.  A model that the credential check takes for a Gemini model and
    that is named without a provider prefix is asked through
    [litellm.completion] under the name with the prefix, with one message of
    the user: the system prompt, when there is one, a blank line, and the
    text. *)
Theorem gemini_request_without_prefix env system_prompt context (model : str) key_name :
  contains (s "/") model = false ->
  provider_key env model = Some ("gemini"%string, key_name) ->
  request_for (_format_model_name model) system_prompt context
  = Completion (s "gemini/" ++ model)
      [(User, match given system_prompt with
              | Some p => p ++ [NL; NL] ++ context
              | None => context
              end)].
Proof.
  intros Hslash Hkey. unfold provider_key in Hkey.
  destruct (any_in openai_names model) eqn:E2; [discriminate|].
  destruct (contains (s "gemini") (lower model)) eqn:E3.
  - unfold _format_model_name. rewrite Hslash, E2, E3.
    unfold request_for.
    replace (contains (s "gemini") (lower (s "gemini/" ++ model))) with true
      by (cbn; reflexivity).
    unfold _process_with_gemini. cbn [starts_with s list_ascii_of_string app].
    rewrite !Ascii.eqb_refl. reflexivity.
  - destruct (any_in anthropic_names model); [discriminate|].
    destruct (contains (s "deepseek") (lower model)); discriminate.
Qed.
End ProviderRoundTrip.

(** ** More on the segmenter *)

Section SegmenterMore.
Import Re Segmenter.
Variable cfg : config.

Lemma lstrip_suffix x : exists w, x = w ++ lstrip x.
Proof.
  induction x as [|c x [w IH]]; [exists []; reflexivity|].
  cbn. destruct (isspace c).
  - exists (c :: w). cbn. f_equal. exact IH.
  - exists []. reflexivity.
Qed.

Lemma lstrip_head_not_space x c r : lstrip x = c :: r -> isspace c = false.
Proof.
  induction x as [|d x IH]; [discriminate|]. cbn.
  destruct (isspace d) eqn:E; [exact IH|]. intros H. injection H as <- _. exact E.
Qed.

Lemma strip_trimmed_or_empty x : strip x = [] \/ StructureIndex.trimmed (strip x) = true.
Proof.
  unfold strip, rstrip. set (y := lstrip x).
  destruct (lstrip (reverse y)) as [|z r] eqn:Ez; [left; reflexivity|right].
  pose proof (lstrip_head_not_space _ _ _ Ez) as Hz.
  destruct (lstrip_suffix (reverse y)) as [w Hw]. rewrite Ez in Hw.
  apply (f_equal reverse) in Hw. rewrite reverse_involutive, reverse_app in Hw.
  rewrite reverse_cons in Hw |- *.
  unfold StructureIndex.trimmed.
  assert (Hlast : last (reverse r ++ [z]) = Some z) by apply last_snoc.
  destruct (reverse r ++ [z]) as [|c t] eqn:Et; [destruct (reverse r); discriminate|].
  rewrite Hlast.
  assert (Hc : isspace c = false).
  { destruct y as [|c' y'] eqn:Ey.
    - destruct (reverse w); discriminate.
    - assert (c' = c) by (cbn in Hw; injection Hw as -> _; reflexivity).
      subst c'. unfold y in Ey. apply (lstrip_head_not_space _ _ _ Ey). }
  rewrite Hc, Hz. reflexivity.
Qed.

(** X13.  The paragraphs the segmenter works on are never empty and have no
    blank at either end, and together they are no longer than the text. *)
Theorem split_into_paragraphs_trimmed (text : str) :
  Forall (fun p => StructureIndex.trimmed p = true) (_split_into_paragraphs text) /\
  total_length (_split_into_paragraphs text) <= len text.
Proof.
  split; [|apply total_length_paragraphs].
  unfold _split_into_paragraphs. apply Forall_forall. intros p Hp.
  apply list_elem_of_fmap in Hp as (q & -> & Hq).
  apply list_elem_of_filter in Hq as [Hq _].
  destruct (strip_trimmed_or_empty q) as [H|H]; [|exact H].
  rewrite H in Hq. contradiction.
Qed.

Lemma boundaries_from_indices paragraphs : forall i cumulative prev,
  map index (boundaries_from cfg i cumulative prev paragraphs) = seq i (length paragraphs) /\
  Forall (fun b => position b
                   = cumulative + total_length (take (index b - i) paragraphs))
         (boundaries_from cfg i cumulative prev paragraphs).
Proof.
  induction paragraphs as [|p ps IH]; intros i cumulative prev.
  - split; [reflexivity|constructor].
  - cbn [boundaries_from map length seq].
    destruct (IH (S i) (cumulative + len p) p) as [IH1 IH2]. split.
    + rewrite IH1. reflexivity.
    + constructor.
      * cbn [index position]. rewrite Nat.sub_diag. cbn. lia.
      * apply Forall_forall. intros b Hb.
        pose proof (boundaries_from_bounds cfg ps (S i) _ _ b Hb) as [Hi _].
        rewrite Forall_forall in IH2. rewrite (IH2 b Hb).
        replace (index b - i)%nat with (S (index b - S i)) by lia.
        cbn [take total_length foldr]. unfold total_length. lia.
Qed.

(** X14.  There is one boundary for every paragraph but the first, in the
    order of the paragraphs: boundary [i] stands before paragraph [i], at the
    position that is the total length of the paragraphs before it. *)
Theorem identify_boundaries_positions (paragraphs : list str) :
  map index (_identify_boundaries cfg paragraphs) = seq 1 (length paragraphs - 1) /\
  Forall (fun b => position b = total_length (take (index b) paragraphs))
         (_identify_boundaries cfg paragraphs).
Proof.
  destruct paragraphs as [|p ps]; [split; [reflexivity|constructor]|].
  cbn [_identify_boundaries].
  replace (length (p :: ps) - 1)%nat with (length ps) by (cbn [length]; lia).
  destruct (boundaries_from_indices ps 1 (len p) p) as [H1 H2]. split; [exact H1|].
  apply Forall_forall. intros b Hb.
  pose proof (boundaries_from_bounds cfg ps 1 _ _ b Hb) as [Hi _].
  rewrite Forall_forall in H2. rewrite (H2 b Hb).
  replace (index b) with (S (index b - 1)) at 2 by lia.
  cbn [take total_length foldr]. reflexivity.
Qed.

Lemma collect_length paragraphs : forall selected start_idx segments,
  (length segments <= length (collect cfg paragraphs start_idx segments selected)
   <= length segments + length selected)%nat.
Proof.
  induction selected as [|b selected IH]; intros start_idx segments; cbn [collect length].
  - lia.
  - destruct ((min_segment_size cfg <=? len _) || (start_idx =? 0)%nat).
    + specialize (IH (index b) (segments ++ [join blank_line
                       (take (index b - start_idx) (drop start_idx paragraphs))])).
      rewrite length_app in IH. cbn [length] in IH. lia.
    + specialize (IH start_idx segments). lia.
Qed.

Lemma collect_first paragraphs b selected :
  (1 <= length (collect cfg paragraphs 0 [] (b :: selected)))%nat.
Proof.
  cbn [collect]. rewrite Nat.eqb_refl, orb_true_r.
  pose proof (collect_length paragraphs selected (index b)
                ([] ++ [join blank_line (take (index b - 0) (drop 0 paragraphs))])) as H.
  cbn [app length] in H. cbn [app]. lia.
Qed.

Lemma merge_last_length segments :
  (1 <= length segments -> 1 <= length (merge_last cfg segments) <= length segments)%nat.
Proof.
  intros H. unfold merge_last.
  destruct (rev segments) as [|l [|p before]] eqn:E; [lia|lia|].
  destruct (len l <? min_segment_size cfg); [|lia].
  apply (f_equal (@length _)) in E. rewrite length_rev in E. cbn [length] in E.
  rewrite length_app, length_rev. cbn [length]. lia.
Qed.

(** X15.  Whatever the paragraphs and the boundaries, the segments built
    before the check against the maximum are at least one and at most the
    number aimed at. *)
Theorem grouped_segments_count (paragraphs : list str) (boundaries : list boundary)
    (ideal : Z) :
  1 <= ideal ->
  1 <= Z.of_nat (length (grouped_segments cfg paragraphs boundaries ideal)) <= ideal.
Proof.
  intros Hideal. unfold grouped_segments.
  set (selected := selected_boundaries paragraphs boundaries ideal).
  assert (Hsel : (1 <= length selected <= Z.to_nat (ideal - 1) + 1)%nat).
  { unfold selected, selected_boundaries. rewrite length_app, sort_by_length, length_take.
    cbn [length]. lia. }
  assert (Hfirst : (1 <= length (collect cfg paragraphs 0 [] selected))%nat).
  { destruct selected as [|b sel]; [cbn in Hsel; lia|]. apply collect_first. }
  pose proof (collect_length paragraphs selected 0 []) as Hc. cbn [length] in Hc.
  pose proof (merge_last_length _ Hfirst) as Hm. lia.
Qed.

Lemma collect_tail_above_minimum (paragraphs : list str) (ideal : Z) :
  Forall (fun p => p <> []) paragraphs ->
  Forall (fun x => min_segment_size cfg <= len x)
    (tail (collect cfg paragraphs 0 []
             (selected_boundaries paragraphs (_identify_boundaries cfg paragraphs) ideal))).
Proof.
  intros Hne. destruct paragraphs as [|p ps].
  - unfold selected_boundaries. cbn [_identify_boundaries sort_by foldr].
    rewrite take_nil. unfold sort_by.
    cbn [foldr app collect length index Nat.sub drop take join Nat.eqb].
    rewrite orb_true_r. constructor.
  - destruct (selected_boundaries_sorted cfg (p :: ps) ideal Hne) as (chosen & -> & Hs & Hi).
    apply (collect_spec cfg (p :: ps) _ 0%nat [] []).
    + apply strongly_sorted_snoc; [exact Hs|].
      eapply Forall_impl; [exact Hi|]. cbn. intros b Hb. lia.
    + apply Forall_app. split.
      * eapply Forall_impl; [exact Hi|]. cbn. intros b Hb. lia.
      * constructor; [cbn; lia|constructor].
    + reflexivity.
    + reflexivity.
    + constructor.
    + split; reflexivity.
Qed.

(** X16.  On the paragraphs of a text and their boundaries the merge of a
    short last segment never applies: the loop has left no short segment
    after the first, so the segments are those of the loop. *)
Theorem merge_last_never_applies (text : str) (ideal : Z) :
  let paragraphs := _split_into_paragraphs text in
  grouped_segments cfg paragraphs (_identify_boundaries cfg paragraphs) ideal
  = collect cfg paragraphs 0 []
      (selected_boundaries paragraphs (_identify_boundaries cfg paragraphs) ideal).
Proof.
  intros paragraphs. unfold grouped_segments. apply merge_last_keeps.
  apply collect_tail_above_minimum, split_into_paragraphs_nonempty.
Qed.

Lemma min_by_in {A} (key : A -> Z) : forall l x, min_by key x l ∈ x :: l.
Proof.
  induction l as [|y l IH]; intros x; cbn [min_by].
  - apply elem_of_cons. left. reflexivity.
  - specialize (IH (if key y <? key x then y else x)).
    apply elem_of_cons in IH as [IH|IH].
    + rewrite IH. destruct (key y <? key x).
      * apply elem_of_cons. right. apply elem_of_cons. left. reflexivity.
      * apply elem_of_cons. left. reflexivity.
    + apply elem_of_cons. right. apply elem_of_cons. right. exact IH.
Qed.

(** X17.  The break point is the target position itself when no sentence
    ends within 1000 characters of it; otherwise it is at most 1000
    characters away from the target and not beyond the end of the text. *)
Theorem find_sentence_break_near_target (text : str) (target_position : Z) :
  0 <= target_position ->
  let break_point := _find_sentence_break text target_position in
  break_point = target_position \/
  (target_position - 1000 <= break_point <= target_position + 1000 /\
   0 <= break_point <= len text).
Proof.
  intros Htarget. cbv zeta. unfold _find_sentence_break.
  set (window_start := Z.max 0 (target_position - 1000)).
  set (window_end := Z.min (len text) (target_position + 1000)).
  destruct (finditer sentence_end (slice text window_start window_end)) as [|x l] eqn:E;
    [left; reflexivity|right].
  pose proof (min_by_in (fun x => Z.abs (Z.of_nat (m_end x)
                                          - (target_position - window_start))) l x) as Hin.
  rewrite <- E in Hin. apply finditer_spans in Hin.
  set (closest := min_by _ x l) in *.
  assert (Hlen : Z.of_nat (length (slice text window_start window_end))
                 <= Z.max 0 (window_end - window_start)).
  { unfold slice, norm_index.
    destruct (Z.ltb_spec window_start 0); [unfold window_start in *; lia|].
    destruct (Z.ltb_spec window_end 0);
      rewrite length_take, length_drop; unfold len in *; lia. }
  assert (0 <= len text) by (unfold len; lia).
  destruct (Z_lt_ge_dec window_end window_start) as [Hempty|Hwin].
  - exfalso.
    assert (Hnil : slice text window_start window_end = []).
    { apply length_zero_iff_nil. lia. }
    rewrite Hnil in E. discriminate E.
  - unfold window_start, window_end in *. lia.
Qed.

Lemma ceil_truediv_total a b :
  0 <= a < 2 ^ 53 -> 0 < b < 2 ^ 53 ->
  exists q c, PyFloat.int_truediv a b = Some q /\ PyFloat.ceil q = Some c.
Proof.
  intros Ha Hb. unfold PyFloat.int_truediv.
  destruct (Z.eqb_spec b 0) as [|_]; [lia|].
  exists (PyFloat.div (PyFloat.of_int a) (PyFloat.of_int b)).
  destruct (Z.eq_dec a 0) as [->|Hne].
  - destruct (of_int_normal b Hb) as (my & ey & Hy & _). rewrite Hy.
    exists 0. split; reflexivity.
  - destruct (div_of_int_finite a b ltac:(lia) Hb) as (m & e & Hd). rewrite Hd.
    eexists. split; reflexivity.
Qed.

(** X18.  A segment longer than the maximum that is one paragraph cannot be
    split: the number of paragraphs per piece is zero, and [range] raises. *)
Theorem split_long_segment_of_one_paragraph (segment : str) :
  0 < target_segment_size cfg < 2 ^ 53 ->
  max_segment_size cfg < len segment < 2 ^ 53 ->
  (length (_split_into_paragraphs segment) <= 1)%nat ->
  _split_long_segment cfg segment
  = Raise (ValueError (s "range() arg 3 must not be zero")).
Proof.
  intros Htarget Hlen Hone. unfold _split_long_segment. cbn [split_long_segment].
  destruct (Z.leb_spec (len segment) (max_segment_size cfg)); [lia|].
  assert (0 <= len segment) by (unfold len; lia).
  destruct (ceil_truediv_total (len segment) (target_segment_size cfg) ltac:(lia) ltac:(lia))
    as (q & c & Hq & Hc).
  rewrite Hq. cbn [of_option mbind result_bind rbind]. rewrite Hc.
  cbn [of_option mbind result_bind rbind].
  assert (Hzero : Z.to_nat (Z.of_nat (length (_split_into_paragraphs segment)) / Z.max 2 c)
                  = 0%nat).
  { assert (Z.of_nat (length (_split_into_paragraphs segment)) / Z.max 2 c = 0); [|lia].
    apply Z.div_small. lia. }
  rewrite Hzero. reflexivity.
Qed.
End SegmenterMore.

(** ** Texts without braces *)

Lemma brace_free_nil : brace_free [].
Proof. reflexivity. Qed.

Lemma brace_free_cons c x : brace_free (c :: x) <-> is_brace c = false /\ brace_free x.
Proof.
  unfold brace_free. cbn. rewrite andb_true_iff, negb_true_iff. reflexivity.
Qed.

Lemma brace_free_app x y : brace_free (x ++ y) <-> brace_free x /\ brace_free y.
Proof.
  unfold brace_free. rewrite forallb_app, andb_true_iff. reflexivity.
Qed.

Lemma brace_free_Forall x : brace_free x <-> Forall (fun c => is_brace c = false) x.
Proof.
  induction x as [|c x IH]; [split; [constructor|reflexivity]|].
  rewrite brace_free_cons, Forall_cons, IH. reflexivity.
Qed.

Lemma brace_free_take n x : brace_free x -> brace_free (take n x).
Proof. rewrite !brace_free_Forall. apply Forall_take. Qed.

Lemma brace_free_drop n x : brace_free x -> brace_free (drop n x).
Proof. rewrite !brace_free_Forall. apply Forall_drop. Qed.

Lemma brace_free_reverse x : brace_free x -> brace_free (reverse x).
Proof. rewrite !brace_free_Forall. apply Forall_reverse. Qed.

Lemma brace_free_lstrip x : brace_free x -> brace_free (lstrip x).
Proof.
  induction x as [|c x IH]; [auto|]. intros H. cbn.
  destruct (isspace c); [|exact H]. apply IH. apply brace_free_cons in H. tauto.
Qed.

Lemma brace_free_strip x : brace_free x -> brace_free (strip x).
Proof.
  intros H. unfold strip, rstrip.
  auto using brace_free_reverse, brace_free_lstrip.
Qed.

Lemma brace_free_replicate n c : is_brace c = false -> brace_free (replicate n c).
Proof.
  intros H. induction n as [|n IH]; [reflexivity|]. cbn [replicate].
  apply brace_free_cons. auto.
Qed.

Lemma pretty_N_char_no_brace x : is_brace (pretty_N_char x) = false.
Proof.
  unfold pretty_N_char.
  destruct x as [|p]; [reflexivity|].
  do 4 (destruct p as [p|p|]; try reflexivity).
Qed.

Lemma pretty_N_go_brace_free x : forall acc,
  brace_free (s acc) -> brace_free (s (pretty_N_go x acc)).
Proof.
  induction (N.lt_wf_0 x) as [x _ IH]. intros acc Hacc.
  destruct (decide (x = 0%N)) as [->|Hx].
  - rewrite pretty_N_go_0. exact Hacc.
  - rewrite pretty_N_go_step by lia. apply IH.
    + apply N.div_lt; lia.
    + unfold s. cbn [list_ascii_of_string]. apply brace_free_cons.
      split; [apply pretty_N_char_no_brace|exact Hacc].
Qed.

Lemma pretty_N_brace_free (x : N) : brace_free (s (pretty x)).
Proof.
  unfold pretty, pretty_N. destruct (decide (x = 0%N)); [reflexivity|].
  apply pretty_N_go_brace_free. reflexivity.
Qed.

Lemma pretty_Z_brace_free (z : Z) : brace_free (s (pretty z)).
Proof.
  destruct z as [|p|p]; [reflexivity| |].
  - apply (pretty_N_brace_free (Npos p)).
  - change (pretty (Zneg p)) with ("-" +:+ pretty (Npos p))%string.
    unfold s. cbn [String.append list_ascii_of_string]. apply brace_free_cons.
    split; [reflexivity|apply (pretty_N_brace_free (Npos p))].
Qed.

Lemma format_fixed_brace_free d f : brace_free (PyFormat.format_fixed d f).
Proof.
  assert (Hrender : forall sign scaled,
    brace_free ((if sign : bool then s "-" else []) ++ s (pretty (scaled / 10 ^ Z.of_nat d)) ++
       match d with
       | O => []
       | _ => s "." ++ replicate (d - length (s (pretty (scaled mod 10 ^ Z.of_nat d)))) "0"%char
                ++ s (pretty (scaled mod 10 ^ Z.of_nat d))
       end)).
  { intros sign scaled. apply brace_free_app. split; [destruct sign; reflexivity|].
    apply brace_free_app. split; [apply pretty_Z_brace_free|].
    destruct d; [reflexivity|].
    apply brace_free_app. split; [reflexivity|].
    apply brace_free_app. split; [apply brace_free_replicate; reflexivity|].
    apply pretty_Z_brace_free. }
  unfold PyFormat.format_fixed. destruct f as [sg|sg| |sg m e].
  - apply Hrender.
  - destruct sg; reflexivity.
  - reflexivity.
  - apply Hrender.
Qed.

Lemma master_doc_extract_brace_free n md :
  brace_free md -> brace_free (CustomPrompts.master_doc_extract n md).
Proof.
  intros H. unfold CustomPrompts.master_doc_extract.
  destruct md as [|c md]; [reflexivity|].
  set (doc := c :: md) in *.
  match goal with |- brace_free (match ?e with [] => _ | _ => _ end) =>
    assert (He : brace_free e); [|destruct e; [exact H|exact He]] end.
  destruct (contains _ doc); [|reflexivity].
  destruct (contains _ _); apply brace_free_strip;
    auto using brace_free_take, brace_free_drop.
Qed.

(** ** The prompt of an expansion segment *)

Section Scan.
Import PyFormat.
Variable render_field : str -> str -> option ascii -> result str -> result str.
Variable kwargs : list (str * str).
Variable expand : str -> result str.

Lemma rbind_ok {A B} (r : result A) (f : A -> result B) b :
  (x ← r; f x) = Ok b -> exists a, r = Ok a /\ f a = Ok b.
Proof. destruct r as [a|e]; [eauto|discriminate]. Qed.

Lemma scan_app x y : forall st rx,
  scan render_field kwargs expand x st = Ok rx ->
  scan render_field kwargs expand (x ++ y) st
  = (ry ← scan render_field kwargs expand y Literal; Ok (rx ++ ry)).
Proof.
  set (continues x' :=
         forall st rx, scan render_field kwargs expand x' st = Ok rx ->
           scan render_field kwargs expand (x' ++ y) st
           = (ry ← scan render_field kwargs expand y Literal; Ok (rx ++ ry))).
  assert (Hends : forall x' name conv spec needs rx,
    continues x' ->
    (value ← output_markup render_field kwargs expand name conv spec needs;
     rest ← scan render_field kwargs expand x' Literal; Ok (value ++ rest)) = Ok rx ->
    (value ← output_markup render_field kwargs expand name conv spec needs;
     rest ← scan render_field kwargs expand (x' ++ y) Literal; Ok (value ++ rest))
    = (ry ← scan render_field kwargs expand y Literal; Ok (rx ++ ry))).
  { intros x' name conv spec needs rx IH H.
    apply rbind_ok in H as (v & Hv & H). apply rbind_ok in H as (r & Hr & H).
    injection H as <-. rewrite Hv. cbn. rewrite (IH _ _ Hr).
    destruct (scan render_field kwargs expand y Literal); cbn;
      [rewrite app_assoc; reflexivity|reflexivity]. }
  assert (Hlit : forall x' (c : ascii) rx,
    continues x' ->
    (rest ← scan render_field kwargs expand x' Literal; Ok (c :: rest)) = Ok rx ->
    (rest ← scan render_field kwargs expand (x' ++ y) Literal; Ok (c :: rest))
    = (ry ← scan render_field kwargs expand y Literal; Ok (rx ++ ry))).
  { intros x' c rx IH H. apply rbind_ok in H as (r & Hr & H). injection H as <-.
    rewrite (IH _ _ Hr). destruct (scan render_field kwargs expand y Literal); reflexivity. }
  change (continues x).
  induction x as [|c x IH]; intros st rx H.
  - destruct st; try discriminate. injection H as <-. cbn.
    destruct (scan render_field kwargs expand y Literal); reflexivity.
  - cbn [app]. destruct st; cbn [PyFormat.scan] in *;
      repeat match goal with
      | |- context [if ?b then _ else _] => destruct b
      | |- context [match ?n with O => _ | S _ => _ end] => destruct n
      end;
      try discriminate; auto.
Qed.

Lemma scan_brace_free x :
  brace_free x -> scan render_field kwargs expand x Literal = Ok x.
Proof.
  induction x as [|c x IH]; [reflexivity|]. intros H.
  apply brace_free_cons in H as [Hc Hx]. cbn [PyFormat.scan].
  unfold is_brace in Hc. apply orb_false_iff in Hc as [-> ->].
  rewrite (IH Hx). reflexivity.
Qed.

Lemma formats_app x y :
  formats render_field kwargs expand x ->
  formats render_field kwargs expand y ->
  formats render_field kwargs expand (x ++ y).
Proof.
  intros [rx Hx] [ry Hy]. exists (rx ++ ry).
  rewrite (scan_app x y _ _ Hx), Hy. reflexivity.
Qed.

Lemma formats_is_ok x :
  match scan render_field kwargs expand x Literal with
  | Ok _ => True
  | Raise _ => False
  end ->
  formats render_field kwargs expand x.
Proof.
  unfold formats.
  destruct (scan render_field kwargs expand x Literal); [eauto|contradiction].
Qed.

Lemma formats_brace_free x : brace_free x -> formats render_field kwargs expand x.
Proof. intros H. exists x. apply scan_brace_free, H. Qed.

End Scan.

Section Prompt.
Import Rewriter.
Variable render_field : str -> str -> option ascii -> result str -> result str.
Variable master_document : str.
Variable components : prompt_components.

Lemma expansion_prompt_returns transcript_text g :
  brace_free master_document ->
  exists prompt,
    expansion_prompt render_field master_document components transcript_text g = Ok prompt.
Proof.
  intros Hdoc. unfold expansion_prompt,
    CustomPrompts.create_master_document_for_expansion_prompt.
  destruct expansion_band as [_ ->]. cbn [mbind result_bind rbind].
  unfold PyFormat.format. cbn [PyFormat.build_string].
  pose proof (master_doc_extract_brace_free (Expansion.chapter_num g) master_document Hdoc)
    as Hextract.
  set (extract := CustomPrompts.master_doc_extract _ _) in *.
  set (ratio := match (if 0 <? len (Expansion.text g) then _ else None) with
                | Some r => r | None => _ end).
  lazymatch goal with
  | |- exists r, PyFormat.scan ?rf ?kw ?ex ?x PyFormat.Literal = Ok r =>
      change (formats rf kw ex x)
  end.
  repeat lazymatch goal with |- formats _ _ _ (_ ++ _) => apply formats_app end;
    lazymatch goal with
    | |- formats _ _ _ (s (pretty _)) => apply formats_brace_free, pretty_Z_brace_free
    | |- formats _ _ _ (PyFormat.format_fixed _ _) =>
        apply formats_brace_free, format_fixed_brace_free
    | |- formats _ _ _ (if bool_decide _ then _ else _) =>
        apply formats_brace_free;
        destruct (bool_decide (extract = [])); [vm_compute; reflexivity|exact Hextract]
    | |- _ =>
        apply formats_is_ok; vm_compute; exact I
    end.
Qed.
End Prompt.

(** ** The expansion loop *)

Section ExpansionLoop.
Import Rewriter.

Variable generator : nat -> str -> prompt -> result str.
Variable max_retries : Z.
Variable render_field : str -> str -> option ascii -> result str -> result str.
Variable master_document : str.
Variable components : prompt_components.

#[local] Arguments LengthPlanner.int_mul : simpl never.

Lemma expansion_attempt_spec segment_text chapter_num previous st :
  let a := (segment_text,
            ExpansionPrompt chapter_num 15000 (prompt_corrections st) previous) in
  let r := generator (length (log st)) (fst a) (snd a) in
  exists st',
    expansion_attempt generator segment_text chapter_num previous st = (Ok tt, st') /\
    log st' = log st ++ [a] /\
    processed_chunks st' = processed_chunks st /\
    processed_chunk st' = match r with Ok out => Some out | Raise _ => processed_chunk st end /\
    (expansion_attempt_fails r ->
     success st' = success st /\ retries st' = retries st + 1) /\
    (forall out, r = Ok out -> expansion_acceptable out = true -> success st' = true).
Proof.
  intros a r. subst a r. cbn [fst snd]. destruct expansion_band as [Hlo Hhi].
  unfold expansion_attempt, try_except.
  unfold mbind, M_bind, mret, M_ret, get, lift, process_llm, incr_retries,
    set_success, set_retries, set_processed_chunk, set_prompt_corrections. cbn.
  change Expansion.max_chapter_size with 15000 in *.
  destruct (generator _ _ _) as [out|e] eqn:Hg; cbn.
  - rewrite Hlo. cbn. rewrite Hhi. cbn. unfold expansion_acceptable.
    destruct (len out <? 10500) eqn:E1; cbn;
      [|destruct (25500 <? len out) eqn:E2; cbn];
      (eexists; split; [reflexivity|]; cbn; repeat split; auto; try discriminate;
       intros out0 [= <-] Hacc; rewrite ?E1, ?E2 in Hacc; discriminate).
  - eexists; split; [reflexivity|]; cbn; repeat split; auto. discriminate.
Qed.

Lemma while_retrying_expansion g previous : forall fuel st,
  success st = false ->
  Z.of_nat fuel = Z.max 0 (max_retries - retries st) ->
  exists st' calls,
    while_retrying max_retries fuel
      (expansion_attempt generator (Expansion.text g) (Expansion.chapter_num g) previous)
      st = (Ok tt, st') /\
    log st' = log st ++ calls /\
    processed_chunks st' = processed_chunks st /\
    Forall (is_expansion_call_on g previous) calls /\
    processed_chunk st' = last_answer generator (length (log st)) calls (processed_chunk st) /\
    ((all_rejected generator (length (log st)) calls /\ length calls = fuel)
     \/
     (exists attempts final accepted,
        calls = attempts ++ [final] /\
        all_rejected generator (length (log st)) attempts /\
        (length attempts < fuel)%nat /\
        generator (length (log st) + length attempts)%nat (fst final) (snd final)
          = Ok accepted /\
        expansion_acceptable accepted = true)).
Proof.
  induction fuel as [|fuel IH]; intros st Hs Hfuel.
  - exists st, []. cbn. rewrite app_nil_r. repeat split; auto.
  - cbn [while_retrying]. unfold mbind at 1, M_bind at 1, get. cbn.
    rewrite Hs. cbn.
    replace (retries st <? max_retries) with true by (symmetry; apply Z.ltb_lt; lia).
    destruct (expansion_attempt_spec (Expansion.text g) (Expansion.chapter_num g)
                previous st) as (st1 & Hrun & Hlog & Hout & Hkept & Hfail & Hok).
    cbn zeta in *. cbn [fst snd] in *.
    set (a := (Expansion.text g,
               ExpansionPrompt (Expansion.chapter_num g) 15000 (prompt_corrections st)
                 previous)) in *.
    assert (Ha : is_expansion_call_on g previous a) by (eexists; reflexivity).
    unfold mbind, M_bind. rewrite Hrun.
    assert (Hga : generator (length (log st)) (fst a) (snd a)
                  = generator (length (log st)) (Expansion.text g)
                      (ExpansionPrompt (Expansion.chapter_num g) 15000
                         (prompt_corrections st) previous)) by reflexivity.
    destruct (generator (length (log st)) (Expansion.text g)
                (ExpansionPrompt (Expansion.chapter_num g) 15000
                   (prompt_corrections st) previous)) as [out|e] eqn:Hg;
      clearbody a.
    + destruct (expansion_acceptable out) eqn:Hacc.
      * specialize (Hok out eq_refl Hacc).
        assert (Hstop : while_retrying max_retries fuel
                          (expansion_attempt generator (Expansion.text g)
                             (Expansion.chapter_num g) previous) st1 = (Ok tt, st1)).
        { destruct fuel; [reflexivity|]. cbn [while_retrying].
          unfold mbind, M_bind, get. cbn. rewrite Hok. reflexivity. }
        exists st1, [a]. split; [exact Hstop|]. split; [exact Hlog|].
        split; [exact Hout|]. split; [repeat constructor; exact Ha|].
        split; [cbn [last_answer]; rewrite Hga; exact Hkept|].
        right. exists [], a, out. cbn [length app all_rejected]. rewrite Nat.add_0_r.
        repeat split; auto; lia.
      * destruct (Hfail Hacc) as [Hs1 Hr1].
        destruct (IH st1) as (st' & calls & Hrun' & Hlog' & Hout' & Hcalls & Hkept' & Hcases);
          [congruence|lia|].
        rewrite Hlog, length_app in Hkept', Hcases. cbn [length] in Hkept', Hcases.
        replace (length (log st) + 1)%nat with (S (length (log st))) in * by lia.
        exists st', (a :: calls). split; [exact Hrun'|].
        split; [rewrite Hlog', Hlog, <- app_assoc; reflexivity|].
        split; [congruence|]. split; [constructor; assumption|].
        split; [cbn [last_answer]; rewrite Hga, Hkept', Hkept; reflexivity|].
        destruct Hcases as [[Hall Hlen]|(attempts & final & accepted & -> & Hall & Hlen & Hgf & Haf)].
        -- left. split; [|cbn; lia]. cbn [all_rejected]. rewrite Hga. split; [assumption || exact I|exact Hall].
        -- right. exists (a :: attempts), final, accepted. cbn.
           split; [reflexivity|]. split; [rewrite Hga; split; [assumption || exact I|exact Hall]|].
           split; [lia|]. split; [|exact Haf].
           rewrite <- Hgf. f_equal. lia.
    + destruct (Hfail I) as [Hs1 Hr1].
      destruct (IH st1) as (st' & calls & Hrun' & Hlog' & Hout' & Hcalls & Hkept' & Hcases);
        [congruence|lia|].
      rewrite Hlog, length_app in Hkept', Hcases. cbn [length] in Hkept', Hcases.
      replace (length (log st) + 1)%nat with (S (length (log st))) in * by lia.
      exists st', (a :: calls). split; [exact Hrun'|].
      split; [rewrite Hlog', Hlog, <- app_assoc; reflexivity|].
      split; [congruence|]. split; [constructor; assumption|].
      split; [cbn [last_answer]; rewrite Hga, Hkept', Hkept; reflexivity|].
      destruct Hcases as [[Hall Hlen]|(attempts & final & accepted & -> & Hall & Hlen & Hgf & Haf)].
      * left. split; [|cbn; lia]. cbn [all_rejected]. rewrite Hga. split; [assumption || exact I|exact Hall].
      * right. exists (a :: attempts), final, accepted. cbn.
        split; [reflexivity|]. split; [rewrite Hga; split; [assumption || exact I|exact Hall]|].
        split; [lia|]. split; [|exact Haf].
        rewrite <- Hgf. f_equal. lia.
Qed.

Lemma previous_chapter_ending_returns st :
  previous_chapter_ending st = (Ok (ending_of_last (processed_chunks st)), st).
Proof.
  unfold previous_chapter_ending, ending_of_last, mbind, M_bind, get.
  destruct (last (processed_chunks st)) as [[|a x]|]; reflexivity.
Qed.

Lemma expansion_segment_spec transcript_text g is_last st :
  brace_free master_document ->
  exists st',
    expansion_segment generator max_retries render_field master_document components
      transcript_text g is_last st = (Ok tt, st') /\
    segment_outcome generator max_retries g st st'.
Proof.
  intros Hdoc.
  destruct (expansion_prompt_returns render_field master_document components
              transcript_text g Hdoc) as [prompt Hprompt].
  unfold expansion_segment, reset_locals.
  unfold mbind at 1, M_bind at 1, lift. rewrite Hprompt.
  unfold mbind at 1, M_bind at 1. rewrite previous_chapter_ending_returns.
  unfold mbind, M_bind, mret, M_ret, get, set_success, set_retries, set_processed_chunk,
    set_retry_instruction, set_prompt_corrections, append_output. cbn.
  match goal with |- context [while_retrying _ _ _ ?s] => set (st0 := s) end.
  destruct (while_retrying_expansion g (ending_of_last (processed_chunks st))
              (Z.to_nat max_retries) st0 eq_refl ltac:(cbn; lia))
    as (st1 & calls & Hrun & Hlog & Hout & Hcalls & Hkept & Hcases).
  rewrite Hrun. cbn [log processed_chunks processed_chunk] in *.
  eexists. split; [reflexivity|].
  exists calls. eexists. cbn [log processed_chunks]. cbn zeta.
  split; [exact Hlog|]. split; [rewrite Hout; reflexivity|].
  split; [exact Hcalls|]. split.
  - destruct Hcases as [[Hall Hlen]|(attempts & final & accepted & Hc & Hall & Hlen & Hg & Ha)].
    + left. split; [exact Hall|lia].
    + right. exists attempts, final, accepted. repeat split; auto. lia.
  - rewrite Hkept. reflexivity.
Qed.

(** X20.  When the master document holds no brace, the expansion loop
    returns without raising, whatever the generator answers and whatever the
    prompt components are, and gives every segment exactly one chapter, in
    the order of the segments.  The calls of a segment carry its text and
    the expansion prompt of its chapter (there is no fallback prompt on this
    path), with the last 400 characters of the chapter before; they stop at
    the first answer of 10500 to 25500 characters, or after [max_retries]
    calls.  The chapter is the last answer the generator gave for the
    segment, accepted or not; when it gave none, or an empty one last, the
    chapter is "Chapter N", a blank line, "[Unable to generate content for
    this chapter]", a blank line and the text of the segment. *)
Theorem expansion_segments_one_chapter_each transcript_text :
  brace_free master_document ->
  forall l i total st,
  exists st',
    expansion_segments generator max_retries render_field master_document components
      transcript_text l i total st = (Ok tt, st') /\
    expansion_outcome generator max_retries l st st' /\
    length (processed_chunks st') = (length (processed_chunks st) + length l)%nat.
Proof.
  intros Hdoc. induction l as [|g l IH]; intros i total st.
  - exists st. cbn. repeat split; auto.
  - cbn [expansion_segments expansion_outcome].
    destruct (expansion_segment_spec transcript_text g (i =? total - 1) st Hdoc)
      as (st1 & Hrun1 & Hseg).
    destruct (IH (i + 1) total st1) as (st' & Hrun & Hall & Hlen).
    exists st'. unfold mbind, M_bind. rewrite Hrun1. split; [exact Hrun|].
    split; [exists st1; auto|].
    destruct Hseg as (calls & out & _ & Hout & _). rewrite Hlen, Hout, length_app.
    cbn. lia.
Qed.
End ExpansionLoop.

(** X24.  A transcript that starts with "Hello {world}" and its outline,
    which quotes the start of each segment: [format] reads "{world}" in the
    template of the first prompt as a field, no argument has that name, and
    the job raises [KeyError] outside any [try], before the first call to
    the generator and with no chapter appended. *)
Theorem expansion_job_raises_on_braces
    (render_field : str -> str -> option ascii -> result str -> result str) :
  let transcript_text := s "Hello {world}, this is the talk and it goes on." in
  Expansion.segment_ranges transcript_text 20000 = Ok [(1, 0, 23); (2, 23, 47)] /\
  Rewriter.expansion_job echo_generator 3 render_field braces_outline no_components
    transcript_text 20000 Rewriter.initial_state
  = (Raise (KeyError (s "world")), Rewriter.initial_state).
Proof. vm_compute. split; reflexivity. Qed.

(** ** The values of the floats of the expansion segments *)

Lemma finite_in_weaken lo hi lo' hi' f :
  finite_in lo hi f -> lo' <= lo -> hi <= hi' -> finite_in lo' hi' f.
Proof.
  intros [->|(m & e & -> & Hm & He)] Hlo Hhi; [left; reflexivity|].
  right. exists m, e. split; [reflexivity|]. split; [exact Hm|lia].
Qed.

Lemma scaled_nonneg f : 0 <= scaled f.
Proof.
  destruct f as [| | |[] m e]; cbn;
    first [lia | apply Z.mul_nonneg_nonneg; [lia|apply Z.pow_nonneg; lia]].
Qed.

(** Rounding [p * 2 ^ E], a number of [53 + n] bits, with whatever is known
    about the digits below: a 53-bit mantissa, and a value between the two
    multiples of [2 ^ n] around [p]. *)
Lemma binary_round_aux_near p E l n :
  0 <= n -> 2 ^ (52 + n) <= Zpos p < 2 ^ (53 + n) ->
  -1074 <= E + n -> E + n + 1 <= 971 ->
  exists m' e',
    binary_round_aux 53 1024 false (Zpos p) E l = S754_finite false m' e' /\
    2 ^ 52 <= Zpos m' < 2 ^ 53 /\
    E + n <= e' <= E + n + 1 /\
    (Zpos p / 2 ^ n) * 2 ^ n <= Zpos m' * 2 ^ (e' - E) <= (Zpos p / 2 ^ n + 1) * 2 ^ n.
Proof.
  intros Hn Hp Hlo Hhi.
  unfold binary_round_aux.
  destruct (shr_fexp_any p E l n Hn Hp Hlo) as [Hm He].
  destruct (shr_fexp 53 1024 (Zpos p) E l) as [mrs' e'] eqn:E1.
  simpl in Hm, He. subst e'.
  set (q := Zpos p / 2 ^ n) in *.
  assert (Hpn : 0 < 2 ^ n) by (apply Z.pow_pos_nonneg; lia).
  assert (Hq : 2 ^ 52 <= q < 2 ^ 53).
  { unfold q. split.
    - apply Z.div_le_lower_bound; [lia|]. rewrite <- Z.pow_add_r by lia.
      replace (n + 52) with (52 + n) by lia. lia.
    - apply Z.div_lt_upper_bound; [lia|]. rewrite <- Z.pow_add_r by lia.
      replace (n + 53) with (53 + n) by lia. lia. }
  pose proof (round_nearest_even_range (shr_m mrs') (loc_of_shr_record mrs')) as Hr.
  rewrite Hm in *.
  destruct (round_nearest_even q (loc_of_shr_record mrs')) as [|r|r] eqn:Er; [lia| |lia].
  assert (Hcase : Zpos r < 2 ^ 53 \/ Zpos r = 2 ^ 53) by lia.
  destruct Hcase as [Hlt | Heq].
  - destruct (shr_fexp_exact_m r (E + n) 0 ltac:(lia)
                ltac:(simpl (52 + 0); simpl (53 + 0); lia) ltac:(lia)) as [Hm2 He2].
    destruct (shr_fexp 53 1024 (Zpos r) (E + n) loc_Exact) as [mrs'' e''] eqn:E2.
    simpl in Hm2, He2. rewrite Z.div_1_r in Hm2. rewrite Hm2.
    replace (e'' <=? 1024 - 53) with true by (symmetry; apply Z.leb_le; lia).
    exists r, e''. split; [reflexivity|]. split; [lia|]. split; [lia|].
    replace (e'' - E) with n by lia. nia.
  - destruct (shr_fexp_exact_m r (E + n) 1 ltac:(lia)
                ltac:(simpl (52 + 1); simpl (53 + 1); lia) ltac:(lia)) as [Hm2 He2].
    destruct (shr_fexp 53 1024 (Zpos r) (E + n) loc_Exact) as [mrs'' e''] eqn:E2.
    simpl in Hm2, He2. rewrite Hm2, Heq.
    change (2 ^ 53 / 2 ^ 1) with (Zpos 4503599627370496).
    replace (e'' <=? 1024 - 53) with true by (symmetry; apply Z.leb_le; lia).
    eexists _, e''. split; [reflexivity|]. split; [simpl; lia|]. split; [lia|].
    replace (e'' - E) with (n + 1) by lia.
    rewrite Z.pow_add_r by lia. change (2 ^ 1) with 2.
    change (2 ^ 52) with 4503599627370496 in *.
    change (2 ^ 53) with 9007199254740992 in *. nia.
Qed.

Lemma pow2_split a b : 0 <= a -> 0 <= b -> 2 ^ (a + b) = 2 ^ a * 2 ^ b.
Proof. intros. apply Z.pow_add_r; lia. Qed.

(** [float(t)] is exact. *)
Lemma scaled_of_int t :
  0 <= t < 2 ^ 53 ->
  finite_in (-52) 0 (PyFloat.of_int t) /\ scaled (PyFloat.of_int t) = t * 2 ^ 200.
Proof.
  intros Ht. destruct (Z.eq_dec t 0) as [->|Hne].
  - split; [left; reflexivity|reflexivity].
  - destruct (of_int_normal t ltac:(lia)) as (mx & ex & -> & Hex & Hmx & Hr).
    split.
    + right. exists mx, ex. split; [reflexivity|]. split; [exact Hr|lia].
    + cbn [scaled]. rewrite Hmx.
      replace 200 with (- ex + (ex + 200)) at 2 by lia.
      rewrite (pow2_split (- ex) (ex + 200)) by lia. lia.
Qed.

(** [int(f)] is the floor of the value. *)
Lemma to_int_scaled f :
  finite_in (-200) 200 f -> PyFloat.to_int f = Some (scaled f / 2 ^ 200).
Proof.
  intros [->|(m & e & -> & Hm & He)]; [reflexivity|].
  cbn [PyFloat.to_int scaled cond_Zopp]. f_equal.
  destruct (Z_le_gt_dec 0 e) as [H|H].
  - rewrite Z.shiftl_mul_pow2 by lia.
    rewrite (pow2_split e 200) by lia. rewrite Z.mul_assoc.
    rewrite Z.div_mul; [reflexivity|]. apply Z.pow_nonzero; lia.
  - rewrite Z.shiftl_div_pow2 by lia.
    replace 200 with (e + 200 + - e) at 2 by lia.
    rewrite (pow2_split (e + 200) (- e)) by lia.
    rewrite (Z.mul_comm (2 ^ (e + 200))).
    rewrite Z.div_mul_cancel_r; [reflexivity| |]; apply Z.pow_nonzero; lia.
Qed.

Lemma scaled_normal_bounds m e :
  2 ^ 52 <= Zpos m < 2 ^ 53 -> -200 <= e ->
  2 ^ (e + 252) <= Zpos m * 2 ^ (e + 200) < 2 ^ (e + 253).
Proof.
  intros Hm He.
  replace (e + 252) with (52 + (e + 200)) by lia.
  replace (e + 253) with (53 + (e + 200)) by lia.
  rewrite (pow2_split 52), (pow2_split 53) by lia.
  assert (0 < 2 ^ (e + 200)) by (apply Z.pow_pos_nonneg; lia). nia.
Qed.

(** [f < g] compares the values. *)
Lemma ltb_scaled f g :
  finite_in (-200) 200 f -> finite_in (-200) 200 g ->
  PyFloat.ltb f g = (scaled f <? scaled g).
Proof.
  intros [->|(m & e & -> & Hm & He)] [->|(m' & e' & -> & Hm' & He')].
  - reflexivity.
  - unfold PyFloat.ltb, SFltb. cbn [SFcompare scaled].
    pose proof (scaled_normal_bounds m' e' Hm' ltac:(lia)) as Hb.
    assert (0 < 2 ^ (e' + 252)) by (apply Z.pow_pos_nonneg; lia).
    symmetry. apply Z.ltb_lt. lia.
  - unfold PyFloat.ltb, SFltb. cbn [SFcompare scaled].
    pose proof (scaled_normal_bounds m e Hm ltac:(lia)) as Hb.
    assert (0 < 2 ^ (e + 252)) by (apply Z.pow_pos_nonneg; lia).
    symmetry. apply Z.ltb_ge. lia.
  - unfold PyFloat.ltb, SFltb. cbn [SFcompare scaled].
    pose proof (scaled_normal_bounds m e Hm ltac:(lia)) as Hb.
    pose proof (scaled_normal_bounds m' e' Hm' ltac:(lia)) as Hb'.
    destruct (Z.compare_spec e e') as [Heq|Hlt|Hgt].
    + subst e'. assert (0 < 2 ^ (e + 200)) by (apply Z.pow_pos_nonneg; lia).
      change (Pcompare m m' Eq) with (Pos.compare m m').
      destruct (Pos.compare_spec m m') as [Hc|Hc|Hc].
      * subst m'. symmetry. apply Z.ltb_irrefl.
      * symmetry. apply Z.ltb_lt. apply Z.mul_lt_mono_pos_r; [lia|]. lia.
      * symmetry. apply Z.ltb_ge. apply Z.mul_le_mono_nonneg_r; lia.
    + assert (2 ^ (e + 253) <= 2 ^ (e' + 252)) by (apply Z.pow_le_mono_r; lia).
      symmetry. apply Z.ltb_lt. lia.
    + assert (2 ^ (e' + 253) <= 2 ^ (e + 252)) by (apply Z.pow_le_mono_r; lia).
      symmetry. apply Z.ltb_ge. lia.
Qed.

(** [math.ceil(f)] is the least integer that is no smaller than the
    value. *)
Lemma ceil_scaled f :
  finite_in (-200) 200 f ->
  exists c, PyFloat.ceil f = Some c /\ (c - 1) * 2 ^ 200 < scaled f <= c * 2 ^ 200.
Proof.
  intros [->|(m & e & -> & Hm & He)].
  - exists 0. split; [reflexivity|]. cbn. lia.
  - cbn [PyFloat.ceil scaled]. eexists. split; [reflexivity|].
    destruct (Z_le_gt_dec 0 e) as [H|H].
    + replace (0 <=? e) with true by (symmetry; apply Z.leb_le; lia).
      rewrite orb_true_r. cbv beta iota zeta. rewrite Z.shiftl_mul_pow2 by lia.
      rewrite (pow2_split e 200) by lia.
      assert (0 < 2 ^ e) by (apply Z.pow_pos_nonneg; lia).
      assert (0 < 2 ^ 200) by (apply Z.pow_pos_nonneg; lia).
      set (A := 2 ^ e) in *. set (B := 2 ^ 200) in *. nia.
    + replace (0 <=? e) with false by (symmetry; apply Z.leb_gt; lia).
      rewrite orb_false_r. rewrite (Z.shiftl_div_pow2 (Zpos m) e) by lia.
      rewrite (Z.shiftl_mul_pow2 _ (- e)) by lia.
      set (d := 2 ^ (- e)).
      assert (Hd : 0 < d) by (apply Z.pow_pos_nonneg; lia).
      assert (H200 : 2 ^ 200 = 2 ^ (e + 200) * d).
      { unfold d. rewrite <- pow2_split by lia. f_equal. lia. }
      assert (Hs : 0 < 2 ^ (e + 200)) by (apply Z.pow_pos_nonneg; lia).
      pose proof (Z.div_mod (Zpos m) d ltac:(lia)) as Hdm.
      pose proof (Z.mod_pos_bound (Zpos m) d Hd) as Hmod.
      rewrite H200. set (B := 2 ^ (e + 200)) in *.
      destruct (Z.eqb_spec (Zpos m / d * d) (Zpos m)) as [Heq|Hne]; nia.
Qed.

(** [a / b] on two lengths: within [2 ^ -51] of the quotient, relatively. *)
Lemma div_scaled a b :
  0 <= a < 2 ^ 53 -> 0 < b < 2 ^ 53 ->
  exists c,
    PyFloat.div (PyFloat.of_int a) (PyFloat.of_int b) = c /\
    finite_in (-106) 1 c /\
    2 ^ 51 * (b * scaled c) <= (2 ^ 51 + 1) * (a * 2 ^ 200) /\
    (2 ^ 51 - 1) * (a * 2 ^ 200) <= 2 ^ 51 * (b * scaled c).
Proof.
  intros Ha Hb. destruct (Z.eq_dec a 0) as [->|Hne].
  - destruct (of_int_normal b Hb) as (my & ey & -> & _).
    exists (S754_zero false). split; [reflexivity|]. split; [left; reflexivity|].
    cbn [scaled]. lia.
  - destruct (of_int_normal a ltac:(lia)) as (mx & ex & -> & Hex & Hmxv & Hmx).
    destruct (of_int_normal b Hb) as (my & ey & -> & Hey & Hmyv & Hmy).
    unfold PyFloat.div, PyFloat.prec, PyFloat.emax, SFdiv, SFdiv_core_binary. simpl Zdigits2.
    rewrite (digits2_pos_unique mx 53), (digits2_pos_unique my 53) by (simpl; lia).
    rewrite fexp64 by lia.
    replace (Z.min (53 + ex - (53 + ey) - 53) (ex - ey)) with (ex - ey - 53) by lia.
    replace (ex - ey - (ex - ey - 53)) with 53 by lia.
    rewrite Z.shiftl_mul_pow2 by lia.
    pose proof (Z_div_mod (Zpos mx * 2 ^ 53) (Zpos my) ltac:(lia)) as Hdm.
    destruct (Z.div_eucl (Zpos mx * 2 ^ 53) (Zpos my)) as [q r].
    destruct Hdm as [Hq Hr]. simpl xorb.
    assert (Hq52 : 2 ^ 52 <= q < 2 ^ 54).
    { change (2 ^ 53) with (2 * 2 ^ 52) in *. change (2 ^ 54) with (4 * 2 ^ 52).
      set (T := 2 ^ 52) in *. assert (0 < T) by (unfold T; lia). split; nia. }
    destruct q as [|pq|pq]; [simpl in Hq52; lia| |lia].
    set (E := ex - ey - 53).
    assert (Hk : exists k, 0 <= k <= 1 /\ 2 ^ (52 + k) <= Zpos pq < 2 ^ (53 + k)).
    { destruct (Z_lt_ge_dec (Zpos pq) (2 ^ 53)); [exists 0|exists 1]; simpl in *; lia. }
    destruct Hk as (k & Hk & Hpk).
    match goal with
    | |- context [binary_round_aux 53 1024 false (Zpos pq) E ?l] =>
        destruct (binary_round_aux_near pq E l k
                    ltac:(lia) Hpk ltac:(unfold E; lia) ltac:(unfold E; lia))
          as (m' & e' & -> & Hm' & He' & Hb')
    end.
    eexists. split; [reflexivity|]. split.
    { right. exists m', e'. split; [reflexivity|]. split; [exact Hm'|unfold E in He'; lia]. }
    cbn [scaled].
    (* the value in units of [2 ^ E] *)
    set (R := Zpos m' * 2 ^ (e' - E)) in *.
    set (S := 2 ^ (E + 200)).
    assert (HS : 0 < S) by (apply Z.pow_pos_nonneg; unfold E; lia).
    assert (Hscaled : Zpos m' * 2 ^ (e' + 200) = R * S).
    { unfold R, S. rewrite <- Z.mul_assoc, <- pow2_split by (unfold E in *; lia).
      f_equal. f_equal. lia. }
    rewrite Hscaled.
    assert (HR : Zpos pq - 1 <= R <= Zpos pq + 2).
    { assert (k = 0 \/ k = 1) as [->| ->] by lia.
      - change (2 ^ 0) with 1 in Hb'. rewrite Z.div_1_r in Hb'. lia.
      - change (2 ^ 1) with 2 in Hb'.
        pose proof (Z.div_mod (Zpos pq) 2 ltac:(lia)) as Hd2.
        pose proof (Z.mod_pos_bound (Zpos pq) 2 ltac:(lia)) as Hm2. lia. }
    set (X := 2 ^ (- ex)) in *. set (Y := 2 ^ (- ey)) in *.
    assert (HX : 0 < X) by (apply Z.pow_pos_nonneg; lia).
    assert (HY : 0 < Y) by (apply Z.pow_pos_nonneg; lia).
    assert (HSXY : S * (X * 2 ^ 53) = 2 ^ 200 * Y).
    { unfold S, X, Y, E. rewrite <- !pow2_split by lia. f_equal. lia. }
    set (P := 2 ^ 200) in *. set (Q := Zpos pq) in *.
    set (MX := Zpos mx) in *. set (MY := Zpos my) in *.
    (* everything times [Y] *)
    assert (H1 : MY * R <= MX * 2 ^ 53 + 2 * MY) by nia.
    assert (H2 : MX * 2 ^ 53 - 2 * MY <= MY * R) by nia.
    assert (H3 : b * (R * S) * Y <= (a * P + 2 * b * S) * Y).
    { replace (b * (R * S) * Y) with (MY * R * S) by (rewrite Hmyv; ring).
      replace ((a * P + 2 * b * S) * Y) with ((MX * 2 ^ 53 + 2 * MY) * S).
      - apply Z.mul_le_mono_nonneg_r; lia.
      - rewrite Hmxv, Hmyv. rewrite Z.mul_add_distr_r.
        replace (a * X * 2 ^ 53 * S) with (a * (S * (X * 2 ^ 53))) by ring.
        rewrite HSXY. ring. }
    assert (H4 : (a * P - 2 * b * S) * Y <= b * (R * S) * Y).
    { replace (b * (R * S) * Y) with (MY * R * S) by (rewrite Hmyv; ring).
      replace ((a * P - 2 * b * S) * Y) with ((MX * 2 ^ 53 - 2 * MY) * S).
      - apply Z.mul_le_mono_nonneg_r; lia.
      - rewrite Hmxv, Hmyv. rewrite Z.mul_sub_distr_r.
        replace (a * X * 2 ^ 53 * S) with (a * (S * (X * 2 ^ 53))) by ring.
        rewrite HSXY. ring. }
    assert (H5 : 2 ^ 52 * (b * S) * Y <= a * P * Y).
    { replace (a * P * Y) with (MX * 2 ^ 53 * S).
      - replace (2 ^ 52 * (b * S) * Y) with (2 ^ 52 * MY * S) by (rewrite Hmyv; ring).
        apply Z.mul_le_mono_nonneg_r; [lia|].
        change (2 ^ 53) with (2 * 2 ^ 52) in *. set (T := 2 ^ 52) in *.
        assert (0 < T) by (unfold T; lia). nia.
      - rewrite Hmxv. replace (a * X * 2 ^ 53 * S) with (a * (S * (X * 2 ^ 53))) by ring.
        rewrite HSXY. ring. }
    assert (H3' : b * (R * S) <= a * P + 2 * b * S)
      by (apply (Z.mul_le_mono_pos_r _ _ Y HY); exact H3).
    assert (H4' : a * P - 2 * b * S <= b * (R * S))
      by (apply (Z.mul_le_mono_pos_r _ _ Y HY); exact H4).
    assert (H5' : 2 ^ 52 * (b * S) <= a * P)
      by (apply (Z.mul_le_mono_pos_r _ _ Y HY); exact H5).
    change (2 ^ 52) with (2 * 2 ^ 51) in H5'.
    set (T := 2 ^ 51) in *. assert (0 < T) by (unfold T; lia).
    split; lia.
Qed.

(** [j * c] for an int and a float: within [2 ^ -52] of the product,
    relatively. *)
Lemma mul_scaled j c :
  0 <= j < 2 ^ 53 -> finite_in (-106) 1 c ->
  exists x,
    PyFloat.mul (PyFloat.of_int j) c = x /\
    finite_in (-160) 60 x /\
    2 ^ 52 * scaled x <= (2 ^ 52 + 1) * (j * scaled c) /\
    (2 ^ 52 - 1) * (j * scaled c) <= 2 ^ 52 * scaled x.
Proof.
  intros Hj Hc. destruct (Z.eq_dec j 0) as [->|Hne].
  - exists (S754_zero false). split.
    + destruct Hc as [->|(mc & ec & -> & _)]; reflexivity.
    + split; [left; reflexivity|]. cbn [scaled]. lia.
  - destruct (of_int_normal j ltac:(lia)) as (mx & ex & -> & Hex & Hmxv & Hmx).
    destruct Hc as [->|(mc & ec & -> & Hmc & Hec)].
    + exists (S754_zero false). split; [reflexivity|]. split; [left; reflexivity|].
      cbn [scaled]. lia.
    + unfold PyFloat.mul, PyFloat.prec, PyFloat.emax. simpl SFmul. rewrite Pos2Z.inj_mul.
      set (M := Zpos mx * Zpos mc). set (E := ex + ec).
      assert (HM : 2 ^ 104 <= M < 2 ^ 106).
      { unfold M. change (2 ^ 104) with (2 ^ 52 * 2 ^ 52).
        change (2 ^ 106) with (2 ^ 53 * 2 ^ 53). nia. }
      assert (Hn : exists n, (n = 52 \/ n = 53) /\ 2 ^ (52 + n) <= M < 2 ^ (53 + n)).
      { destruct (Z_lt_ge_dec M (2 ^ 105)) as [H|H].
        - exists 52. split; [auto|]. simpl (52 + 52). simpl (53 + 52). lia.
        - exists 53. split; [auto|]. simpl (52 + 53). simpl (53 + 53). lia. }
      destruct Hn as (n & Hn & HMn).
      assert (HMpos : exists p, M = Zpos p).
      { unfold M. exists (mx * mc)%positive. reflexivity. }
      destruct HMpos as [p Hp]. rewrite Hp in *.
      destruct (binary_round_aux_near p E loc_Exact n ltac:(lia) HMn
                  ltac:(unfold E; lia) ltac:(unfold E; lia))
        as (m' & e' & -> & Hm' & He' & Hb').
      eexists. split; [reflexivity|]. split.
      { right. exists m', e'. split; [reflexivity|]. split; [exact Hm'|unfold E in He'; lia]. }
      cbn [scaled].
      set (R := Zpos m' * 2 ^ (e' - E)) in *.
      set (S := 2 ^ (E + 200)).
      assert (HS : 0 < S) by (apply Z.pow_pos_nonneg; unfold E; lia).
      assert (Hscaled : Zpos m' * 2 ^ (e' + 200) = R * S).
      { unfold R, S. rewrite <- Z.mul_assoc, <- pow2_split by (unfold E in *; lia).
        f_equal. f_equal. lia. }
      rewrite Hscaled.
      assert (Hprod : j * (Zpos mc * 2 ^ (ec + 200)) = Zpos p * S).
      { rewrite <- Hp. unfold M, S, E. rewrite Hmxv.
        replace (ec + 200) with (- ex + (ex + ec + 200)) by lia.
        rewrite (pow2_split (- ex)) by lia. ring. }
      rewrite Hprod.
      assert (Hpn : 0 < 2 ^ n) by (apply Z.pow_pos_nonneg; lia).
      assert (H52n : 2 ^ 52 * 2 ^ n <= Zpos p).
      { rewrite <- pow2_split by lia. lia. }
      pose proof (Z.div_mod (Zpos p) (2 ^ n) ltac:(lia)) as Hdm.
      pose proof (Z.mod_pos_bound (Zpos p) (2 ^ n) Hpn) as Hmod.
      set (N := 2 ^ n) in *. set (Q := Zpos p / N) in *. set (PP := Zpos p) in *.
      set (T := 2 ^ 52) in *. assert (0 < T) by (unfold T; lia).
      assert (H1 : T * R <= (T + 1) * PP) by nia.
      assert (H2 : (T - 1) * PP <= T * R) by nia.
      split.
      * replace (T * (R * S)) with (T * R * S) by ring.
        replace ((T + 1) * (PP * S)) with ((T + 1) * PP * S) by ring.
        apply Z.mul_le_mono_nonneg_r; lia.
      * replace (T * (R * S)) with (T * R * S) by ring.
        replace ((T - 1) * (PP * S)) with ((T - 1) * PP * S) by ring.
        apply Z.mul_le_mono_nonneg_r; lia.
Qed.


(** ** The expansion segments cover the transcript *)

Lemma mapM_total {A B} (f : A -> result B) (g : A -> B) (l : list A) :
  Forall (fun a => f a = Ok (g a)) l -> Expansion.mapM f l = Ok (map g l).
Proof.
  induction 1 as [|a l Ha _ IH]; cbn [Expansion.mapM map]; [reflexivity|].
  rewrite Ha, IH. reflexivity.
Qed.

Lemma Forall_range_from (P : Z -> Prop) : forall n k,
  (forall i, Z.of_nat k <= i < Z.of_nat k + Z.of_nat n -> P i) ->
  Forall P (map Z.of_nat (seq k n)).
Proof.
  induction n as [|n IH]; intros k H; cbn [seq map]; constructor.
  - apply H. lia.
  - apply IH. intros i Hi. apply H. lia.
Qed.

Lemma Forall_map_all {A B} (f : A -> B) (P : B -> Prop) (l : list A) :
  (forall a, P (f a)) -> Forall P (map f l).
Proof. intros H. induction l; cbn [map]; constructor; auto. Qed.

Lemma tiles_le : forall ranges from n, Chunking.tiles from n ranges -> from <= n.
Proof.
  induction ranges as [|[a b] rs IH]; intros from n H; cbn [Chunking.tiles] in H.
  - lia.
  - destruct H as (-> & Hab & Hrest). apply IH in Hrest. lia.
Qed.

(** The slices over a tiling put together are one slice. *)
Lemma tiles_concat (x : str) : forall ranges from n,
  0 <= from -> n <= len x -> Chunking.tiles from n ranges ->
  concat (map (fun r => slice x (fst r) (snd r)) ranges) = slice x from n.
Proof.
  induction ranges as [|[a b] rs IH]; intros from n H0 Hn H; cbn [Chunking.tiles] in H.
  - subst n. cbn [map concat]. rewrite slice_take_drop by lia.
    replace (Z.to_nat (from - from)) with 0%nat by lia. reflexivity.
  - destruct H as (-> & Hab & Hrest). pose proof (tiles_le _ _ _ Hrest) as Hbn.
    cbn [map concat fst snd]. rewrite (IH b n) by (lia || exact Hrest).
    rewrite !slice_take_drop by lia.
    replace (Z.to_nat b) with (Z.to_nat from + Z.to_nat (b - from))%nat by lia.
    rewrite <- drop_drop, take_take_drop. f_equal. lia.
Qed.

(** Three steps of arithmetic on the scaled values. *)
Lemma scaled_chain_upper D1 D2 A B j N vx vc W :
  0 <= j -> 0 < N -> 0 <= W -> 0 <= vc -> 0 < D1 -> 0 < D2 -> 0 <= A -> 0 <= B ->
  D1 * vx <= A * (j * vc) -> D2 * (N * vc) <= B * W -> A * B * j <= D1 * D2 * N ->
  vx <= W.
Proof.
  intros Hj HN HW Hvc HD1 HD2 HA HB H1 H2 H3.
  assert (S1 : D2 * N * (D1 * vx) <= D2 * N * (A * (j * vc)))
    by (apply Z.mul_le_mono_nonneg_l; [nia|exact H1]).
  assert (S2 : A * j * (D2 * (N * vc)) <= A * j * (B * W))
    by (apply Z.mul_le_mono_nonneg_l; [nia|exact H2]).
  assert (S3 : A * B * j * W <= D1 * D2 * N * W)
    by (apply Z.mul_le_mono_nonneg_r; [exact HW|exact H3]).
  assert (S4 : D1 * D2 * N * vx <= D1 * D2 * N * W) by lia.
  apply (Z.mul_le_mono_pos_l _ _ (D1 * D2 * N)); [nia|exact S4].
Qed.

Lemma scaled_chain_lower D1 D2 A B N vx vc W :
  0 < D1 -> 0 < D2 -> 0 <= A -> 0 <= B ->
  A * (N * vc) <= D1 * vx -> B * W <= D2 * (N * vc) ->
  A * B * W <= D1 * D2 * vx.
Proof.
  intros HD1 HD2 HA HB H1 H2.
  assert (S1 : D2 * (A * (N * vc)) <= D2 * (D1 * vx))
    by (apply Z.mul_le_mono_nonneg_l; [lia|exact H1]).
  assert (S2 : A * (B * W) <= A * (D2 * (N * vc)))
    by (apply Z.mul_le_mono_nonneg_l; [lia|exact H2]).
  lia.
Qed.

Lemma scaled_chain_mono D A A' j vx vx' vc :
  0 < D -> 0 <= vc -> D * vx <= A * (j * vc) -> A' * ((j + 1) * vc) <= D * vx' ->
  A * j <= A' * (j + 1) -> vx <= vx'.
Proof.
  intros HD Hvc H1 H2 H3.
  assert (S1 : A * j * vc <= A' * (j + 1) * vc)
    by (apply Z.mul_le_mono_nonneg_r; [exact Hvc|exact H3]).
  assert (S2 : D * vx <= D * vx') by lia.
  apply (Z.mul_le_mono_pos_l _ _ D); [exact HD|exact S2].
Qed.

Section SegmentBoundaries.

Variable transcript_text : str.
Variable N : Z.
Variable c : PyFloat.float.

Hypothesis HL : len transcript_text < 2 ^ 49.
Hypothesis HN : 1 <= N < 2 ^ 49.
Hypothesis Hc : finite_in (-106) 1 c.
Hypothesis Hupper :
  2 ^ 51 * (N * scaled c) <= (2 ^ 51 + 1) * (len transcript_text * 2 ^ 200).
Hypothesis Hlower :
  (2 ^ 51 - 1) * (len transcript_text * 2 ^ 200) <= 2 ^ 51 * (N * scaled c).

Lemma len_nonneg (x : str) : 0 <= len x.
Proof. unfold len. lia. Qed.

Lemma product_facts j :
  0 <= j < 2 ^ 53 ->
  finite_in (-200) 200 (PyFloat.mul (PyFloat.of_int j) c) /\
  2 ^ 52 * scaled (PyFloat.mul (PyFloat.of_int j) c) <= (2 ^ 52 + 1) * (j * scaled c) /\
  (2 ^ 52 - 1) * (j * scaled c) <= 2 ^ 52 * scaled (PyFloat.mul (PyFloat.of_int j) c).
Proof.
  intros Hj. destruct (mul_scaled j c Hj Hc) as (x & -> & Hx & H1 & H2).
  split; [eapply finite_in_weaken; [exact Hx|lia|lia]|]. split; assumption.
Qed.

Lemma make_segment_at i :
  0 <= i -> i + 1 < 2 ^ 53 ->
  Expansion.make_segment transcript_text c (len transcript_text) i
  = Ok (segment_at transcript_text c i).
Proof.
  intros Hi Hi1. pose proof (len_nonneg transcript_text) as HL0.
  unfold Expansion.make_segment, Expansion.int_min_float_int, PyFloat.int_lt.
  destruct (product_facts i ltac:(lia)) as (Hx & _).
  destruct (product_facts (i + 1) ltac:(lia)) as (Hx' & _).
  destruct (scaled_of_int (len transcript_text) ltac:(lia)) as (HfL & HvL).
  rewrite (to_int_scaled _ Hx).
  rewrite (ltb_scaled _ _ (finite_in_weaken _ _ (-200) 200 _ HfL ltac:(lia) ltac:(lia)) Hx').
  rewrite HvL, (to_int_scaled _ Hx').
  unfold segment_at, end_at, boundary_at.
  cbn [of_option mbind result_bind rbind].
  destruct (_ <? _); reflexivity.
Qed.

Lemma boundary_at_zero : boundary_at c 0 = 0.
Proof.
  unfold boundary_at. destruct (product_facts 0 ltac:(lia)) as (_ & H1 & _).
  pose proof (scaled_nonneg (PyFloat.mul (PyFloat.of_int 0) c)) as H0.
  replace (scaled (PyFloat.mul (PyFloat.of_int 0) c)) with 0 by lia. reflexivity.
Qed.

(** Before the last boundary the product stays below the length. *)
Lemma product_below_length j :
  0 <= j < N ->
  scaled (PyFloat.mul (PyFloat.of_int j) c) <= len transcript_text * 2 ^ 200.
Proof.
  intros Hj. pose proof (len_nonneg transcript_text) as HL0.
  destruct (product_facts j ltac:(lia)) as (_ & H1 & _).
  assert (HP : 0 < 2 ^ 200) by (apply Z.pow_pos_nonneg; lia).
  apply (scaled_chain_upper (2 ^ 52) (2 ^ 51) (2 ^ 52 + 1) (2 ^ 51 + 1) j N _ (scaled c));
    try lia; try apply scaled_nonneg; assumption.
Qed.

Lemma product_mono j :
  0 <= j < 2 ^ 50 ->
  scaled (PyFloat.mul (PyFloat.of_int j) c)
  <= scaled (PyFloat.mul (PyFloat.of_int (j + 1)) c).
Proof.
  intros Hj.
  destruct (product_facts j ltac:(lia)) as (_ & H1 & _).
  destruct (product_facts (j + 1) ltac:(lia)) as (_ & _ & H2).
  apply (scaled_chain_mono (2 ^ 52) (2 ^ 52 + 1) (2 ^ 52 - 1) j _ _ (scaled c));
    try lia; try apply scaled_nonneg; assumption.
Qed.

Lemma boundary_at_mono j :
  0 <= j < 2 ^ 50 -> boundary_at c j <= boundary_at c (j + 1).
Proof.
  intros Hj. unfold boundary_at. apply Z.div_le_mono; [|apply product_mono; exact Hj].
  apply Z.pow_pos_nonneg; lia.
Qed.

Lemma boundary_at_below_length j :
  0 <= j < N -> boundary_at c j <= len transcript_text.
Proof.
  intros Hj. unfold boundary_at.
  assert (HP : 0 < 2 ^ 200) by (apply Z.pow_pos_nonneg; lia).
  rewrite <- (Z.div_mul (len transcript_text) (2 ^ 200)) by lia.
  apply Z.div_le_mono; [exact HP|]. apply product_below_length. exact Hj.
Qed.

Lemma end_at_inner i :
  0 <= i -> i + 1 < N -> end_at c (len transcript_text) i = boundary_at c (i + 1).
Proof.
  intros Hi Hi1. unfold end_at.
  pose proof (product_below_length (i + 1) ltac:(lia)) as H.
  destruct (Z.ltb_spec (len transcript_text * 2 ^ 200)
              (scaled (PyFloat.mul (PyFloat.of_int (i + 1)) c))); [lia|reflexivity].
Qed.

(** The last product is less than one below the length. *)
Lemma last_product_near_length :
  (len transcript_text - 1) * 2 ^ 200 <= scaled (PyFloat.mul (PyFloat.of_int N) c).
Proof.
  pose proof (len_nonneg transcript_text) as HL0.
  destruct (product_facts N ltac:(lia)) as (_ & _ & H2).
  assert (HP : 0 < 2 ^ 200) by (apply Z.pow_pos_nonneg; lia).
  pose proof (scaled_chain_lower (2 ^ 52) (2 ^ 51) (2 ^ 52 - 1) (2 ^ 51 - 1) N _ _ _
                ltac:(lia) ltac:(lia) ltac:(lia) ltac:(lia) H2 Hlower) as H.
  set (vx := scaled (PyFloat.mul (PyFloat.of_int N) c)) in *.
  set (P := 2 ^ 200) in *.
  assert (S1 : 2 ^ 52 * 2 ^ 51 * (len transcript_text - 1)
               <= (2 ^ 52 - 1) * (2 ^ 51 - 1) * len transcript_text) by lia.
  assert (S2 : 2 ^ 52 * 2 ^ 51 * (len transcript_text - 1) * P
               <= (2 ^ 52 - 1) * (2 ^ 51 - 1) * len transcript_text * P)
    by (apply Z.mul_le_mono_nonneg_r; [lia|exact S1]).
  assert (S3 : 2 ^ 52 * 2 ^ 51 * ((len transcript_text - 1) * P) <= 2 ^ 52 * 2 ^ 51 * vx)
    by lia.
  apply (Z.mul_le_mono_pos_l _ _ (2 ^ 52 * 2 ^ 51)); [lia|exact S3].
Qed.

Lemma last_end_bounds :
  boundary_at c (N - 1) <= end_at c (len transcript_text) (N - 1) /\
  len transcript_text - 1 <= end_at c (len transcript_text) (N - 1) <= len transcript_text.
Proof.
  pose proof (len_nonneg transcript_text) as HL0.
  assert (HP : 0 < 2 ^ 200) by (apply Z.pow_pos_nonneg; lia).
  unfold end_at. replace (N - 1 + 1) with N by lia.
  destruct (Z.ltb_spec (len transcript_text * 2 ^ 200)
              (scaled (PyFloat.mul (PyFloat.of_int N) c))) as [Hlt|Hge].
  - split; [apply boundary_at_below_length; lia|lia].
  - split.
    + pose proof (boundary_at_mono (N - 1) ltac:(lia)) as H.
      replace (N - 1 + 1) with N in H by lia. exact H.
    + unfold boundary_at. split.
      * rewrite <- (Z.div_mul (len transcript_text - 1) (2 ^ 200)) by lia.
        apply Z.div_le_mono; [exact HP|apply last_product_near_length].
      * rewrite <- (Z.div_mul (len transcript_text) (2 ^ 200)) by lia.
        apply Z.div_le_mono; [exact HP|exact Hge].
Qed.

Lemma segment_at_tiles : forall (d k : nat),
  Z.of_nat k + Z.of_nat (S d) = N ->
  Chunking.tiles (boundary_at c (Z.of_nat k)) (end_at c (len transcript_text) (N - 1))
    (map segment_range (map (segment_at transcript_text c) (map Z.of_nat (seq k (S d))))).
Proof.
  induction d as [|d IH]; intros k Hk.
  - cbn [seq map Chunking.tiles segment_range segment_at Expansion.start_char
         Expansion.end_char].
    replace (Z.of_nat k) with (N - 1) by lia.
    split; [reflexivity|]. split; [apply last_end_bounds|reflexivity].
  - change (seq k (S (S d))) with (k :: seq (S k) (S d)).
    cbn [map Chunking.tiles segment_range segment_at Expansion.start_char
         Expansion.end_char].
    split; [reflexivity|].
    rewrite end_at_inner by lia.
    split; [apply boundary_at_mono; lia|].
    replace (Z.of_nat k + 1) with (Z.of_nat (S k)) by lia.
    apply IH. lia.
Qed.

End SegmentBoundaries.

Lemma required_chapters_bounds target_length :
  0 < target_length < 2 ^ 53 ->
  exists required,
    Expansion.required_chapters target_length = Ok required /\ 1 <= required < 2 ^ 49.
Proof.
  intros HT. unfold Expansion.required_chapters, PyFloat.int_truediv,
    Expansion.max_chapter_size.
  change (15000 =? 0) with false. cbv iota.
  destruct (div_scaled target_length 15000 ltac:(lia) ltac:(lia))
    as (q & -> & Hq & Hup & Hlo).
  destruct (ceil_scaled q (finite_in_weaken _ _ (-200) 200 _ Hq ltac:(lia) ltac:(lia)))
    as (n & Hn & Hlow & Hhigh).
  cbn [of_option mbind result_bind rbind]. rewrite Hn.
  cbn [of_option]. exists n. split; [reflexivity|].
  assert (HP : 0 < 2 ^ 200) by (apply Z.pow_pos_nonneg; lia).
  set (P := 2 ^ 200) in *. set (vq := scaled q) in *.
  assert (HTP : 0 < target_length * P) by (apply Z.mul_pos_pos; lia).
  assert (HTP' : target_length * P < 2 ^ 53 * P)
    by (apply Z.mul_lt_mono_pos_r; lia).
  assert (Hvq : 0 < vq) by lia.
  split.
  - destruct (Z_lt_ge_dec n 1) as [H|H]; [|lia].
    assert (n * P <= 0 * P) by (apply Z.mul_le_mono_nonneg_r; lia). lia.
  - destruct (Z_lt_ge_dec n (2 ^ 49)) as [H|H]; [exact H|].
    assert ((2 ^ 49 - 1) * P <= (n - 1) * P) by (apply Z.mul_le_mono_nonneg_r; lia).
    lia.
Qed.

Lemma segment_at_texts (x : str) (c : PyFloat.float) (l : list Z) :
  map Expansion.text (map (segment_at x c) l)
  = map (fun r => slice x (fst r) (snd r)) (map segment_range (map (segment_at x c) l)).
Proof. induction l as [|i l IH]; cbn [map]; [reflexivity|]. rewrite IH. reflexivity. Qed.

(** X21.  For a target length between 1 and 2^53 and a transcript of fewer
    than 2^49 characters the expansion path divides the transcript into
    [required_chapters] segments, at least one, numbered 1, 2, ... in order;
    the text of each is the slice between its two positions; the first
    starts at 0, no segment starts after it ends, each starts where the one
    before ends, and the last ends at the length of the transcript or one
    character before it.  Put together the texts are the transcript up to
    that position. *)
Theorem expansion_segments_cover_transcript (transcript_text : str) (target_length : Z) :
  0 < target_length < 2 ^ 53 -> len transcript_text < 2 ^ 49 ->
  exists required segs last_end,
    Expansion.required_chapters target_length = Ok required /\ 1 <= required /\
    Expansion.segments transcript_text target_length = Ok segs /\
    map Expansion.chapter_num segs = map (fun i => i + 1) (Expansion.range required) /\
    Forall (fun g => Expansion.text g
                     = slice transcript_text (Expansion.start_char g) (Expansion.end_char g))
           segs /\
    Chunking.tiles 0 last_end (map segment_range segs) /\
    len transcript_text - 1 <= last_end <= len transcript_text /\
    concat (map Expansion.text segs) = slice_to transcript_text last_end.
Proof.
  intros HT HL. pose proof (len_nonneg transcript_text) as HL0.
  destruct (required_chapters_bounds target_length HT) as (N & Hreq & HN).
  destruct (div_scaled (len transcript_text) N ltac:(lia) ltac:(lia))
    as (c & Hdiv & Hc & Hup & Hlo).
  set (segs := map (segment_at transcript_text c) (Expansion.range N)).
  set (last_end := end_at c (len transcript_text) (N - 1)).
  assert (Hsegs : Expansion.segments transcript_text target_length = Ok segs).
  { unfold Expansion.segments. rewrite Hreq. cbn [mbind result_bind rbind].
    unfold PyFloat.int_truediv. destruct (Z.eqb_spec N 0) as [|_]; [lia|].
    rewrite Hdiv. cbn [of_option mbind result_bind rbind].
    apply mapM_total. unfold Expansion.range. apply Forall_range_from.
    intros i Hi. apply (make_segment_at transcript_text c HL Hc); lia. }
  assert (Htiles : Chunking.tiles 0 last_end (map segment_range segs)).
  { unfold segs, Expansion.range.
    destruct (Z.to_nat N) as [|d] eqn:Ed; [lia|].
    rewrite <- (boundary_at_zero c Hc) at 1.
    apply (segment_at_tiles transcript_text N c HL HN Hc Hup Hlo d 0%nat). lia. }
  destruct (last_end_bounds transcript_text N c HL HN Hc Hup Hlo) as (_ & Hlast).
  exists N, segs, last_end.
  split; [exact Hreq|]. split; [lia|]. split; [exact Hsegs|].
  split.
  { unfold segs. rewrite map_map. reflexivity. }
  split; [apply Forall_map_all; reflexivity|].
  split; [exact Htiles|]. split; [exact Hlast|].
  unfold segs. rewrite segment_at_texts.
  apply (tiles_concat transcript_text _ 0 last_end); [lia|apply Hlast|exact Htiles].
Qed.

(** ** The properties above at concrete inputs *)

Lemma fixed_size_chunks_partition_witness :
  0 < 3 /\
  exists chunks,
    Chunking.fixed_size_chunks 3 (s "abcdefgh") = Ok chunks /\
    concat chunks = s "abcdefgh" /\
    Z.of_nat (length chunks) = (len (s "abcdefgh") + 3 - 1) / 3 /\
    forall (i : nat) c, chunks !! i = Some c ->
      0 < len c <= 3 /\ ((S i < length chunks)%nat -> len c = 3).
Proof. split; [lia|]. apply (fixed_size_chunks_partition 3 (s "abcdefgh")). lia. Defined.

Lemma fixed_size_chunks_degenerate_witness :
  -3 <= 0 /\ Chunking.fixed_size_chunks (-3) (s "abcdefgh") = Ok [].
Proof.
  split; [lia|]. exact (fixed_size_chunks_degenerate (-3) (s "abcdefgh") ltac:(lia)).
Defined.

Lemma create_chapter_aligned_chunks_keeps_chapters_witness :
  let l := map numbered_chapter [0; 1; 2; 3] in
  Exists (fun c => 1 <= StructureIndex.number c) l /\
  exists chunks,
    Chunking._create_chapter_aligned_chunks 20000 l (Some 70000) = Ok chunks /\
    concat (map Chunking.chapters chunks)
      = filter (fun c => 1 <= StructureIndex.number c) l /\
    Forall (Chunking.well_packed 20000 (Some 70000) (Z.of_nat (length l))) chunks.
Proof.
  intros l.
  assert (H : Exists (fun c => 1 <= StructureIndex.number c) l).
  { apply Exists_cons_tl. apply Exists_cons_hd. cbn. lia. }
  split; [exact H|].
  apply (create_chapter_aligned_chunks_keeps_chapters 20000 (Some 70000) l).
  right. exact H.
Defined.

Lemma create_chapter_aligned_chunks_tile_witness :
  let l := map numbered_chapter [1; 2; 3; 4; 5] in
  0 < 70000 /\ Exists (fun c => 1 <= StructureIndex.number c) l /\
  exists chunks,
    Chunking._create_chapter_aligned_chunks 20000 l (Some 70000) = Ok chunks /\
    chunks <> [] /\
    Chunking.tiles 0 70000 (map Chunking.char_range chunks).
Proof.
  intros l.
  assert (H : Exists (fun c => 1 <= StructureIndex.number c) l).
  { apply Exists_cons_hd. cbn. lia. }
  split; [lia|]. split; [exact H|].
  apply (create_chapter_aligned_chunks_tile 20000 (Some 70000) l 70000);
    [reflexivity|lia|exact H].
Defined.

Lemma create_chapter_aligned_chunks_no_valid_chapter_witness :
  let l := map numbered_chapter [0; -1] in
  70000 <> 0 /\ l <> [] /\ Forall (fun c => StructureIndex.number c < 1) l /\
  Chunking._create_chapter_aligned_chunks 20000 l (Some 70000) = Raise ZeroDivisionError.
Proof.
  intros l.
  assert (H1 : 70000 <> 0) by lia.
  assert (H2 : l <> []) by discriminate.
  assert (H3 : Forall (fun c => StructureIndex.number c < 1) l)
    by (repeat constructor; cbn; lia).
  split; [exact H1|]. split; [exact H2|]. split; [exact H3|].
  apply (create_chapter_aligned_chunks_no_valid_chapter 20000 (Some 70000) l 70000);
    [reflexivity|exact H1|exact H2|exact H3].
Defined.

Lemma process_llm_returns_first_answer_witness :
  let req := LlmCall.request_for (Llm._format_model_name (s "llama-3")) None (s "text") in
  Llm._check_api_key_for_model fallback_env (s "llama-3") = Ok tt /\
  fallback_env !! "MOCK_LLM_API"%string <> Some "true"%string /\
  LlmCall.process_llm 1 fallback_env flaky_provider [] (s "text") None (s "llama-3") 3
  = (inr (s "answer"), [req; req; req]).
Proof.
  intros req.
  assert (H1 : Llm._check_api_key_for_model fallback_env (s "llama-3") = Ok tt)
    by (vm_compute; reflexivity).
  assert (H2 : fallback_env !! "MOCK_LLM_API"%string <> Some "true"%string)
    by (vm_compute; discriminate).
  split; [exact H1|]. split; [exact H2|].
  apply (process_llm_returns_first_answer 1 fallback_env flaky_provider [] (s "text") None
           (s "llama-3") 3 2 (s "answer") H1 H2).
  - cbn. lia.
  - intros j Hj. exists GenerationError.
    destruct j as [|[|j]]; [reflexivity|reflexivity|lia].
  - reflexivity.
Defined.

Lemma process_llm_never_asks_the_fallback_witness :
  let req := LlmCall.request_for (Llm._format_model_name (s "llama-3")) None (s "text") in
  Llm._check_api_key_for_model fallback_env (s "llama-3") = Ok tt /\
  fallback_env !! "MOCK_LLM_API"%string <> Some "true"%string /\
  LlmCall.fallback_model fallback_env = Some (s "llama-2") /\
  exists err,
    LlmCall.process_llm 1 fallback_env failing_provider [] (s "text") None (s "llama-3") 3
    = (inl err, [req; req; req]) /\
    exists e, err = LlmCall.Raised e /\ failing_provider 2%nat req = Raise e.
Proof.
  intros req.
  assert (H1 : Llm._check_api_key_for_model fallback_env (s "llama-3") = Ok tt)
    by (vm_compute; reflexivity).
  assert (H2 : fallback_env !! "MOCK_LLM_API"%string <> Some "true"%string)
    by (vm_compute; discriminate).
  split; [exact H1|]. split; [exact H2|]. split; [vm_compute; reflexivity|].
  apply (process_llm_never_asks_the_fallback 1 fallback_env failing_provider [] (s "text")
           None (s "llama-3") 3 H1 H2).
  intros j Hj. exists GenerationError. reflexivity.
Defined.

Lemma gemini_request_without_prefix_witness :
  contains (s "/") (s "gemini-pro") = false /\
  Llm.provider_key fallback_env (s "gemini-pro")
    = Some ("gemini"%string, "GOOGLE_API_KEY"%string) /\
  LlmCall.request_for (Llm._format_model_name (s "gemini-pro")) (Some (s "Be brief."))
    (s "text")
  = LlmCall.Completion (s "gemini/gemini-pro")
      [(LlmCall.User, s "Be brief." ++ [NL; NL] ++ s "text")].
Proof.
  assert (H1 : contains (s "/") (s "gemini-pro") = false) by (vm_compute; reflexivity).
  assert (H2 : Llm.provider_key fallback_env (s "gemini-pro")
               = Some ("gemini"%string, "GOOGLE_API_KEY"%string))
    by (vm_compute; reflexivity).
  split; [exact H1|]. split; [exact H2|].
  exact (gemini_request_without_prefix fallback_env (Some (s "Be brief.")) (s "text")
           (s "gemini-pro") "GOOGLE_API_KEY"%string H1 H2).
Defined.

Lemma grouped_segments_count_witness :
  let paragraphs := [s "aaaaaaaaaaaa"; s "bbbbbbbbb"; s "cc"] in
  let boundaries := Segmenter._identify_boundaries small_config paragraphs in
  1 <= 2 /\
  1 <= Z.of_nat (length (Segmenter.grouped_segments small_config paragraphs boundaries 2))
    <= 2.
Proof.
  intros paragraphs boundaries. split; [lia|].
  apply (grouped_segments_count small_config paragraphs boundaries 2). lia.
Defined.

Lemma find_sentence_break_near_target_witness :
  let text := s "One sentence. Another one. And a third." in
  0 <= 20 /\
  (Segmenter._find_sentence_break text 20 = 20 \/
   (20 - 1000 <= Segmenter._find_sentence_break text 20 <= 20 + 1000 /\
    0 <= Segmenter._find_sentence_break text 20 <= len text)).
Proof.
  intros text. split; [lia|].
  apply (find_sentence_break_near_target text 20). lia.
Defined.

Lemma split_long_segment_of_one_paragraph_witness :
  let segment := s "aaaaaaaaaaaaaaaaaaaaaaaaaaaaaa" in
  0 < Segmenter.target_segment_size small_config < 2 ^ 53 /\
  Segmenter.max_segment_size small_config < len segment < 2 ^ 53 /\
  (length (Segmenter._split_into_paragraphs segment) <= 1)%nat /\
  Segmenter._split_long_segment small_config segment
  = Raise (ValueError (s "range() arg 3 must not be zero")).
Proof.
  intros segment.
  assert (H1 : 0 < Segmenter.target_segment_size small_config < 2 ^ 53)
    by (vm_compute; split; reflexivity).
  assert (H2 : Segmenter.max_segment_size small_config < len segment < 2 ^ 53)
    by (vm_compute; split; reflexivity).
  assert (H3 : (length (Segmenter._split_into_paragraphs segment) <= 1)%nat)
    by (vm_compute; lia).
  split; [exact H1|]. split; [exact H2|]. split; [exact H3|].
  exact (split_long_segment_of_one_paragraph small_config segment H1 H2 H3).
Defined.

Lemma segment_transcript_zero_target_witness :
  Segmenter.target_segment_size zero_target_config = 0 /\
  0 < len (s "text") /\
  Segmenter.segment_transcript zero_target_config (s "text") = Raise ZeroDivisionError.
Proof.
  split; [reflexivity|]. split; [vm_compute; reflexivity|].
  apply (segment_transcript_zero_target zero_target_config (s "text"));
    [reflexivity|vm_compute; reflexivity].
Defined.

Lemma expansion_segments_cover_transcript_witness :
  0 < 100000 < 2 ^ 53 /\ len (repeat "a"%char 1004) < 2 ^ 49 /\
  exists required segs last_end,
    Expansion.required_chapters 100000 = Ok required /\ 1 <= required /\
    Expansion.segments (repeat "a"%char 1004) 100000 = Ok segs /\
    map Expansion.chapter_num segs = map (fun i => i + 1) (Expansion.range required) /\
    Forall (fun g => Expansion.text g
                     = slice (repeat "a"%char 1004) (Expansion.start_char g)
                         (Expansion.end_char g))
           segs /\
    Chunking.tiles 0 last_end (map segment_range segs) /\
    len (repeat "a"%char 1004) - 1 <= last_end <= len (repeat "a"%char 1004) /\
    concat (map Expansion.text segs) = slice_to (repeat "a"%char 1004) last_end.
Proof.
  assert (H1 : 0 < 100000 < 2 ^ 53) by lia.
  assert (H2 : len (repeat "a"%char 1004) < 2 ^ 49) by (vm_compute; reflexivity).
  split; [exact H1|]. split; [exact H2|].
  exact (expansion_segments_cover_transcript (repeat "a"%char 1004) 100000 H1 H2).
Defined.

Lemma expansion_segments_one_chapter_each_witness :
  let g := {| Expansion.chapter_num := 1; Expansion.start_char := 0;
              Expansion.end_char := 5; Expansion.text := s "hello" |} in
  brace_free one_chapter_outline /\
  exists st',
    Rewriter.expansion_segments long_winded_generator 3 names_only one_chapter_outline
      no_components (s "hello") [g] 0 1 Rewriter.initial_state = (Ok tt, st') /\
    expansion_outcome long_winded_generator 3 [g] Rewriter.initial_state st' /\
    length (Rewriter.processed_chunks st')
    = (length (Rewriter.processed_chunks Rewriter.initial_state) + length [g])%nat.
Proof.
  intros g.
  assert (H : brace_free one_chapter_outline) by (vm_compute; reflexivity).
  split; [exact H|].
  exact (expansion_segments_one_chapter_each long_winded_generator 3 names_only
           one_chapter_outline no_components (s "hello") H [g] 0 1
           Rewriter.initial_state).
Defined.
